(** * SCALE-R resilience dashboard: the data-processing core, embedded in Rocq

    The development follows [src/utils/highlightText.jsx] and [src/App.jsx]:
    text highlighting, numeric coercion, the coordinate normalizer, census and
    project ingestion, the search state and the filter/aggregation engine;
    then the CSV table of resilience percentages, the census statistics and
    legend, the hover state of the tracts, the search box, the values offered
    by the filters and their check boxes, the district test, the marker
    colours, the cost display, the zoom targets and the layer selector.

    Conventions of the embedding.
    - A JavaScript number is an IEEE-754 binary64 value: Rocq's primitive
      [float].  [Math.exp] and [Math.atan] are implementation-approximated in
      ECMAScript, so they are parameters of the functions that call them.
      Array lengths and counters are natural numbers.
    - A JavaScript string is a sequence of code units; the model keeps the code
      units below 256 (Stdlib's [ascii], read as Latin-1).
    - GeoJSON property bags are finite maps from keys to scalar values; a
      missing key reads as [undefined].
    - A computation that can throw has an [outcome]: it completes, throws a
      [TypeError], or leaves the part of the language the embedding covers.
    - The number of arguments a call accepts is the host's: a spread call
      [f(...values)] takes the bound as a parameter and throws beyond it.
    - [searchProjects] lives in [src/utils/searchProjects.js]; the search
      effect takes it as a parameter.  So is the compact number format of
      [Intl.NumberFormat] a parameter of the cost display.
    - Mapbox's feature state is a function from feature identifiers to the
      [hover] flag; React state is threaded through the handlers. *)

From Stdlib Require Import ZArith NArith Floats Ascii String List Bool Lia.
From stdpp Require Import base option list sorting gmap strings.
From Equations Require Import Equations.

Local Open Scope stdpp_scope.

(** ** JavaScript scalar values *)

Inductive jsval : Type :=
| JUndefined
| JNull
| JBool (b : bool)
| JNum (x : float)
| JStr (s : string).

(** [typeof v === 'string'] and [typeof v === 'number']. *)
Definition isString (v : jsval) : bool :=
  match v with JStr _ => true | _ => false end.

Definition isNumber (v : jsval) : bool :=
  match v with JNum _ => true | _ => false end.

(** [Number.isFinite] on a number. *)
Definition Number_isFinite (x : float) : bool :=
  negb (PrimFloat.is_nan x || PrimFloat.is_infinity x).

(** ToBoolean: [undefined], [null], [false], [0], [-0], [NaN] and the empty
    string are falsy. *)
Definition truthy (v : jsval) : bool :=
  match v with
  | JUndefined | JNull => false
  | JBool b => b
  | JNum x => negb (PrimFloat.is_nan x || PrimFloat.is_zero x)
  | JStr s => negb (bool_decide (s = ""))
  end.

(** [a || b] on values. *)
Definition js_or (a b : jsval) : jsval := if truthy a then a else b.

(** SameValueZero, the comparison of [Array.prototype.includes]. *)
Definition sameValueZero (a b : jsval) : bool :=
  match a, b with
  | JUndefined, JUndefined | JNull, JNull => true
  | JBool x, JBool y => Bool.eqb x y
  | JNum x, JNum y => PrimFloat.eqb x y || (PrimFloat.is_nan x && PrimFloat.is_nan y)
  | JStr x, JStr y => bool_decide (x = y)
  | _, _ => false
  end.

(** Strict equality [===]. *)
Definition strictEq (a b : jsval) : bool :=
  match a, b with
  | JUndefined, JUndefined | JNull, JNull => true
  | JBool x, JBool y => Bool.eqb x y
  | JNum x, JNum y => PrimFloat.eqb x y
  | JStr x, JStr y => bool_decide (x = y)
  | _, _ => false
  end.

Definition includes (l : list jsval) (v : jsval) : bool :=
  existsb (fun x => sameValueZero x v) l.

(** ** Strings *)

(** WhiteSpace and LineTerminator code units below 256: TAB, LF, VT, FF, CR,
    SP and NBSP. *)
Definition isWhiteSpace (c : ascii) : bool :=
  let n := N_of_ascii c in
  ((9 <=? n) && (n <=? 13) || (n =? 32) || (n =? 160))%N.

Fixpoint trimStart (s : string) : string :=
  match s with
  | EmptyString => EmptyString
  | String c s' => if isWhiteSpace c then trimStart s' else s
  end.

Fixpoint trimEnd (s : string) : string :=
  match s with
  | EmptyString => EmptyString
  | String c s' =>
      match trimEnd s' with
      | EmptyString => if isWhiteSpace c then EmptyString else String c EmptyString
      | t => String c t
      end
  end.

(** [String.prototype.trim]. *)
Definition trim (s : string) : string := trimEnd (trimStart s).

(** [String.prototype.toLowerCase] on Latin-1 code units: A-Z and the
    capital letters 0xC0-0xDE (but the multiplication sign 0xD7). *)
Definition lowerChar (c : ascii) : ascii :=
  let n := N_of_ascii c in
  if ((65 <=? n) && (n <=? 90) || (192 <=? n) && (n <=? 222) && negb (n =? 215))%N
  then ascii_of_N (n + 32) else c.

Fixpoint toLowerCase (s : string) : string :=
  match s with
  | EmptyString => EmptyString
  | String c s' => String (lowerChar c) (toLowerCase s')
  end.

(** Canonicalize of a case-insensitive, non-unicode RegExp, on the code units
    below 256: the upper-case mapping when it is a single code unit and does
    not fold a non-ASCII character into ASCII.  The micro sign and
    y-diaeresis map outside Latin-1 (U+039C, U+0178); the sharp s upper-cases
    to two code units and stays.  On these code units two characters have
    the same canonical form exactly when [toLowerCase] maps them to the same
    character.  That is a fact of Latin-1 only: U+212A KELVIN SIGN
    lower-cases to [k], and [/k/i] does not match it.  What is proved of
    matching below holds for text and patterns of code units below 256. *)
Definition canonicalize (c : ascii) : N :=
  let n := N_of_ascii c in
  if ((97 <=? n) && (n <=? 122))%N then (n - 32)%N
  else if ((224 <=? n) && (n <=? 254) && negb (n =? 247))%N then (n - 32)%N
  else if (n =? 181)%N then 924%N
  else if (n =? 255)%N then 376%N
  else n.

Fixpoint takeStr (n : nat) (s : string) : string :=
  match n, s with
  | S n', String c s' => String c (takeStr n' s')
  | _, _ => EmptyString
  end.

Fixpoint dropStr (n : nat) (s : string) : string :=
  match n, s with
  | S n', String _ s' => dropStr n' s'
  | _, _ => s
  end.

(** ** highlightText (src/utils/highlightText.jsx) *)

(** The pattern is the search term with every RegExp metacharacter escaped,
    wrapped in one capture group and compiled with the flags [gi]: it matches
    exactly the code units of the term, case-insensitively.  [matchesAt term s]
    is a sticky match of that pattern at the start of [s]. *)
Fixpoint matchesAt (term s : string) : bool :=
  match term, s with
  | EmptyString, _ => true
  | String a term', String b s' =>
      (canonicalize a =? canonicalize b)%N && matchesAt term' s'
  | String _ _, EmptyString => false
  end.

Definition isEmptyStr (s : string) : bool :=
  match s with EmptyString => true | _ => false end.

Definition inspect {A : Type} (a : A) : {b : A | a = b} := exist _ a eq_refl.

(** The loop of RegExp.prototype[Symbol.split] for that pattern.  [seg] is the
    text between the end [p] of the last match and the scan position [q];
    [rest] is the text from [q] on.  A match at [q] ends at [e = q + |term|];
    when [e = p] (an empty match right after the previous one) the scan
    advances, otherwise the segment and the captured match are pushed. *)
Equations? splitLoop (term seg rest : string) : list string
  by wf (2 * String.length rest + (if isEmptyStr seg then 0 else 1))%nat lt :=
splitLoop term seg EmptyString := [seg];
splitLoop term seg (String c rest')
  with inspect (matchesAt term (String c rest')
                && negb (isEmptyStr term && isEmptyStr seg)) := {
  | exist _ true _ =>
      seg :: takeStr (String.length term) (String c rest')
          :: splitLoop term EmptyString (dropStr (String.length term) (String c rest'))
  | exist _ false _ =>
      splitLoop term (seg +:+ String c EmptyString) rest' }.
Proof.
  - destruct term as [|a term']; simpl in *.
    + destruct seg; simpl in *; [discriminate | lia].
    + assert (String.length (dropStr (String.length term') rest') <= String.length rest')%nat.
      { clear. revert rest'. induction (String.length term') as [|n IH]; intros [|b r]; simpl; try lia.
        specialize (IH r). lia. }
      destruct seg; simpl; lia.
  - destruct seg; simpl; lia.
Qed.

(** [text.split(regex)]: an empty text gives no part when the pattern matches
    the empty string and the text itself otherwise. *)
Definition splitRegExp (term text : string) : list string :=
  match text with
  | EmptyString => if isEmptyStr term then [] else [EmptyString]
  | _ => splitLoop term EmptyString text
  end.

(** One rendered child of the fragment: its content and whether it carries the
    highlight style. *)
Record piece : Type := Piece { content : jsval; highlighted : bool }.

Definition plain (v : jsval) : piece := Piece v false.

Definition highlightText (text : jsval) (query : string) : list piece :=
  match text with
  | JStr t =>
      if negb (truthy text) then [plain text]
      else if isEmptyStr query || isEmptyStr (trim query) then [plain text]
      else
        let searchTerm := trim query in
        let parts := List.filter (fun part => negb (isEmptyStr part))
                                 (splitRegExp searchTerm t) in
        List.map (fun part =>
                    Piece (JStr part)
                          (bool_decide (toLowerCase part = toLowerCase searchTerm)))
                 parts
  | _ => [plain text]
  end.

(** The text a list of pieces displays, read left to right. *)
Fixpoint piecesText (ps : list piece) : string :=
  match ps with
  | [] => EmptyString
  | p :: ps' =>
      match content p with
      | JStr s => s +:+ piecesText ps'
      | _ => piecesText ps'
      end
  end.

(** ** Numbers and their decimal text *)

Definition isDigit (c : ascii) : bool :=
  let n := N_of_ascii c in ((48 <=? n) && (n <=? 57))%N.

Definition digitValue (c : ascii) : Z := (Z.of_N (N_of_ascii c) - 48)%Z.

(** The Number value for the mathematical value [m * 10^e] (with [0 <= m]) and
    the sign [neg]: the nearest binary64 value, ties to even; an overflow is an
    infinity. *)
Definition roundDecimal (neg : bool) (m e : Z) : float :=
  match m with
  | Zpos p =>
      SF2Prim
        (if (0 <=? e)%Z
         then binary_normalize prec emax (cond_Zopp neg (Zpos p * 10 ^ e)) 0 false
         else SFdiv prec emax (S754_finite neg p 0)
                    (S754_finite false (Z.to_pos (10 ^ (- e))) 0))
  | _ => if neg then PrimFloat.neg_zero else PrimFloat.zero
  end.

(** DecimalDigits at the start of [s]: the accumulated value, the number of
    digits read and the rest. *)
Fixpoint scanDigits (s : string) (acc : Z) (n : nat) : Z * nat * string :=
  match s with
  | String c s' =>
      if isDigit c then scanDigits s' (10 * acc + digitValue c)%Z (S n)
      else (acc, n, s)
  | EmptyString => (acc, n, s)
  end.

Definition scanSign (s : string) : bool * string :=
  match s with
  | String "+" r => (false, r)
  | String "-" r => (true, r)
  | _ => (false, s)
  end.

(** ExponentPart: [e] or [E], an optional sign and at least one digit.  When
    there is none the exponent is 0 and nothing is consumed. *)
Definition scanExponent (s : string) : Z * string :=
  match s with
  | String c s1 =>
      if bool_decide (c = "e"%char) || bool_decide (c = "E"%char) then
        let '(neg, s2) := scanSign s1 in
        let '(v, n, s3) := scanDigits s2 0 0 in
        match n with
        | O => (0%Z, s)
        | S _ => (if neg then (- v)%Z else v, s3)
        end
      else (0%Z, s)
  | EmptyString => (0%Z, s)
  end.

(** A StrDecimalLiteral read off a string: an infinity or [mant * 10^exp10]. *)
Inductive numeral : Type :=
| NumInfinity (neg : bool)
| NumDecimal (neg : bool) (mant exp10 : Z).

Definition numeralValue (n : numeral) : float :=
  match n with
  | NumInfinity neg => if neg then PrimFloat.neg_infinity else PrimFloat.infinity
  | NumDecimal neg m e => roundDecimal neg m e
  end.

(** The longest prefix of [s] that is a StrDecimalLiteral, and what follows
    it.  [DecimalDigits . DecimalDigits? ExponentPart?], [. DecimalDigits
    ExponentPart?] and [DecimalDigits ExponentPart?]: a literal needs a digit
    before its exponent. *)
Definition scanDecimalLiteral (s : string) : option (numeral * string) :=
  let '(neg, s0) := scanSign s in
  if String.prefix "Infinity" s0 then Some (NumInfinity neg, dropStr 8 s0)
  else
    let '(i, ni, r1) := scanDigits s0 0 0 in
    let '(m, nf, r2) :=
      match r1 with
      | String "." r => scanDigits r i 0
      | _ => (i, O, r1)
      end in
    match ni, nf with
    | O, O => None
    | _, _ =>
        let '(e, r3) := scanExponent r2 in
        Some (NumDecimal neg m (e - Z.of_nat nf), r3)
    end.

(** [parseFloat] on a string: leading white space is skipped, the longest
    literal prefix is read, and [NaN] is the answer when there is none. *)
Definition parseFloatStr (s : string) : float :=
  match scanDecimalLiteral (trimStart s) with
  | Some (n, _) => numeralValue n
  | None => PrimFloat.nan
  end.

(** NonDecimalIntegerLiteral: [0x], [0o] or [0b] and digits of that radix. *)
Definition radixDigit (radix : Z) (c : ascii) : option Z :=
  let n := Z.of_N (N_of_ascii c) in
  let d := if ((48 <=? n) && (n <=? 57))%Z then (n - 48)%Z
           else if ((97 <=? n) && (n <=? 102))%Z then (n - 87)%Z
           else if ((65 <=? n) && (n <=? 70))%Z then (n - 55)%Z
           else 99%Z in
  if (d <? radix)%Z then Some d else None.

Fixpoint scanRadix (radix : Z) (s : string) (acc : Z) : option Z :=
  match s with
  | EmptyString => Some acc
  | String c s' =>
      match radixDigit radix c with
      | Some d => scanRadix radix s' (radix * acc + d)%Z
      | None => None
      end
  end.

Definition nonDecimalLiteral (s : string) : option Z :=
  match s with
  | String "0" (String c (String d r)) =>
      let digits := String d r in
      if bool_decide (c = "x"%char) || bool_decide (c = "X"%char) then scanRadix 16 digits 0
      else if bool_decide (c = "o"%char) || bool_decide (c = "O"%char) then scanRadix 8 digits 0
      else if bool_decide (c = "b"%char) || bool_decide (c = "B"%char) then scanRadix 2 digits 0
      else None
  | _ => None
  end.

(** [Number(s)] on a string (StringToNumber): white space around the literal
    is dropped, the empty string is [0], the whole of what is left must be one
    literal. *)
Definition StringToNumber (s : string) : float :=
  let t := trim s in
  if isEmptyStr t then PrimFloat.zero
  else
    match scanDecimalLiteral t with
    | Some (n, EmptyString) => numeralValue n
    | _ =>
        match nonDecimalLiteral t with
        | Some z => SF2Prim (binary_normalize prec emax z 0 false)
        | None => PrimFloat.nan
        end
    end.

(** *** Number::toString, radix 10 *)

(** [k] decimal digits of [s], most significant first. *)
Fixpoint digitsOf (k : nat) (s : Z) : string :=
  match k with
  | O => EmptyString
  | S k' =>
      digitsOf k' (s / 10)%Z +:+
      String (ascii_of_N (Z.to_N (48 + s mod 10)%Z)) EmptyString
  end.

(** The number of decimal digits of a positive integer. *)
Fixpoint countDigits (fuel : nat) (z : Z) : nat :=
  match fuel with
  | O => O
  | S fuel' => if (z <=? 0)%Z then O else S (countDigits fuel' (z / 10)%Z)
  end.

Definition naturalToString (z : Z) : string :=
  if (z <=? 0)%Z then "0"
  else digitsOf (countDigits (S (Z.to_nat (Z.log2 z))) z) z.

Fixpoint zeros (n : nat) : string :=
  match n with
  | O => EmptyString
  | S n' => String "0" (zeros n')
  end.

(** The least [j] below [fuel] with [10^j * num >= den]. *)
Fixpoint leadingShift (fuel : nat) (num den : Z) (j : Z) : Z :=
  match fuel with
  | O => j
  | S fuel' =>
      if (den <=? num)%Z then j else leadingShift fuel' (10 * num)%Z den (j + 1)%Z
  end.

(** The integer [n] with [10^(n-1) <= num/den < 10^n], for [0 < num, den]. *)
Definition decimalExponent (num den : Z) : Z :=
  if (den <=? num)%Z
  then Z.of_nat (countDigits (S (Z.to_nat (Z.log2 (num / den)))) (num / den)%Z)
  else (1 - leadingShift 400 num den 0)%Z.

(** The digits search of Number::toString for the positive value [num/den]
    of the double [x], given [n0 = decimalExponent num den]: the least [k]
    for which some [s] of [k] digits has [s * 10^(n-k)] read back as [x]; of
    two such [s] the one nearer to the value, the even one on a tie.  The
    result is [(n, k, s)]. *)
Fixpoint shortestDigits (fuel : nat) (k : Z) (x : float) (num den n0 : Z)
  : Z * Z * Z :=
  match fuel with
  | O => (n0, k, 0%Z)
  | S fuel' =>
      let numer := if (n0 <=? k)%Z then (num * 10 ^ (k - n0))%Z else num in
      let denom := if (n0 <=? k)%Z then den else (den * 10 ^ (n0 - k))%Z in
      let lo := (numer / denom)%Z in
      let r := (numer mod denom)%Z in
      let hi := (lo + 1)%Z in
      let okLo := PrimFloat.eqb (roundDecimal false lo (n0 - k)) x in
      let okHi := negb (r =? 0)%Z && PrimFloat.eqb (roundDecimal false hi (n0 - k)) x in
      let pick s :=
        if (s =? 10 ^ k)%Z then ((n0 + 1)%Z, 1%Z, 1%Z) else (n0, k, s) in
      match okLo, okHi with
      | true, true =>
          if (2 * r <? denom)%Z then pick lo
          else if (denom <? 2 * r)%Z then pick hi
          else if Z.even lo then pick lo else pick hi
      | true, false => pick lo
      | false, true => pick hi
      | false, false => shortestDigits fuel' (k + 1)%Z x num den n0
      end
  end.

Definition positiveToString (x : float) (m : positive) (e : Z) : string :=
  let num := if (0 <=? e)%Z then (Zpos m * 2 ^ e)%Z else Zpos m in
  let den := if (0 <=? e)%Z then 1%Z else (2 ^ (- e))%Z in
  let '(n, k, s) := shortestDigits 17 1 x num den (decimalExponent num den) in
  let ds := digitsOf (Z.to_nat k) s in
  if ((k <=? n) && (n <=? 21))%Z then ds +:+ zeros (Z.to_nat (n - k))
  else if ((0 <? n) && (n <=? 21))%Z
  then takeStr (Z.to_nat n) ds +:+ "." +:+ dropStr (Z.to_nat n) ds
  else if ((-6 <? n) && (n <=? 0))%Z
  then "0." +:+ zeros (Z.to_nat (- n)) +:+ ds
  else
    let ex := (if (0 <=? n - 1)%Z then "+" else "-") +:+ naturalToString (Z.abs (n - 1)) in
    if (k =? 1)%Z then ds +:+ "e" +:+ ex
    else takeStr 1 ds +:+ "." +:+ dropStr 1 ds +:+ "e" +:+ ex.

Definition Number_toString (x : float) : string :=
  match Prim2SF x with
  | S754_nan => "NaN"
  | S754_zero _ => "0"
  | S754_infinity s => if s then "-Infinity" else "Infinity"
  | S754_finite s m e =>
      (if s then "-" else "") +:+ positiveToString (PrimFloat.abs x) m e
  end.

(** [String(v)] on a scalar. *)
Definition ToString (v : jsval) : string :=
  match v with
  | JUndefined => "undefined"
  | JNull => "null"
  | JBool b => if b then "true" else "false"
  | JNum x => Number_toString x
  | JStr s => s
  end.

(** [parseFloat(v)]: the argument is first converted to a string. *)
Definition parseFloat (v : jsval) : float := parseFloatStr (ToString v).

(** ** Field coercion: parseNumericValue (src/App.jsx) *)

Fixpoint filterStr (keep : ascii -> bool) (s : string) : string :=
  match s with
  | EmptyString => EmptyString
  | String c s' => if keep c then String c (filterStr keep s') else filterStr keep s'
  end.

(** The characters the pattern [/[^0-9eE.+-]/g] leaves in place. *)
Definition numericChar (c : ascii) : bool :=
  isDigit c
  || bool_decide (c = "e"%char) || bool_decide (c = "E"%char)
  || bool_decide (c = "."%char) || bool_decide (c = "+"%char)
  || bool_decide (c = "-"%char).

(** [typeof value === 'number' && Number.isFinite(value)]. *)
Definition isFiniteNumber (v : jsval) : bool :=
  match v with
  | JNum x => Number_isFinite x
  | _ => false
  end.

(** The result is a number or [null]. *)
Definition parseNumericValue (value : jsval) : jsval :=
  match value with
  | JNull | JUndefined => JNull
  | _ =>
      if isFiniteNumber value then value
      else
        let cleaned := filterStr numericChar (ToString value) in
        let parsed := StringToNumber cleaned in
        if Number_isFinite parsed then JNum parsed else JNull
  end.

(** ** GeoJSON *)

(** A coordinates member: nested arrays over scalars. *)
#[local] Unset Elimination Schemes.
Inductive coords : Type :=
| CScalar (v : jsval)
| CArray (l : list coords).
#[local] Set Elimination Schemes.

(** A geometry object with its [type] and [coordinates] members; a missing
    member is the scalar [undefined]. *)
Record geometry : Type := Geometry { gtype : jsval; coordinates : coords }.

(** A feature: [id], [geometry] and [properties]; [None] is [null] or a
    missing member. *)
Record feature : Type := Feature {
  fid : jsval;
  fgeometry : option geometry;
  fproperties : option (gmap string jsval) }.

(** A feature collection; [None] is a missing [features] member. *)
Record featureCollection : Type := FeatureCollection {
  features : option (list feature) }.

(** ** The coordinate normalizer (src/App.jsx) *)

Set Warnings "-inexact-float".

Definition Math_PI : float := 3.141592653589793%float.

(** [Array.isArray(coords)] with [typeof coords[0] === 'number'] and
    [typeof coords[1] === 'number']. *)
Definition isNumberPair (c : coords) : bool :=
  match c with
  | CArray (CScalar (JNum _) :: CScalar (JNum _) :: _) => true
  | _ => false
  end.

(** ToBoolean of a coordinates member: an array is an object, hence truthy. *)
Definition truthyCoords (c : coords) : bool :=
  match c with
  | CArray _ => true
  | CScalar v => truthy v
  end.

Section Reprojection.

(** [Math.exp] and [Math.atan] of the host. *)
Variables Math_exp Math_atan : float -> float.

Definition toWgs84Coordinate (x y : float) : float * float :=
  let originShift := 20037508.34%float in
  let lon := (x / originShift * 180)%float in
  let lat := (y / originShift * 180)%float in
  let lat := (180 / Math_PI
              * (2 * Math_atan (Math_exp (lat * Math_PI / 180)) - Math_PI / 2))%float in
  (lon, lat).

Fixpoint transformToWgs84 (c : coords) : coords :=
  match c with
  | CScalar _ => c
  | CArray l =>
      match l with
      | CScalar (JNum x) :: CScalar (JNum y) :: _ =>
          let '(lon, lat) := toWgs84Coordinate x y in
          CArray [CScalar (JNum lon); CScalar (JNum lat)]
      | _ => CArray (List.map transformToWgs84 l)
      end
  end.

(** The inner function of [walkCoordinates]: the callback threads a state. *)
Fixpoint traverse {S : Type} (callback : coords -> S -> S) (c : coords) (st : S) : S :=
  match c with
  | CScalar _ => st
  | CArray l =>
      if isNumberPair c then callback c st
      else List.fold_left (fun st' c' => traverse callback c' st') l st
  end.

Definition walkCoordinates {S : Type} (g : geometry) (callback : coords -> S -> S) (st : S) : S :=
  if negb (truthyCoords (coordinates g)) then st
  else traverse callback (coordinates g) st.

(** The callback of the detection loop: [if (!firstCoord) firstCoord = coord]. *)
Definition keepFirst (coord : coords) (firstCoord : option coords) : option coords :=
  match firstCoord with
  | None => Some coord
  | Some _ => firstCoord
  end.

(** The [for ... of] loop over the features, with its [continue] and [break]. *)
Fixpoint findFirstCoord (fs : list feature) (firstCoord : option coords) : option coords :=
  match fs with
  | [] => firstCoord
  | f :: fs' =>
      match fgeometry f with
      | None => findFirstCoord fs' firstCoord
      | Some g =>
          let firstCoord' := walkCoordinates g keepFirst firstCoord in
          match firstCoord' with
          | Some _ => firstCoord'
          | None => findFirstCoord fs' firstCoord'
          end
      end
  end.

(** [Math.abs(firstCoord[0]) > 180 || Math.abs(firstCoord[1]) > 90]. *)
Definition needsReprojection (firstCoord : coords) : bool :=
  match firstCoord with
  | CArray (CScalar (JNum c0) :: CScalar (JNum c1) :: _) =>
      (180 <? PrimFloat.abs c0)%float || (90 <? PrimFloat.abs c1)%float
  | _ => false
  end.

Definition reprojectFeature (f : feature) : feature :=
  match fgeometry f with
  | None => f
  | Some g =>
      Feature (fid f)
              (Some (Geometry (gtype g) (transformToWgs84 (coordinates g))))
              (fproperties f)
  end.

Definition reprojectFeatureCollectionIfNeeded (fc : featureCollection) : featureCollection :=
  match features fc with
  | None | Some [] => fc
  | Some fs =>
      match findFirstCoord fs None with
      | None => fc
      | Some firstCoord =>
          if negb (needsReprojection firstCoord) then fc
          else FeatureCollection (Some (List.map reprojectFeature fs))
      end
  end.

End Reprojection.

(** ** Outcomes of a computation *)

(** [Done a] is a normal completion; [Throws] is a thrown exception (a
    [TypeError], or the [RangeError] of a call with too many arguments);
    [Unmodelled] marks a run that leaves the part of JavaScript the embedding
    covers (see [inheritedName]). *)
Inductive outcome (A : Type) : Type :=
| Done (a : A)
| Throws
| Unmodelled.
Arguments Done {A} a.
Arguments Throws {A}.
Arguments Unmodelled {A}.

#[global] Instance outcome_ret : MRet outcome := fun A a => Done a.
#[global] Instance outcome_bind : MBind outcome := fun A B k o =>
  match o with
  | Done a => k a
  | Throws => Throws
  | Unmodelled => Unmodelled
  end.

(** [Array.prototype.filter] with a callback that may not complete. *)
Fixpoint filterO {A : Type} (keep : A -> outcome bool) (l : list A) : outcome (list A) :=
  match l with
  | [] => Done []
  | x :: l' =>
      b ← keep x;
      r ← filterO keep l';
      Done (if b : bool then x :: r else r)
  end.

(** [Array.prototype.map] with such a callback. *)
Fixpoint mapO {A B : Type} (f : A -> outcome B) (l : list A) : outcome (list B) :=
  match l with
  | [] => Done []
  | x :: l' =>
      y ← f x;
      r ← mapO f l';
      Done (y :: r)
  end.

(** ** Property bags *)

(** [props[key]]: a missing key reads as [undefined]. *)
Definition prop (props : gmap string jsval) (key : string) : jsval :=
  default JUndefined (props !! key).

(** [feature.properties || {}]. *)
Definition propertiesOrEmpty (f : feature) : gmap string jsval :=
  default ∅ (fproperties f).

(** [feature.properties?.[key]]. *)
Definition optProp (f : feature) (key : string) : jsval :=
  match fproperties f with
  | Some props => prop props key
  | None => JUndefined
  end.

(** [v.trim()]: only a string has the method. *)
Definition js_trim (v : jsval) : outcome jsval :=
  match v with
  | JStr s => Done (JStr (trim s))
  | _ => Throws
  end.

(** The own and inherited members of [Object.prototype].  A plain object used
    as a dictionary answers a lookup under one of these names with the
    inherited member; the embedding does not follow the computation there. *)
Definition inheritedName (key : string) : bool :=
  bool_decide (key ∈ ["constructor"; "__proto__"; "hasOwnProperty"; "isPrototypeOf";
                      "propertyIsEnumerable"; "toLocaleString"; "toString"; "valueOf";
                      "__defineGetter__"; "__defineSetter__"; "__lookupGetter__";
                      "__lookupSetter__"]).

(** ** The filter/aggregation engine (src/App.jsx) *)

(** The filter selection: the state [selectedTypes], [selectedDisasterFocus]
    and [selectedCity]. *)
Record filterSelection : Type := FilterSelection {
  selectedTypes : list jsval;
  selectedDisasterFocus : list jsval;
  selectedCity : string }.

(** The callback of [allProjectsData.features.filter] in [filteredStats]. *)
Definition filteredStats_keep (sel : filterSelection) (feature : feature) : outcome bool :=
  let props := propertiesOrEmpty feature in
  let type := js_or (js_or (prop props "Infrastruc") (prop props "Infrastructure Type"))
                    (prop props "Type") in
  let disasterFocus := js_or (prop props "Disaster_F") (prop props "Disaster Focus") in
  city ← (if truthy (js_or (prop props "NAME") (prop props "City"))
          then js_trim (js_or (prop props "NAME") (prop props "City"))
          else Done (js_or (prop props "NAME") (prop props "City")));
  let typeMatch := (length (selectedTypes sel) =? 0)%nat || includes (selectedTypes sel) type in
  let disasterMatch := (length (selectedDisasterFocus sel) =? 0)%nat
                       || includes (selectedDisasterFocus sel) disasterFocus in
  let selectedCityTrimmed :=
    if truthy (JStr (selectedCity sel)) then trim (selectedCity sel) else selectedCity sel in
  let cityMatch := negb (truthy (JStr selectedCityTrimmed))
                   || bool_decide (selectedCityTrimmed = "")
                   || strictEq city (JStr selectedCityTrimmed) in
  Done (typeMatch && disasterMatch && cityMatch).

(** The characters [cost.replace(/[$,]/g, '')] keeps. *)
Definition notDollarComma (c : ascii) : bool :=
  negb (bool_decide (c = "$"%char) || bool_decide (c = ","%char)).

(** The callback of [filteredFeatures.reduce] in [filteredStats]. *)
Definition addCost (sum : float) (feature : feature) : float :=
  let cost := js_or (optProp feature "Estimated_") (optProp feature "Estimated Project Cost") in
  if negb (truthy cost) || strictEq cost JNull || strictEq cost JUndefined then sum
  else
    let numericCost :=
      match cost with
      | JStr c => parseFloatStr (filterStr notDollarComma c)
      | _ => parseFloat cost
      end in
    if PrimFloat.is_nan numericCost || negb (Number_isFinite numericCost) then sum
    else (sum + numericCost)%float.

Record stats : Type := Stats { projectCount : nat; totalInvestment : float }.

(** [allProjectsData?.features]. *)
Definition featuresOf (allProjectsData : option featureCollection) : option (list feature) :=
  match allProjectsData with
  | Some fc => features fc
  | None => None
  end.

Definition filteredStats (allProjectsData : option featureCollection) (sel : filterSelection)
  : outcome stats :=
  match featuresOf allProjectsData with
  | None => Done (Stats 0 0%float)
  | Some fs =>
      filteredFeatures ← filterO (filteredStats_keep sel) fs;
      Done (Stats (length filteredFeatures)
                  (List.fold_left addCost filteredFeatures 0%float))
  end.

(** The callback of [allProjectsData.features.filter] in [pieChartData]. *)
Definition pieChartData_keep (sel : filterSelection) (feature : feature) : outcome bool :=
  let props := propertiesOrEmpty feature in
  let type := js_or (js_or (prop props "Infrastruc") (prop props "Infrastructure Type"))
                    (prop props "Type") in
  let disasterFocus := js_or (prop props "Disaster_F") (prop props "Disaster Focus") in
  city ← (if truthy (js_or (prop props "NAME") (prop props "City"))
          then js_trim (js_or (prop props "NAME") (prop props "City"))
          else Done (js_or (prop props "NAME") (prop props "City")));
  let typeMatch := (length (selectedTypes sel) =? 0)%nat || includes (selectedTypes sel) type in
  let disasterMatch := (length (selectedDisasterFocus sel) =? 0)%nat
                       || includes (selectedDisasterFocus sel) disasterFocus in
  let selectedCityTrimmed :=
    if truthy (JStr (selectedCity sel)) then trim (selectedCity sel) else selectedCity sel in
  let cityMatch := negb (truthy (JStr selectedCityTrimmed))
                   || bool_decide (selectedCityTrimmed = "")
                   || strictEq city (JStr selectedCityTrimmed) in
  Done (typeMatch && disasterMatch && cityMatch).

(** The type of a feature as [pieChartData] counts it, and its normalized
    name. *)
Definition countedType (feature : feature) : jsval :=
  let props := propertiesOrEmpty feature in
  js_or (js_or (js_or (prop props "Infrastruc") (prop props "Infrastructure Type"))
               (prop props "Type"))
        (JStr "Unknown").

Definition normalizeType (type : jsval) : jsval :=
  if strictEq type (JStr "Blue Infrastructure") || strictEq type (JStr "Blue") then JStr "Blue"
  else if strictEq type (JStr "Green Infrastructure") || strictEq type (JStr "Green") then JStr "Green"
  else if strictEq type (JStr "Grey Infrastructure") || strictEq type (JStr "Grey") then JStr "Grey"
  else if strictEq type (JStr "Hybrid") then JStr "Hybrid"
  else type.

(** [typeCounts]: the own properties in creation order, each with its count. *)
Fixpoint increment (key : string) (typeCounts : list (string * nat)) : list (string * nat) :=
  match typeCounts with
  | [] => [(key, 1%nat)]
  | (k, n) :: rest =>
      if bool_decide (k = key) then (k, S n) :: rest
      else (k, n) :: increment key rest
  end.

(** [typeCounts[normalizedType] = (typeCounts[normalizedType] || 0) + 1]: the
    value is converted to a property key. *)
Definition countFeature (typeCounts : list (string * nat)) (feature : feature)
  : outcome (list (string * nat)) :=
  let key := ToString (normalizeType (countedType feature)) in
  if inheritedName key then Unmodelled else Done (increment key typeCounts).

Fixpoint countFeatures (typeCounts : list (string * nat)) (fs : list feature)
  : outcome (list (string * nat)) :=
  match fs with
  | [] => Done typeCounts
  | f :: fs' =>
      typeCounts' ← countFeature typeCounts f;
      countFeatures typeCounts' fs'
  end.

(** An array index: the canonical decimal text of an integer below 2^32 - 1. *)
Fixpoint allDigits (s : string) : bool :=
  match s with
  | EmptyString => true
  | String c s' => isDigit c && allDigits s'
  end.

Definition arrayIndex (key : string) : option Z :=
  match key with
  | EmptyString => None
  | String c rest =>
      if allDigits key && (negb (bool_decide (c = "0"%char)) || isEmptyStr rest)
      then
        let '(v, _, _) := scanDigits key 0 0 in
        if (v <? 4294967295)%Z then Some v else None
      else None
  end.

Definition isArrayIndex (key : string) : bool :=
  match arrayIndex key with Some _ => true | None => false end.

Definition indexValue (key : string) : Z := default 0%Z (arrayIndex key).

Fixpoint insertByIndex (e : string * nat) (l : list (string * nat)) : list (string * nat) :=
  match l with
  | [] => [e]
  | e' :: l' =>
      if (indexValue (fst e) <=? indexValue (fst e'))%Z then e :: l
      else e' :: insertByIndex e l'
  end.

(** [Object.entries]: the array-index keys in ascending order, then the other
    keys in creation order. *)
Definition ownEntries (typeCounts : list (string * nat)) : list (string * nat) :=
  List.fold_right insertByIndex [] (List.filter (fun e => isArrayIndex (fst e)) typeCounts)
  ++ List.filter (fun e => negb (isArrayIndex (fst e))) typeCounts.

(** What [colors[name] || '#95a5a6'] evaluates to: a colour, or the member of
    [Object.prototype] the lookup finds under an inherited name (a function,
    or the prototype itself under [__proto__]); such a member is truthy, so
    the default does not replace it. *)
Inductive paletteValue : Type :=
| Colour (hex : string)
| InheritedMember (key : string).

Record slice : Type := Slice { name : string; value : nat; color : paletteValue }.

(** [colors[name] || '#95a5a6']: the five own properties of [colors], then
    the members [colors] inherits, then the default. *)
Definition colorOf (name : string) : paletteValue :=
  if bool_decide (name = "Blue") then Colour "#3498db"
  else if bool_decide (name = "Green") then Colour "#27ae60"
  else if bool_decide (name = "Grey") then Colour "#95a5a6"
  else if bool_decide (name = "Hybrid") then Colour "#9b59b6"
  else if bool_decide (name = "Unknown") then Colour "#95a5a6"
  else if inheritedName name then InheritedMember name
  else Colour "#95a5a6".

(** [Array.prototype.sort] with the comparator [(a, b) => b.value - a.value]:
    a stable sort, so a slice goes before the first one that has no greater
    count. *)
Fixpoint insertSlice (a : slice) (l : list slice) : list slice :=
  match l with
  | [] => [a]
  | b :: l' =>
      if (value b <=? value a)%nat then a :: l
      else b :: insertSlice a l'
  end.

Definition sortByCount (l : list slice) : list slice :=
  List.fold_right insertSlice [] l.

Definition pieChartData (allProjectsData : option featureCollection) (sel : filterSelection)
  : outcome (list slice) :=
  match featuresOf allProjectsData with
  | None => Done []
  | Some fs =>
      filteredFeatures ← filterO (pieChartData_keep sel) fs;
      typeCounts ← countFeatures [] filteredFeatures;
      Done (sortByCount
              (List.map (fun e => Slice (fst e) (snd e) (colorOf (fst e)))
                        (ownEntries typeCounts)))
  end.

(** A map marker: the feature attached to it and whether its element is
    displayed. *)
Record marker : Type := Marker { mfeature : option feature; displayed : bool }.

(** The body of [allMarkers.forEach] in the marker filter effect; the popup
    bookkeeping that follows a hidden marker is not part of the visible set and
    is left out. *)
Definition filterMarker (sel : filterSelection) (m : marker) : outcome marker :=
  match mfeature m with
  | None => Done m
  | Some feature =>
      let props := propertiesOrEmpty feature in
      let type := js_or (js_or (prop props "Infrastruc") (prop props "Infrastructure Type"))
                        (prop props "Type") in
      let category := prop props "Categories" in
      let disasterFocus := js_or (prop props "Disaster_F") (prop props "Disaster Focus") in
      city ← (if truthy (js_or (prop props "NAME") (prop props "City"))
              then js_trim (js_or (prop props "NAME") (prop props "City"))
              else Done (js_or (prop props "NAME") (prop props "City")));
      let typeMatch := (length (selectedTypes sel) =? 0)%nat
                       || includes (selectedTypes sel) type in
      let disasterMatch := (length (selectedDisasterFocus sel) =? 0)%nat
                           || includes (selectedDisasterFocus sel) disasterFocus in
      let selectedCityTrimmed :=
        if truthy (JStr (selectedCity sel)) then trim (selectedCity sel) else selectedCity sel in
      let cityMatch := negb (truthy (JStr selectedCityTrimmed))
                       || bool_decide (selectedCityTrimmed = "")
                       || strictEq city (JStr selectedCityTrimmed) in
      let shouldShow := typeMatch && disasterMatch && cityMatch in
      Done (Marker (mfeature m) shouldShow)
  end.

(** The marker filter effect: nothing happens without markers or a map. *)
Definition filterMarkers (mapReady : bool) (sel : filterSelection) (allMarkers : list marker)
  : outcome (list marker) :=
  if (length allMarkers =? 0)%nat || negb mapReady then Done allMarkers
  else mapO (filterMarker sel) allMarkers.

(** ** The search state (src/App.jsx) *)

Record searchState : Type := SearchState {
  searchResults : list feature;
  showSearchResults : bool;
  selectedResultIndex : Z }.

Section Search.

(** [searchProjects] of [src/utils/searchProjects.js], the ranking function
    the effect calls. *)
Variable searchProjects : string -> option featureCollection -> list feature.

(** The effect that runs when [searchQuery] or [allProjectsData] changes: it
    sets the three state variables on either path. *)
Definition searchEffect (searchQuery : string) (allProjectsData : option featureCollection)
  : searchState :=
  if negb (truthy (JStr (trim searchQuery))) then SearchState [] false (-1)
  else
    let results := searchProjects searchQuery allProjectsData in
    SearchState results true (-1).

End Search.

(** The two conditional blocks under the search bar: the results dropdown and
    the message that no project was found. *)
Definition resultsDropdownShown (st : searchState) : bool :=
  showSearchResults st && (0 <? length (searchResults st))%nat.

Definition noResultsMessageShown (searchQuery : string) (st : searchState) : bool :=
  showSearchResults st && truthy (JStr (trim searchQuery))
  && (length (searchResults st) =? 0)%nat.

(** ** Ingestion (src/App.jsx) *)

Definition riskKey : string := "T_FEMA_National_Risk_Index_$_.FEMAIndexRating".
Definition populationKey : string :=
  "T_CENSUS_Community_Resilience_Est$_.Total_population__excludes_adult_correctional_juvenile_facilitie".
Definition geoidKey : string := "L0Census_Tracts.GEOID".

(** [a ?? b]. *)
Definition nullish (a b : jsval) : jsval :=
  match a with
  | JUndefined | JNull => b
  | _ => a
  end.

(** An array position as a number. *)
Definition indexNumber (i : nat) : float :=
  SF2Prim (binary_normalize prec emax (Z.of_nat i) 0 false).

(** [pred3PEDataRef.current[geoid]]: the table maps tract identifiers to the
    numbers read from the CSV file. *)
Definition lookupPred3PE (pred3PEData : gmap string float) (geoid : jsval) : outcome jsval :=
  let key := ToString geoid in
  if inheritedName key then Unmodelled
  else Done (match pred3PEData !! key with
             | Some x => JNum x
             | None => JUndefined
             end).

(** The callback of [(reprojected.features || []).map] that builds
    [processedFeatures]. *)
Definition processFeature (pred3PEData : gmap string float) (ft : feature) (index : nat)
  : outcome feature :=
  let properties := propertiesOrEmpty ft in
  let riskRating := js_or (prop properties riskKey) JNull in
  let populationValue := parseNumericValue (prop properties populationKey) in
  let geoid := prop properties geoidKey in
  pred3PE ← (if truthy geoid then lookupPred3PE pred3PEData geoid else Done JNull);
  Done (Feature
          (nullish (nullish (fid ft) geoid) (JNum (indexNumber index)))
          (fgeometry ft)
          (Some (<["__pred3PE" :=
                     if negb (strictEq pred3PE JNull) && negb (strictEq pred3PE JUndefined)
                     then pred3PE else JNull]>
                   (<["__population" := populationValue]>
                      (<["__riskRating" := riskRating]> properties))))).

Fixpoint processFrom (pred3PEData : gmap string float) (index : nat) (fs : list feature)
  : outcome (list feature) :=
  match fs with
  | [] => Done []
  | f :: fs' =>
      f' ← processFeature pred3PEData f index;
      r ← processFrom pred3PEData (S index) fs';
      Done (f' :: r)
  end.

Definition processedFeatures (pred3PEData : gmap string float) (reprojected : featureCollection)
  : outcome (list feature) :=
  processFrom pred3PEData 0 (default [] (features reprojected)).

(** The guard of the marker loop: a [Point] whose first two coordinates are
    finite numbers. *)
Definition validPoint (feature : feature) : bool :=
  match fgeometry feature with
  | None => false
  | Some g =>
      strictEq (gtype g) (JStr "Point")
      && match coordinates g with
         | CArray (CScalar (JNum c0) :: CScalar (JNum c1) :: _) =>
             Number_isFinite c0 && Number_isFinite c1
         | _ => false
         end
  end.

(** The city normalization of the marker loop over [data.features].  The loop
    assigns into [feature.properties]; the result is the feature as the loop
    leaves it. *)
Definition normalizeCity (ft : feature) : outcome feature :=
  if negb (validPoint ft) then Done ft
  else
    match fproperties ft with
    | None => Throws
    | Some properties =>
        let cityField := js_or (prop properties "NAME") (prop properties "City") in
        if truthy cityField then
          p1 ← (if truthy (prop properties "NAME")
                then v ← js_trim (prop properties "NAME"); Done (<["NAME" := v]> properties)
                else Done properties);
          p2 ← (if truthy (prop p1 "City")
                then v ← js_trim (prop p1 "City"); Done (<["City" := v]> p1)
                else Done p1);
          Done (Feature (fid ft) (fgeometry ft) (Some p2))
        else Done ft
    end.

(** The marker loop over the project features. *)
Definition normalizeCities (fs : list feature) : outcome (list feature) :=
  mapO normalizeCity fs.

(** ** The CSV table of resilience percentages (src/App.jsx) *)

(** The loop of [parseCSVLine]: [result] holds the fields pushed so far,
    [current] the field being read and [inQuotes] whether a quote is open. *)
Fixpoint parseCSVLoop (line : string) (result : list string) (current : string)
  (inQuotes : bool) : list string :=
  match line with
  | EmptyString => result ++ [trim current]
  | String char line' =>
      if bool_decide (char = "034"%char) then parseCSVLoop line' result current (negb inQuotes)
      else if bool_decide (char = ","%char) && negb inQuotes
      then parseCSVLoop line' (result ++ [trim current]) "" inQuotes
      else parseCSVLoop line' result (current +:+ String char "") inQuotes
  end.

Definition parseCSVLine (line : string) : list string := parseCSVLoop line [] "" false.

(** [text.split('\n')]. *)
Fixpoint splitLines (text : string) (current : string) : list string :=
  match text with
  | EmptyString => [current]
  | String c text' =>
      if bool_decide (c = "010"%char) then current :: splitLines text' ""
      else splitLines text' (current +:+ String c "")
  end.

(** [headers.indexOf(name)], counted from [i]: -1 when the name is absent. *)
Fixpoint indexOfFrom (name : string) (l : list string) (i : Z) : Z :=
  match l with
  | [] => (-1)%Z
  | x :: l' => if bool_decide (x = name) then i else indexOfFrom name l' (i + 1)%Z
  end.

Definition indexOf (l : list string) (name : string) : Z := indexOfFrom name l 0.

(** [values[i]] for an integer [i]: [None] is [undefined]. *)
Definition element (values : list string) (i : Z) : option string :=
  if (i <? 0)%Z then None else values !! Z.to_nat i.

(** [s.replace(pattern, '')] for a string pattern: the first occurrence goes. *)
Fixpoint removeFirst (pattern s : string) : string :=
  match s with
  | EmptyString => EmptyString
  | String c s' =>
      if String.prefix pattern s then dropStr (String.length pattern) s
      else String c (removeFirst pattern s')
  end.

(** What the body of the loop over the data lines stores for a line, if it
    stores anything: the key [geoid] and the number [pred3PE]. *)
Definition rowEntry (geoIdIndex pred3PEIndex : Z) (line : string) : option (string * float) :=
  if negb (truthy (JStr (trim line))) then None
  else
    let values := parseCSVLine line in
    if (Z.max geoIdIndex pred3PEIndex <? Z.of_nat (length values))%Z then
      let geoId := trim <$> element values geoIdIndex in
      let pred3PE := parseFloat (match element values pred3PEIndex with
                                 | Some v => JStr (trim v)
                                 | None => JUndefined
                                 end) in
      match geoId with
      | Some g =>
          if truthy (JStr g) && negb (PrimFloat.is_nan pred3PE)
          then Some (removeFirst "1400000US" g, pred3PE)
          else None
      | None => None
      end
    else None.

(** The body of the loop: [pred3PEMap[geoid] = pred3PE]. *)
Definition addRow (geoIdIndex pred3PEIndex : Z) (pred3PEMap : gmap string float)
  (line : string) : outcome (gmap string float) :=
  match rowEntry geoIdIndex pred3PEIndex line with
  | Some (geoid, pred3PE) =>
      if inheritedName geoid then Unmodelled
      else Done (<[geoid := pred3PE]> pred3PEMap)
  | None => Done pred3PEMap
  end.

Fixpoint addRows (geoIdIndex pred3PEIndex : Z) (pred3PEMap : gmap string float)
  (lines : list string) : outcome (gmap string float) :=
  match lines with
  | [] => Done pred3PEMap
  | line :: lines' =>
      pred3PEMap' ← addRow geoIdIndex pred3PEIndex pred3PEMap line;
      addRows geoIdIndex pred3PEIndex pred3PEMap' lines'
  end.

(** The table read from the text of [FL_CRE.csv].  Without a line to take the
    headers from, [parseCSVLine(undefined)] throws. *)
Definition loadPred3PE (csvText : string) : outcome (gmap string float) :=
  let lines := List.filter (fun line => truthy (JStr (trim line))) (splitLines csvText "") in
  match lines with
  | [] => Throws
  | header :: rows =>
      let headers := parseCSVLine header in
      addRows (indexOf headers "GEO_ID") (indexOf headers "PRED3_PE") ∅ rows
  end.

(** ** The hover state of the census layers (src/App.jsx) *)

(** [hoveredCensusIdRef], [isHoveringMarkerRef], whether [map.current] is set,
    and the [hover] flag the map keeps for each feature of the source
    [census-tracts]; [Id] is the type of the feature identifiers. *)
Record hoverState (Id : Type) : Type := HoverState {
  hoveredCensusId : option Id;
  isHoveringMarker : bool;
  mapCurrent : bool;
  hover : Id -> bool }.
Arguments HoverState {Id} hoveredCensusId isHoveringMarker mapCurrent hover.
Arguments hoveredCensusId {Id} h.
Arguments isHoveringMarker {Id} h.
Arguments mapCurrent {Id} h.
Arguments hover {Id} h _.

(** [map.current.setFeatureState({ source: 'census-tracts', id }, { hover })]. *)
Definition setFeatureState {Id : Type} `{EqDecision Id} (id : Id) (flag : bool)
  (featureState : Id -> bool) : Id -> bool :=
  fun id' => if decide (id' = id) then flag else featureState id'.

(** [handleHover]: the [mousemove] handler of the two fill layers.  The event
    carries the identifier of its first feature, if it has a feature and the
    feature an identifier. *)
Definition handleHover {Id : Type} `{EqDecision Id} (featureId : option Id)
  (st : hoverState Id) : hoverState Id :=
  if negb (mapCurrent st) then st
  else if isHoveringMarker st then st
  else
    match featureId with
    | None => st
    | Some id =>
        let featureState :=
          match hoveredCensusId st with
          | Some old => setFeatureState old false (hover st)
          | None => hover st
          end in
        HoverState (Some id) (isHoveringMarker st) (mapCurrent st)
                   (setFeatureState id true featureState)
    end.

(** [handleLeave]: the [mouseleave] handler of the two fill layers. *)
Definition handleLeave {Id : Type} `{EqDecision Id} (st : hoverState Id) : hoverState Id :=
  if negb (mapCurrent st) then st
  else
    HoverState None (isHoveringMarker st) (mapCurrent st)
               (match hoveredCensusId st with
                | Some old => setFeatureState old false (hover st)
                | None => hover st
                end).

(** The [mouseenter] handler of a marker, which is also the [mouseenter] and
    the [mousemove] handler of the layer [marker-buffers]. *)
Definition markerEnter {Id : Type} `{EqDecision Id} (st : hoverState Id) : hoverState Id :=
  match hoveredCensusId st with
  | Some old =>
      if mapCurrent st
      then HoverState None true (mapCurrent st) (setFeatureState old false (hover st))
      else HoverState (Some old) true (mapCurrent st) (hover st)
  | None => HoverState None true (mapCurrent st) (hover st)
  end.

(** The [mouseleave] handler of a marker and of the layer [marker-buffers]. *)
Definition markerLeave {Id : Type} (st : hoverState Id) : hoverState Id :=
  HoverState (hoveredCensusId st) false (mapCurrent st) (hover st).

(** The part of the visibility effect that runs when the census layers are
    hidden. *)
Definition censusHidden {Id : Type} `{EqDecision Id} (st : hoverState Id) : hoverState Id :=
  if negb (mapCurrent st) then st
  else
    match hoveredCensusId st with
    | Some old => HoverState None (isHoveringMarker st) (mapCurrent st)
                             (setFeatureState old false (hover st))
    | None => st
    end.

(** What the pointer and the layer selector can do to that state. *)
Inductive pointerEvent (Id : Type) : Type :=
| TractMove (featureId : option Id)
| TractLeave
| MarkerEnter
| MarkerLeave
| CensusHidden.
Arguments TractMove {Id} featureId.
Arguments TractLeave {Id}.
Arguments MarkerEnter {Id}.
Arguments MarkerLeave {Id}.
Arguments CensusHidden {Id}.

Definition pointerStep {Id : Type} `{EqDecision Id} (st : hoverState Id)
  (ev : pointerEvent Id) : hoverState Id :=
  match ev with
  | TractMove featureId => handleHover featureId st
  | TractLeave => handleLeave st
  | MarkerEnter => markerEnter st
  | MarkerLeave => markerLeave st
  | CensusHidden => censusHidden st
  end.

(** The state when the handlers are bound: nothing hovered, nothing
    highlighted. *)
Definition hoverStart {Id : Type} (mapCurrent : bool) : hoverState Id :=
  HoverState None false mapCurrent (fun _ => false).

(** ** The search box (src/App.jsx) *)

(** The state behind the search box: [searchQuery], the three variables of
    [searchState] and [activeFeature]. *)
Record searchBox : Type := SearchBox {
  searchQuery : string;
  search : searchState;
  activeFeature : option feature }.

(** [coords.length < 2] for a coordinates member that is truthy: an array or a
    string has a length; for a number or [true] the length is [undefined] and
    the comparison is false. *)
Definition tooShort (c : coords) : bool :=
  match c with
  | CArray l => (length l <? 2)%nat
  | CScalar (JStr s) => (String.length s <? 2)%nat
  | CScalar _ => false
  end.

Inductive key : Type := ArrowDown | ArrowUp | Enter | Escape | OtherKey.

Inductive searchEvent : Type :=
| Typed (value : string)
| Focused
| Cleared
| ClickedOutside
| KeyDown (k : key)
| ResultClicked (position : nat).

Section SearchBox.

Variable searchProjects : string -> option featureCollection -> list feature.

(** [allProjectsData] and whether [map.current] is set. *)
Variable allProjectsData : option featureCollection.
Variable mapReady : bool.

(** [navigateToProject]: nothing happens without a map, a geometry or two
    coordinates; otherwise the feature becomes the active one and the search
    is closed. *)
Definition navigateToProject (ft : feature) (box : searchBox) : searchBox :=
  if negb mapReady then box
  else
    match fgeometry ft with
    | None => box
    | Some g =>
        if negb (truthyCoords (coordinates g)) || tooShort (coordinates g) then box
        else SearchBox "" (SearchState (searchResults (search box)) false (-1)) (Some ft)
    end.

(** [handleKeyDown]. *)
Definition handleKeyDown (k : key) (box : searchBox) : searchBox :=
  let st := search box in
  if negb (showSearchResults st) || (length (searchResults st) =? 0)%nat then box
  else
    match k with
    | ArrowDown =>
        let prev := selectedResultIndex st in
        SearchBox (searchQuery box)
          (SearchState (searchResults st) (showSearchResults st)
             (if (prev <? Z.of_nat (length (searchResults st)) - 1)%Z then (prev + 1)%Z else prev))
          (activeFeature box)
    | ArrowUp =>
        let prev := selectedResultIndex st in
        SearchBox (searchQuery box)
          (SearchState (searchResults st) (showSearchResults st)
             (if (0 <? prev)%Z then (prev - 1)%Z else (-1)%Z))
          (activeFeature box)
    | Enter =>
        let index := if (0 <=? selectedResultIndex st)%Z then selectedResultIndex st else 0%Z in
        match searchResults st !! Z.to_nat index with
        | Some ft => navigateToProject ft box
        | None => box
        end
    | Escape =>
        SearchBox "" (SearchState (searchResults st) false (-1)) (activeFeature box)
    | OtherKey => box
    end.

(** The handler of each event of the search box. *)
Definition searchHandler (ev : searchEvent) (box : searchBox) : searchBox :=
  let st := search box in
  match ev with
  | Typed value =>
      SearchBox value (SearchState (searchResults st) true (selectedResultIndex st))
                (activeFeature box)
  | Focused =>
      if (0 <? length (searchResults st))%nat
      then SearchBox (searchQuery box)
                     (SearchState (searchResults st) true (selectedResultIndex st))
                     (activeFeature box)
      else box
  | Cleared => SearchBox "" (SearchState [] false (-1)) (activeFeature box)
  | ClickedOutside =>
      if showSearchResults st
      then SearchBox (searchQuery box)
                     (SearchState (searchResults st) false (selectedResultIndex st))
                     (activeFeature box)
      else box
  | KeyDown k => handleKeyDown k box
  | ResultClicked position =>
      match searchResults st !! position with
      | Some ft => navigateToProject ft box
      | None => box
      end
  end.

(** An event runs its handler; when the handler has changed the query, the
    search effect runs after it. *)
Definition searchStep (box : searchBox) (ev : searchEvent) : searchBox :=
  let box' := searchHandler ev box in
  if bool_decide (searchQuery box' = searchQuery box) then box'
  else SearchBox (searchQuery box')
                 (searchEffect searchProjects (searchQuery box') allProjectsData)
                 (activeFeature box').

(** The state the component starts in. *)
Definition searchStart : searchBox := SearchBox "" (SearchState [] false (-1)) None.

End SearchBox.

(** ** Range statistics (src/App.jsx) *)

(** Whether a number is the zero of the given sign. *)
Definition isZeroOfSign (negative : bool) (x : float) : bool :=
  match Prim2SF x with
  | S754_zero s => Bool.eqb s negative
  | _ => false
  end.

(** One step of [Math.min] past its [NaN] test: the negative zero is below
    the positive one. *)
Definition minStep (lowest number : float) : float :=
  if isZeroOfSign true number && isZeroOfSign false lowest then number
  else if (number <? lowest)%float then number
  else lowest.

(** One step of [Math.max]. *)
Definition maxStep (highest number : float) : float :=
  if isZeroOfSign false number && isZeroOfSign true highest then number
  else if (highest <? number)%float then number
  else highest.

(** What [Math.min] and [Math.max] return for the arguments they are called
    with: [NaN] when an argument is [NaN], an infinity when there is no
    argument. *)
Definition minOfArguments (args : list float) : float :=
  if existsb PrimFloat.is_nan args then PrimFloat.nan
  else List.fold_left minStep args PrimFloat.infinity.

Definition maxOfArguments (args : list float) : float :=
  if existsb PrimFloat.is_nan args then PrimFloat.nan
  else List.fold_left maxStep args PrimFloat.neg_infinity.

(** [f(...values)]: the values become the arguments of one call.  ECMAScript
    sets no bound on their number, but every engine has one, since the
    arguments go on the stack: with more than [maxArguments] values the call
    throws a [RangeError].  The bound is the host's, hence a parameter. *)
Definition spreadArguments {A : Type} (maxArguments : N) (values : list A)
  : outcome (list A) :=
  if (N.of_nat (length values) <=? maxArguments)%N then Done values else Throws.

(** [Math.min(...values)] and [Math.max(...values)] on numbers. *)
Definition Math_min (maxArguments : N) (values : list float) : outcome float :=
  args ← spreadArguments maxArguments values;
  Done (minOfArguments args).

Definition Math_max (maxArguments : N) (values : list float) : outcome float :=
  args ← spreadArguments maxArguments values;
  Done (maxOfArguments args).

Record rangeStats : Type := RangeStats { rmin : jsval; rmid : jsval; rmax : jsval }.

(** ToNumber on a scalar. *)
Definition ToNumber (v : jsval) : float :=
  match v with
  | JUndefined => PrimFloat.nan
  | JNull => PrimFloat.zero
  | JBool b => if b then PrimFloat.one else PrimFloat.zero
  | JNum x => x
  | JStr s => StringToNumber s
  end.

(** [getRangeStats]: the spread arguments of [Math.min] and [Math.max] are
    converted to numbers. *)
Definition getRangeStats (maxArguments : N) (values : list jsval) : outcome rangeStats :=
  match values with
  | [] => Done (RangeStats JNull JNull JNull)
  | _ =>
      min ← Math_min maxArguments (List.map ToNumber values);
      max ← Math_max maxArguments (List.map ToNumber values);
      let mid := (min + (max - min) / 2)%float in
      Done (RangeStats (JNum min) (JNum mid) (JNum max))
  end.

(** ** The census statistics (src/App.jsx) *)

(** [feature.properties[key]]: reading a member of a missing [properties]
    throws. *)
Definition member (key : string) (ft : feature) : outcome jsval :=
  match fproperties ft with
  | Some props => Done (prop props key)
  | None => Throws
  end.

(** [value !== null && value !== undefined]. *)
Definition notNullish (value : jsval) : bool :=
  negb (strictEq value JNull) && negb (strictEq value JUndefined).

(** [[...new Set(values)]]: the values in the order of their first
    occurrence, compared by SameValueZero. *)
Fixpoint setValues (seen values : list jsval) : list jsval :=
  match values with
  | [] => seen
  | v :: values' =>
      if includes seen v then setValues seen values' else setValues (seen ++ [v]) values'
  end.

(** [statsPayload]: [risk.ratings], [risk.count], [population], [pred3PE] and
    the four members of [counts]. *)
Record censusStats : Type := CensusStats {
  ratings : list jsval;
  ratingCount : nat;
  populationStats : rangeStats;
  pred3PEStats : rangeStats;
  total : nat;
  missingRisk : nat;
  missingPopulation : nat;
  missingPred3PE : nat }.

(** The statistics computed from [processedFeatures], on a host that accepts
    [maxArguments] arguments in a call. *)
Definition statsPayload (maxArguments : N) (processedFeatures : list feature)
  : outcome censusStats :=
  risk ← mapO (member "__riskRating") processedFeatures;
  let riskRatings := List.filter notNullish risk in
  population ← mapO (member "__population") processedFeatures;
  let populationValues := List.filter isFiniteNumber population in
  pred3PE ← mapO (member "__pred3PE") processedFeatures;
  let pred3PEValues := List.filter (fun value => notNullish value && isFiniteNumber value)
                                   pred3PE in
  populationStats ← getRangeStats maxArguments populationValues;
  pred3PEStats ← getRangeStats maxArguments pred3PEValues;
  Done (CensusStats (setValues [] riskRatings) (length riskRatings)
                    populationStats pred3PEStats
                    (length processedFeatures)
                    (length processedFeatures - length riskRatings)
                    (length processedFeatures - length populationValues)
                    (length processedFeatures - length pred3PEValues)).

(** [sortedRatings]: the ratings of the legend. *)
Definition knownRatings : list string :=
  ["Very Low"; "Relatively Low"; "Relatively Moderate"; "Relatively High"; "Very High"].

Definition sortedRatings (censusStats : option censusStats) : list string :=
  let legendRatings := match censusStats with
                       | Some st => ratings st
                       | None => []
                       end in
  List.filter (fun rating => includes legendRatings (JStr rating)) knownRatings.

(** ** The values offered by the filters (src/App.jsx) *)

(** [field === 'City' || field === 'NAME']. *)
Definition isCityField (field : string) : bool :=
  bool_decide (field = "City") || bool_decide (field = "NAME").

(** The callback of [.map] in [getUniqueValues]: the value of the field on a
    feature, trimmed when it is a city. *)
Definition uniqueValue (field : string) (f : feature) : outcome jsval :=
  let value := if isCityField field
               then js_or (optProp f "NAME") (optProp f "City")
               else optProp f field in
  if isCityField field && truthy value then js_trim value else Done value.

(** [arr.indexOf(v)], counted from [i]: [None] is -1. *)
Fixpoint firstIndexFrom (v : jsval) (arr : list jsval) (i : nat) : option nat :=
  match arr with
  | [] => None
  | x :: arr' => if strictEq x v then Some i else firstIndexFrom v arr' (S i)
  end.

(** [arr.filter((v, i, arr) => arr.indexOf(v) === i)], from the position [i]
    on. *)
Fixpoint firstOccurrences (arr rest : list jsval) (i : nat) : list jsval :=
  match rest with
  | [] => []
  | v :: rest' =>
      if bool_decide (firstIndexFrom v arr 0 = Some i)
      then v :: firstOccurrences arr rest' (S i)
      else firstOccurrences arr rest' (S i)
  end.

(** [Array.prototype.sort] without a comparator: the elements are compared as
    strings, code unit by code unit; the sort is stable, so an element goes
    before the first one that is not smaller. *)
Fixpoint insertValue (a : jsval) (l : list jsval) : list jsval :=
  match l with
  | [] => [a]
  | b :: l' =>
      if String.ltb (ToString b) (ToString a) then b :: insertValue a l'
      else a :: l
  end.

Definition sortDefault (l : list jsval) : list jsval := List.fold_right insertValue [] l.

(** [getUniqueValues(field)].  The field names the component asks for are
    proper dictionary keys. *)
Definition getUniqueValues (allProjectsData : option featureCollection) (field : string)
  : outcome (list jsval) :=
  match featuresOf allProjectsData with
  | None => Done []
  | Some fs =>
      if inheritedName field then Unmodelled
      else
        values ← mapO (uniqueValue field) fs;
        let kept := List.filter (fun v => truthy v && negb (strictEq v JNull)
                                          && negb (strictEq v JUndefined)
                                          && negb (strictEq v (JStr "Null"))) values in
        Done (sortDefault (firstOccurrences kept kept 0))
  end.

(** ** Points and districts (src/App.jsx) *)

(** The test of one edge in [isPointInDistrict]: the edge from the vertex
    [(xj, yj)] to the vertex [(xi, yi)] crosses the ray from the point. *)
Definition intersect (lng lat : float) (vi vj : float * float) : bool :=
  let '(xi, yi) := vi in
  let '(xj, yj) := vj in
  negb (Bool.eqb (lat <? yi)%float (lat <? yj)%float)
  && (lng <? (xj - xi) * (lat - yi) / (yj - yi) + xi)%float.

(** The loop of [isPointInDistrict] from the position [i] on: [rest] holds the
    vertices from [i], [vj] is the vertex at [j]. *)
Fixpoint districtLoop (lng lat : float) (rest : list (float * float)) (vj : float * float)
  (inside : bool) : bool :=
  match rest with
  | [] => inside
  | vi :: rest' =>
      districtLoop lng lat rest' vi (if intersect lng lat vi vj then negb inside else inside)
  end.

(** [isPointInDistrict]: the loop starts with [j] at the last vertex; on an
    empty ring it does not run. *)
Definition isPointInDistrict (point : float * float) (districtCoords : list (float * float))
  : bool :=
  let '(lng, lat) := point in
  match last districtCoords with
  | None => false
  | Some vlast => districtLoop lng lat districtCoords vlast false
  end.

(** ** Marker colours (src/App.jsx) *)

(** [getMarkerColor]: a [switch] compares with strict equality. *)
Definition getMarkerColor (projectType : jsval) : string :=
  if strictEq projectType (JStr "Blue Infrastructure") || strictEq projectType (JStr "Blue")
  then "#3498db"
  else if strictEq projectType (JStr "Green Infrastructure")
          || strictEq projectType (JStr "Green")
  then "#27ae60"
  else if strictEq projectType (JStr "Grey Infrastructure") || strictEq projectType (JStr "Grey")
  then "#95a5a6"
  else if strictEq projectType (JStr "Hybrid") then "#9b59b6"
  else "#95a5a6".

(** The colour of the marker the marker loop creates for a feature with the
    given [properties]. *)
Definition markerColor (properties : gmap string jsval) : string :=
  getMarkerColor (js_or (js_or (prop properties "Infrastruc")
                               (prop properties "Infrastructure Type"))
                        (prop properties "Type")).

(** ** The cost shown in a popup (src/App.jsx) *)

Section CostDisplay.

(** [new Intl.NumberFormat("en-US", { notation: "compact", compactDisplay:
    "short" }).format], the formatter of the host. *)
Variable formatCompact : float -> string.

(** [formatCostCompact]: [null], or the formatted number after a dollar
    sign.  Nothing in the [try] block throws on a scalar. *)
Definition formatCostCompact (cost : jsval) : jsval :=
  if negb (truthy cost) || strictEq cost JNull || strictEq cost JUndefined then JNull
  else
    let numericCost :=
      match cost with
      | JStr c => parseFloatStr (filterStr notDollarComma c)
      | _ => parseFloat cost
      end in
    if PrimFloat.is_nan numericCost || negb (Number_isFinite numericCost) then JNull
    else JStr ("$" +:+ formatCompact numericCost).

(** The cost cell of the project popup, for the properties [props] of the
    active feature. *)
Definition costCell (props : gmap string jsval) : jsval :=
  js_or (formatCostCompact (js_or (prop props "Estimated_")
                                  (prop props "Estimated Project Cost")))
        (JStr "Not Disclosed").

End CostDisplay.

(** ** The check boxes of the filters (src/App.jsx) *)

(** The [onChange] handler of a type or focus check box: [checked] is the new
    state of the box. *)
Definition toggleValue (checked : bool) (value : jsval) (selected : list jsval) : list jsval :=
  if checked then selected ++ [value]
  else List.filter (fun t => negb (strictEq t value)) selected.

(** A click on the box of [value]: the box was drawn checked when the value
    was included, and the click inverts it. *)
Definition clickBox (value : jsval) (selected : list jsval) : list jsval :=
  toggleValue (negb (includes selected value)) value selected.

(** ** Zooming to a city (src/App.jsx) *)

(** The callback of the second [allMarkers.filter] in [zoomToCity]. *)
Definition inCity (cityName : string) (marker : marker) : outcome bool :=
  match mfeature marker with
  | None => Done false
  | Some feature =>
      let props := propertiesOrEmpty feature in
      markerCity ← (if truthy (js_or (prop props "NAME") (prop props "City"))
                    then js_trim (js_or (prop props "NAME") (prop props "City"))
                    else Done (js_or (prop props "NAME") (prop props "City")));
      let selectedCityTrimmed :=
        if truthy (JStr cityName) then trim cityName else cityName in
      Done (strictEq markerCity (JStr selectedCityTrimmed))
  end.

(** [markersToZoom]: the displayed markers when no city is selected, else the
    markers of the city. *)
Definition markersToZoom (cityName : string) (allMarkers : list marker)
  : outcome (list marker) :=
  if negb (truthy (JStr cityName)) || bool_decide (cityName = "")
  then Done (List.filter displayed allMarkers)
  else filterO (inCity cityName) allMarkers.

(** ** The census layer selector (src/App.jsx) *)

(** [activeCensusView] and [censusVisible]. *)
Record censusView : Type := CensusView { activeCensusView : string; censusVisible : bool }.

Definition handleCensusViewChange (view : string) (st : censusView) : censusView :=
  CensusView view (if bool_decide (view = "none") then false else true).

(** The [visibility] the effect gives to the two fill layers and to the
    outline layer: [true] is ['visible'], [false] is ['none']. *)
Record layerVisibility : Type := LayerVisibility {
  riskVisibility : bool;
  pred3PEVisibility : bool;
  outlineVisibility : bool }.

Definition layersOf (st : censusView) : layerVisibility :=
  LayerVisibility (censusVisible st && bool_decide (activeCensusView st = "risk"))
                  (censusVisible st && bool_decide (activeCensusView st = "pred3pe"))
                  (censusVisible st).

(** The [checked] attribute of the three radio buttons. *)
Definition noLayerChecked (st : censusView) : bool :=
  negb (censusVisible st) || bool_decide (activeCensusView st = "none").

Definition riskIndexChecked (st : censusView) : bool :=
  bool_decide (activeCensusView st = "risk") && censusVisible st.

Definition resilienceIndexChecked (st : censusView) : bool :=
  bool_decide (activeCensusView st = "pred3pe") && censusVisible st.

(** The three radio buttons, each with the value its [onChange] passes to
    [handleCensusViewChange]; the reset button passes ['risk'] too. *)
Inductive layerChoice : Type := NoLayer | RiskIndex | ResilienceIndex.

Definition choiceValue (choice : layerChoice) : string :=
  match choice with
  | NoLayer => "none"
  | RiskIndex => "risk"
  | ResilienceIndex => "pred3pe"
  end.

Definition chooseLayer (st : censusView) (choice : layerChoice) : censusView :=
  handleCensusViewChange (choiceValue choice) st.

(** The state the component starts in. *)
Definition censusViewStart : censusView := CensusView "risk" true.

(** * Notions of the specification, and sample data *)

(** ** Strings *)

(** An empty or all-white-space string. *)
Fixpoint allWhiteSpace (s : string) : bool :=
  match s with
  | EmptyString => true
  | String c s' => isWhiteSpace c && allWhiteSpace s'
  end.

(** The concatenation of a list of strings. *)
Fixpoint concatStr (l : list string) : string :=
  match l with
  | [] => EmptyString
  | s :: l' => s +:+ concatStr l'
  end.

(** ** Numeric coercion *)

(** The characters the coercion keeps, as the specification lists them:
    digits, exponent markers, the decimal point and the signs. *)
Definition coercionAlphabet : list ascii := list_ascii_of_string "0123456789eE.+-".

(** The text of a value with every other character removed. *)
Definition strippedText (value : jsval) : string :=
  filterStr (fun c => bool_decide (c ∈ coercionAlphabet)) (ToString value).

(** ** Reprojection of one coordinate *)

(** The longitude of the specification. *)
Definition specLon (x : float) : float := (x / 20037508.34 * 180)%float.

(** The latitude of the specification, on a host with the given [Math.exp]
    and [Math.atan]. *)
Definition specLat (Math_exp Math_atan : float -> float) (y : float) : float :=
  (180 / Math_PI
   * (2 * Math_atan (Math_exp (y / 20037508.34 * 180 * Math_PI / 180)) - Math_PI / 2))%float.

(** ** The coordinate normalizer *)

(** Induction on nested coordinates. *)
Fixpoint coords_nested_ind (P : coords -> Prop)
  (Hscalar : forall v, P (CScalar v))
  (Harray : forall l, Forall P l -> P (CArray l)) (c : coords) : P c :=
  match c with
  | CScalar v => Hscalar v
  | CArray l =>
      Harray l ((fix all (l : list coords) : Forall P l :=
                   match l with
                   | [] => Forall_nil_2 P
                   | c' :: l' =>
                       Forall_cons_2 P c' l' (coords_nested_ind P Hscalar Harray c') (all l')
                   end) l)
  end.

(** The first coordinate pair of a coordinates member in depth-first order:
    the first array met whose two leading elements are numbers. *)
Fixpoint firstPair (c : coords) : option coords :=
  match c with
  | CScalar _ => None
  | CArray l =>
      if isNumberPair c then Some c
      else (fix first (l : list coords) : option coords :=
              match l with
              | [] => None
              | c' :: l' =>
                  match firstPair c' with
                  | Some r => Some r
                  | None => first l'
                  end
              end) l
  end.

(** The first pair of a feature: that of its geometry, when it has one with
    a coordinates member. *)
Definition firstPairOfFeature (f : feature) : option coords :=
  match fgeometry f with
  | Some g => if truthyCoords (coordinates g) then firstPair (coordinates g) else None
  | None => None
  end.

(** The first discoverable coordinate of a collection: that of the first
    feature that has one. *)
Fixpoint firstOfFeatures (fs : list feature) : option coords :=
  match fs with
  | [] => None
  | f :: fs' =>
      match firstPairOfFeature f with
      | Some r => Some r
      | None => firstOfFeatures fs'
      end
  end.

(** The first discoverable coordinate of a collection. *)
Definition firstDiscoverable (fc : featureCollection) : option coords :=
  match features fc with
  | Some fs => firstOfFeatures fs
  | None => None
  end.

(** Longitude within [-180, 180] and latitude within [-90, 90]. *)
Definition withinBounds (c : coords) : Prop :=
  exists lon lat rest,
    c = CArray (CScalar (JNum lon) :: CScalar (JNum lat) :: rest)
    /\ (PrimFloat.abs lon <=? 180)%float = true
    /\ (PrimFloat.abs lat <=? 90)%float = true.

(** Already geographic, as far as the normalizer looks. *)
Definition alreadyGeographic (fc : featureCollection) : Prop :=
  firstDiscoverable fc = None
  \/ exists c, firstDiscoverable fc = Some c /\ withinBounds c.

(** A collection of one point feature. *)
Definition pointCollection (x y : float) : featureCollection :=
  FeatureCollection
    (Some [Feature (JNum 1)
             (Some (Geometry (JStr "Point") (CArray [CScalar (JNum x); CScalar (JNum y)])))
             None]).

(** The longitude of the first point of a collection of points. *)
Definition firstLongitude (fc : featureCollection) : option float :=
  match firstDiscoverable fc with
  | Some (CArray (CScalar (JNum lon) :: _)) => Some lon
  | _ => None
  end.

(** ** The visible set *)

(** The value of a logical field: the first key of its priority list that
    holds a truthy value, else what the last key holds. *)
Fixpoint resolveField (props : gmap string jsval) (keys : list string) : jsval :=
  match keys with
  | [] => JUndefined
  | [k] => prop props k
  | k :: ks => if truthy (prop props k) then prop props k else resolveField props ks
  end.

(** The infrastructure type, the disaster focus and the city of a feature. *)
Definition featureType (f : feature) : jsval :=
  resolveField (propertiesOrEmpty f) ["Infrastruc"; "Infrastructure Type"; "Type"].

Definition featureFocus (f : feature) : jsval :=
  resolveField (propertiesOrEmpty f) ["Disaster_F"; "Disaster Focus"].

Definition featureCity (f : feature) : jsval :=
  resolveField (propertiesOrEmpty f) ["NAME"; "City"].

(** The city of a feature is text when it is present: a number or a boolean
    there has no [trim] method. *)
Definition cityIsText (f : feature) : Prop :=
  truthy (featureCity f) = true -> isString (featureCity f) = true.

(** The predicate of the specification: each dimension is satisfied by an
    empty selection or by a match; the city is compared after trimming both
    sides, and the selection counts as empty when nothing is left of it. *)
Definition visible (sel : filterSelection) (f : feature) : bool :=
  (bool_decide (selectedTypes sel = []) || includes (selectedTypes sel) (featureType f))
  && (bool_decide (selectedDisasterFocus sel = [])
      || includes (selectedDisasterFocus sel) (featureFocus f))
  && (bool_decide (trim (selectedCity sel) = "")
      || match featureCity f with
         | JStr city => bool_decide (trim city = trim (selectedCity sel))
         | _ => false
         end).

(** The marker a feature's visibility leaves behind. *)
Definition displayVisible (sel : filterSelection) (m : marker) : marker :=
  match mfeature m with
  | Some f => Marker (Some f) (visible sel f)
  | None => m
  end.

(** The same for the feature attached to a marker. *)
Definition markerCityIsText (m : marker) : Prop :=
  forall f, mfeature m = Some f -> cityIsText f.

(** The predicate in words: a dimension holds when nothing is selected in it
    or when the feature matches one of the selected values. *)
Definition satisfies (sel : filterSelection) (f : feature) : Prop :=
  (selectedTypes sel = []
   \/ exists t, In t (selectedTypes sel) /\ sameValueZero t (featureType f) = true)
  /\ (selectedDisasterFocus sel = []
      \/ exists d, In d (selectedDisasterFocus sel) /\ sameValueZero d (featureFocus f) = true)
  /\ (trim (selectedCity sel) = ""
      \/ exists city, featureCity f = JStr city /\ trim city = trim (selectedCity sel)).

(** The same with the city selection tested for emptiness as it stands. *)
Definition satisfiesLiteral (sel : filterSelection) (f : feature) : Prop :=
  (selectedTypes sel = []
   \/ exists t, In t (selectedTypes sel) /\ sameValueZero t (featureType f) = true)
  /\ (selectedDisasterFocus sel = []
      \/ exists d, In d (selectedDisasterFocus sel) /\ sameValueZero d (featureFocus f) = true)
  /\ (selectedCity sel = ""
      \/ exists city, featureCity f = JStr city /\ trim city = trim (selectedCity sel)).

(** A project feature with the given properties. *)
Definition project (l : list (string * jsval)) : feature :=
  Feature JUndefined None (Some (list_to_map l)).

(** Three projects: two in Miami (one padded with blanks), one in Doral. *)
Definition sampleProjects : list feature :=
  [project [("Infrastruc", JStr "Blue"); ("NAME", JStr " Miami "); ("Disaster_F", JStr "Flooding")];
   project [("Infrastructure Type", JStr "Green"); ("City", JStr "Miami")];
   project [("Infrastruc", JStr "Blue"); ("NAME", JStr "Doral")]].

(** Blue or grey projects in Miami. *)
Definition sampleSelection : filterSelection :=
  FilterSelection [JStr "Blue"; JStr "Grey"] [] "Miami".

(** One marker per sample project, all on the map. *)
Definition sampleMarkers : list marker :=
  List.map (fun f => Marker (Some f) true) sampleProjects.

(** ** Project count and total investment *)

(** The cost field of a feature, under its current or its legacy key. *)
Definition costField (f : feature) : jsval :=
  match fproperties f with
  | Some props => resolveField props ["Estimated_"; "Estimated Project Cost"]
  | None => JUndefined
  end.

(** Text without its dollar signs and commas. *)
Definition withoutDollarComma (s : string) : string :=
  filterStr (fun c => negb (bool_decide (c ∈ ["$"%char; ","%char]))) s.

(** The parsed numeric cost of a feature: text is parsed once the dollar
    signs and commas are removed, a number is read as [parseFloat] reads it.
    A cost that is [null], missing, empty or zero, and one that parses to no
    finite number, gives none. *)
Definition parsedCost (f : feature) : option float :=
  let cost := costField f in
  if truthy cost then
    let x := match cost with
             | JStr c => parseFloatStr (withoutDollarComma c)
             | _ => parseFloat cost
             end in
    if Number_isFinite x then Some x else None
  else None.

(** The sum of a list of numbers, added left to right from 0. *)
Definition sumLeft (xs : list float) : float := List.fold_left PrimFloat.add xs 0%float.

(** The cost a feature contributes: its parsed cost, or zero. *)
Definition costOrZero (f : feature) : float := default 0%float (parsedCost f).

(** Equal as numbers: the same value, or two zeros (of either sign). *)
Definition sameNumber (x y : float) : Prop :=
  x = y \/ (PrimFloat.is_zero x = true /\ PrimFloat.is_zero y = true).

(** The collection of the end-to-end scenario: costs of 1,000,000 (a number),
    "$2,000,000" (text) and [null]. *)
Definition threeCosts : featureCollection :=
  FeatureCollection
    (Some [project [("Estimated_", JNum 1000000)];
           project [("Estimated_", JStr "$2,000,000")];
           project [("Estimated_", JNull)]]).

(** No filter active. *)
Definition nothingSelected : filterSelection := FilterSelection [] [] "".

(** ** The category distribution *)

(** The bucket of a feature: the canonical name of a known synonym,
    [Unknown] when the type is missing or empty, and otherwise the text of the
    type itself. *)
Definition bucket (f : feature) : string :=
  match featureType f with
  | JStr s =>
      if bool_decide (s = "") then "Unknown"
      else if bool_decide (s ∈ ["Blue Infrastructure"; "Blue"]) then "Blue"
      else if bool_decide (s ∈ ["Green Infrastructure"; "Green"]) then "Green"
      else if bool_decide (s ∈ ["Grey Infrastructure"; "Grey"]) then "Grey"
      else if bool_decide (s = "Hybrid") then "Hybrid"
      else s
  | t => if truthy t then ToString t else "Unknown"
  end.

(** The count a dictionary holds for a key. *)
Definition countOf (key : string) (typeCounts : list (string * nat)) : nat :=
  sum_list_with snd (List.filter (fun e => bool_decide (fst e = key)) typeCounts).

(** The number of features of a bucket. *)
Definition bucketSize (key : string) (fs : list feature) : nat :=
  length (List.filter (fun f => bool_decide (bucket f = key)) fs).

(** The dictionary after the counting loop, when every key is a proper
    dictionary key. *)
Definition countAll (typeCounts : list (string * nat)) (fs : list feature)
  : list (string * nat) :=
  List.fold_left (fun tc f => increment (bucket f) tc) fs typeCounts.

(** Descending order of counts. *)
Definition descending (a b : slice) : Prop := (value b <= value a)%nat.

(** The slice of a dictionary entry. *)
Definition sliceOf (e : string * nat) : slice := Slice (fst e) (snd e) (colorOf (fst e)).

(** The slices [pieChartData] makes of a dictionary. *)
Definition chart (typeCounts : list (string * nat)) : list slice :=
  sortByCount (List.map sliceOf (ownEntries typeCounts)).

(** The palette: one colour for each canonical bucket and for [Unknown]; any
    other name gets the default grey, unless it names a member of
    [Object.prototype]: then the lookup yields that member. *)
Definition paletteFixed : Prop :=
  colorOf "Blue" = Colour "#3498db" /\ colorOf "Green" = Colour "#27ae60"
  /\ colorOf "Grey" = Colour "#95a5a6" /\ colorOf "Hybrid" = Colour "#9b59b6"
  /\ colorOf "Unknown" = Colour "#95a5a6"
  /\ forall other, ~ In other ["Blue"; "Green"; "Grey"; "Hybrid"; "Unknown"] ->
                   colorOf other = if inheritedName other then InheritedMember other
                                   else Colour "#95a5a6".

(** Six projects: three blue ones, two of a type that is no known synonym
    and one without a type. *)
Definition mixedTypes : list feature :=
  [project [("Infrastruc", JStr "Blue Infrastructure"); ("NAME", JStr "Miami")];
   project [("Type", JStr "Gray Infrastructure")];
   project [("Type", JStr "Gray Infrastructure")];
   project [("NAME", JStr "Doral")];
   project [("Infrastruc", JStr "Blue")];
   project [("Infrastruc", JStr "Blue")]].

(** The claim as the specification states it: every slice is one of the four
    canonical buckets or [Unknown]. *)
Definition closedBuckets (data : option featureCollection) (sel : filterSelection) : Prop :=
  forall slices, pieChartData data sel = Done slices ->
                 forall s, In s slices ->
                           In (name s) ["Blue"; "Green"; "Grey"; "Hybrid"; "Unknown"].

(** One project of the type "Gray Infrastructure". *)
Definition grayProject : option featureCollection :=
  Some (FeatureCollection (Some [project [("Infrastruc", JStr "Gray Infrastructure")]])).

(** ** One visible set under every aggregate *)

(** The visible set of the engine: what the filter of [filteredStats] keeps,
    and nothing before the project data has arrived. *)
Definition visibleSet (data : option featureCollection) (sel : filterSelection)
  : outcome (list feature) :=
  match featuresOf data with
  | None => Done []
  | Some fs => filterO (filteredStats_keep sel) fs
  end.

(** ** Ingestion *)

(** The keys under which census ingestion stores what it derives. *)
Definition derivedKeys : list string := ["__riskRating"; "__population"; "__pred3PE"].

(** Every raw property of [before] is a property of [after], with the same
    value. *)
Definition keepsRawProperties (before after : feature) : Prop :=
  forall key v, propertiesOrEmpty before !! key = Some v ->
                propertiesOrEmpty after !! key = Some v.

(** The identifier of a tract is a proper key of the CSV table. *)
Definition geoidIsKey (ft : feature) : Prop :=
  truthy (prop (propertiesOrEmpty ft) geoidKey) = true ->
  inheritedName (ToString (prop (propertiesOrEmpty ft) geoidKey)) = false.

(** The percentage the CSV table holds for the identifier of a tract; [null]
    for a tract without identifier and for an identifier without entry. *)
Definition tablePred3PE (pred3PEData : gmap string float) (ft : feature) : jsval :=
  let geoid := prop (propertiesOrEmpty ft) geoidKey in
  if truthy geoid
  then match pred3PEData !! ToString geoid with
       | Some x => JNum x
       | None => JNull
       end
  else JNull.

(** The city fields of a project are text where they are present. *)
Definition cityFieldsText (ft : feature) : Prop :=
  forall props, fproperties ft = Some props ->
    (truthy (prop props "NAME") = true -> isString (prop props "NAME") = true)
    /\ (truthy (prop props "City") = true -> isString (prop props "City") = true).

(** The value the marker loop leaves under a city key. *)
Definition trimmedField (v : jsval) : jsval :=
  match v with
  | JStr s => JStr (trim s)
  | _ => v
  end.

(** A project at a valid point whose city name is padded with blanks. *)
Definition miamiPadded : feature :=
  Feature (JNum 7)
          (Some (Geometry (JStr "Point") (CArray [CScalar (JNum (-80.19)); CScalar (JNum 25.76)])))
          (Some (list_to_map [("NAME", JStr " Miami "); ("Infrastruc", JStr "Blue")])).

(** ** The CSV table *)

(** Whether the character occurs in the string. *)
Fixpoint hasChar (c : ascii) (s : string) : bool :=
  match s with
  | EmptyString => false
  | String d s' => bool_decide (d = c) || hasChar c s'
  end.

(** A field between quotes. *)
Definition quoted (field : string) : string :=
  String "034"%char (field +:+ String "034"%char "").

(** The fields of a line joined by commas. *)
Fixpoint joinComma (fields : list string) : string :=
  match fields with
  | [] => EmptyString
  | [f] => f
  | f :: fs => f +:+ String ","%char (joinComma fs)
  end.

(** [w] is a way to write the field [f] in a line: between quotes, or bare
    when it holds no comma. *)
Definition writes (f w : string) : Prop :=
  w = quoted f \/ (w = f /\ hasChar ","%char f = false).

(** A clean field: trimmed, and free of quote characters. *)
Definition cleanField (f : string) : Prop :=
  hasChar "034"%char f = false /\ trim f = f.

(** The lines of the text that hold more than white space: the first is the
    header line, the others are the data lines. *)
Definition nonBlankLines (csvText : string) : list string :=
  List.filter (fun line => negb (allWhiteSpace line)) (splitLines csvText "").

(** The key a line is stored under. *)
Definition rowKey (geoIdIndex pred3PEIndex : Z) (line : string) : option string :=
  fst <$> rowEntry geoIdIndex pred3PEIndex line.

(** A file of two data lines that name the same tract. *)
Definition sampleHeader : string := "GEO_ID,NAME,PRED3_PE".

Definition sampleRows : list string :=
  ["1400000US12086000107,Tract 1.07,23.5"; "1400000US12086000107,Tract 1.07,24.5"].

Definition sampleCsv : string :=
  sampleHeader +:+ String "010"%char
    ("1400000US12086000107,Tract 1.07,23.5" +:+ String "010"%char
       ("1400000US12086000107,Tract 1.07,24.5" +:+ String "010"%char "")).

(** The table read from it. *)
Definition sampleTable : gmap string float := <["12086000107" := 24.5%float]> ∅.

(** ** The hover state of the census layers *)

(** Only the hovered tract is highlighted, none is while the pointer is over
    a marker, and none is hovered without a map. *)
Definition hoverConsistent {Id : Type} (st : hoverState Id) : Prop :=
  (forall id, hover st id = true -> hoveredCensusId st = Some id)
  /\ (isHoveringMarker st = true -> hoveredCensusId st = None)
  /\ (mapCurrent st = false -> hoveredCensusId st = None).

(** ** The search box *)

(** The selected position is -1 or the position of a result. *)
Definition selectionInRange (box : searchBox) : Prop :=
  (-1 <= selectedResultIndex (search box) < Z.of_nat (length (searchResults (search box))))%Z.

(** ** Range statistics *)

(** The place of a number on the line: its class, then exponent and
    mantissa, signed. *)
Definition rank (x : spec_float) : Z * Z * Z :=
  match x with
  | S754_zero _ => (0, 0, 0)%Z
  | S754_infinity s => (if s then -2 else 2, 0, 0)%Z
  | S754_nan => (3, 0, 0)%Z
  | S754_finite s m e => if s then (-1, - e, - Zpos m)%Z else (1, e, Zpos m)%Z
  end.

Definition lexLt (a b : Z * Z * Z) : Prop :=
  (a.1.1 < b.1.1 \/ (a.1.1 = b.1.1 /\ (a.1.2 < b.1.2 \/ (a.1.2 = b.1.2 /\ a.2 < b.2))))%Z.

(** The order of two numbers, read off their ranks. *)
Definition below (x y : float) : Prop :=
  lexLt (rank (Prim2SF x)) (rank (Prim2SF y)).

Definition level (x y : float) : Prop := rank (Prim2SF x) = rank (Prim2SF y).

(** What the loop of [Math.min] has established after the numbers [seen]. *)
Definition lowestOf (seen : list float) (lowest : float) : Prop :=
  PrimFloat.is_nan lowest = false
  /\ ((seen = [] /\ lowest = PrimFloat.infinity) \/ In lowest seen)
  /\ forall v, In v seen -> below lowest v \/ level lowest v.

Definition highestOf (seen : list float) (highest : float) : Prop :=
  PrimFloat.is_nan highest = false
  /\ ((seen = [] /\ highest = PrimFloat.neg_infinity) \/ In highest seen)
  /\ forall v, In v seen -> below v highest \/ level v highest.

(** ** The census statistics *)

(** The rating and the population a raw tract carries. *)
Definition rawRating (ft : feature) : jsval := prop (propertiesOrEmpty ft) riskKey.
Definition rawPopulation (ft : feature) : jsval := prop (propertiesOrEmpty ft) populationKey.

(** The number of tracts for which [p] holds. *)
Definition tractsWith (p : feature -> bool) (fs : list feature) : nat :=
  length (List.filter p fs).

(** One tract of the census file, as the ingestion reads it. *)
Definition sampleTract : feature :=
  Feature JUndefined None
    (Some (list_to_map [(riskKey, JStr "Very High"); (populationKey, JStr "1,234");
                        (geoidKey, JStr "12086000107")])).


Definition sampleProcessed : list feature :=
  match processedFeatures sampleTable (FeatureCollection (Some [sampleTract])) with
  | Done processed => processed
  | _ => []
  end.

(** A bound on the arguments of a call. *)
Definition sampleMaxArguments : N := 65535.

Definition sampleStats : censusStats :=
  match statsPayload sampleMaxArguments sampleProcessed with
  | Done st => st
  | _ => CensusStats [] 0 (RangeStats JNull JNull JNull) (RangeStats JNull JNull JNull) 0 0 0 0
  end.

(** ** The values offered by the filters *)

(** The order of [sort()]: by the text of the values. *)
Definition textOrder (a b : jsval) : Prop := String.leb (ToString a) (ToString b) = true.

(** Equality of scalars is decidable: two numbers are equal when their
    representations are. *)
#[local] Instance spec_float_eq_dec : EqDecision spec_float.
Proof. solve_decision. Defined.

#[local] Instance float_eq_dec : EqDecision float.
Proof.
  intros x y. destruct (decide (Prim2SF x = Prim2SF y)) as [H | H].
  - left. rewrite <- (SF2Prim_Prim2SF x), <- (SF2Prim_Prim2SF y). now f_equal.
  - right. congruence.
Defined.

#[local] Instance jsval_eq_dec : EqDecision jsval.
Proof. solve_decision. Defined.

(** ** Points and districts *)

(** The edges the loop tests, each with the vertex before it, and the number
    of crossings among them, modulo two. *)
Fixpoint edgesFrom (vj : float * float) (ring : list (float * float))
  : list ((float * float) * (float * float)) :=
  match ring with
  | [] => []
  | vi :: ring' => (vi, vj) :: edgesFrom vi ring'
  end.

Definition oddCrossings (lng lat : float) (edges : list ((float * float) * (float * float)))
  : bool :=
  List.fold_right (fun e odd => xorb (intersect lng lat e.1 e.2) odd) false edges.

(** ** Marker colours *)

(** The characters of the decimal text of a number. *)
Definition numberChar (c : ascii) : bool :=
  isDigit c || bool_decide (c ∈ list_ascii_of_string ".e+-NaInfity").

Definition numberText (s : string) : Prop := forall c, hasChar c s = true -> numberChar c = true.

(** ** The check boxes of the filters *)

(** The selection with other types, and with other focuses. *)
Definition withTypes (sel : filterSelection) (types : list jsval) : filterSelection :=
  FilterSelection types (selectedDisasterFocus sel) (selectedCity sel).

Definition withFocus (sel : filterSelection) (focus : list jsval) : filterSelection :=
  FilterSelection (selectedTypes sel) focus (selectedCity sel).

(** ** The occurrences highlightText marks *)

(** The term occurs in [s] at the offset [k], ignoring case (that of
    [toLowerCase] on code units below 256). *)
Definition occursAt (term s : string) (k : nat) : Prop :=
  toLowerCase (takeStr (String.length term) (dropStr k s)) = toLowerCase term.

(** Every code unit. *)
Definition codeUnits : list ascii := List.map ascii_of_nat (seq 0 256).

(** A part of the split is a match of the pattern, or holds none. *)
Definition matchOrFree (term part : string) : Prop :=
  (matchesAt term part = true /\ String.length part = String.length term)
  \/ forall k, matchesAt term (dropStr k part) = false.

(** ** The positions of a reprojected collection *)

(** The callback that records every position [walkCoordinates] hands over. *)
Definition collect (coord : coords) (found : list coords) : list coords := found ++ [coord].

(** The positions [walkCoordinates] finds in the geometry of a feature. *)
Definition positionsOf (f : feature) : list coords :=
  match fgeometry f with
  | None => []
  | Some g => walkCoordinates g collect []
  end.

(** [toWgs84Coordinate] applied to a position. *)
Definition toWgs84Position (Math_exp Math_atan : float -> float) (c : coords) : coords :=
  match c with
  | CArray (CScalar (JNum x) :: CScalar (JNum y) :: _) =>
      let '(lon, lat) := toWgs84Coordinate Math_exp Math_atan x y in
      CArray [CScalar (JNum lon); CScalar (JNum lat)]
  | _ => c
  end.

(** A position of exactly two numbers. *)
Definition isPlainPair (c : coords) : Prop :=
  exists lon lat, c = CArray [CScalar (JNum lon); CScalar (JNum lat)].

(** What a reprojected feature keeps of the feature it comes from. *)
Definition reprojectedFrom (Math_exp Math_atan : float -> float) (f f' : feature) : Prop :=
  fid f' = fid f
  /\ fproperties f' = fproperties f
  /\ option_map gtype (fgeometry f') = option_map gtype (fgeometry f)
  /\ positionsOf f' = List.map (toWgs84Position Math_exp Math_atan) (positionsOf f)
  /\ Forall isPlainPair (positionsOf f').

(** * Properties *)

(** ** Strings *)

Lemma append_nil (t : string) : "" +:+ t = t.
Proof. reflexivity. Qed.

Lemma append_cons (c : ascii) (s t : string) : String c s +:+ t = String c (s +:+ t).
Proof. reflexivity. Qed.

Lemma append_empty_r (s : string) : s +:+ "" = s.
Proof.
  induction s as [|c s IH]; [reflexivity |].
  now rewrite append_cons, IH.
Qed.

Lemma append_assoc' (a b c : string) : (a +:+ b) +:+ c = a +:+ (b +:+ c).
Proof.
  induction a as [|x a IH]; [reflexivity |].
  now rewrite !append_cons, IH.
Qed.

Lemma takeStr_dropStr (n : nat) (s : string) : takeStr n s +:+ dropStr n s = s.
Proof.
  revert s. induction n as [|n IH]; intros [|c s]; simpl; try reflexivity.
  now rewrite append_cons, IH.
Qed.

Lemma trimStart_blank (s : string) : allWhiteSpace s = true -> trimStart s = "".
Proof.
  induction s as [|c s IH]; simpl; [reflexivity |].
  intros [Hc Hs]%andb_prop. rewrite Hc. auto.
Qed.

Lemma trimEnd_empty (s : string) : trimEnd s = "" -> allWhiteSpace s = true.
Proof.
  induction s as [|c s IH]; simpl; [reflexivity |].
  destruct (trimEnd s) eqn:E; [| discriminate].
  destruct (isWhiteSpace c); [auto | discriminate].
Qed.

Lemma trimStart_empty (s : string) : trimStart s = "" -> allWhiteSpace s = true.
Proof.
  induction s as [|c s IH]; simpl; [reflexivity |].
  destruct (isWhiteSpace c); [auto | discriminate].
Qed.

Lemma trimStart_head (s : string) (c : ascii) (t : string) :
  trimStart s = String c t -> isWhiteSpace c = false.
Proof.
  induction s as [|a s IH]; simpl; [discriminate |].
  destruct (isWhiteSpace a) eqn:E; [assumption |].
  intros [= -> _]. exact E.
Qed.

(** A query is blank for [trim] exactly when all its characters are white
    space. *)
Lemma trim_blank_iff (s : string) : trim s = "" <-> allWhiteSpace s = true.
Proof.
  unfold trim. split.
  - intros H. apply trimEnd_empty in H.
    destruct (trimStart s) as [|c t] eqn:E; [now apply trimStart_empty |].
    apply trimStart_head in E. simpl in H. rewrite E in H. discriminate.
  - intros H. now rewrite trimStart_blank.
Qed.

(** ** highlightText *)

Example highlightText_ex1 :
  highlightText (JStr "Miami Beach") "mi" =
  [Piece (JStr "Mi") true; Piece (JStr "a") false; Piece (JStr "mi") true;
   Piece (JStr " Beach") false].
Proof. vm_compute. reflexivity. Qed.

(** The parts of a split tile the text: a segment, a match, a segment, ... *)
Lemma splitLoop_concat (term seg rest : string) :
  concatStr (splitLoop term seg rest) = seg +:+ rest.
Proof.
  funelim (splitLoop term seg rest); simp splitLoop; simpl.
  - reflexivity.
  - match goal with IH : concatStr _ = _ |- _ => rewrite IH end.
    rewrite append_nil.
    now rewrite (takeStr_dropStr (String.length term) (String c rest')).
  - match goal with IH : concatStr _ = _ |- _ => rewrite IH end.
    now rewrite append_assoc'.
Qed.

Lemma splitRegExp_concat (term text : string) : concatStr (splitRegExp term text) = text.
Proof.
  destruct text as [|c t]; simpl.
  - now destruct (isEmptyStr term).
  - now rewrite splitLoop_concat.
Qed.

Lemma concatStr_nonempty (l : list string) :
  concatStr (List.filter (fun part => negb (isEmptyStr part)) l) = concatStr l.
Proof.
  induction l as [|s l IH]; simpl; [reflexivity |].
  destruct s; simpl; [assumption | now rewrite !append_cons, IH].
Qed.

Lemma piecesText_parts (mark : string -> bool) (parts : list string) :
  piecesText (List.map (fun part => Piece (JStr part) (mark part)) parts) = concatStr parts.
Proof. induction parts as [|s l IH]; simpl; [reflexivity | now rewrite IH]. Qed.

(** C10. For a string text and any query, the pieces of [highlightText] read
    in order spell the text itself; a text that is not a string, and any text
    under an empty or all-white-space query, comes back as one piece without
    highlight. *)
Theorem highlightText_pieces (query : string) :
  (forall text : string, piecesText (highlightText (JStr text) query) = text)
  /\ (forall text : jsval, isString text = false -> highlightText text query = [plain text])
  /\ (forall text : jsval, allWhiteSpace query = true -> highlightText text query = [plain text]).
Proof.
  split; [| split].
  - intros text. unfold highlightText.
    destruct (negb (truthy (JStr text))); [simpl; apply append_empty_r |].
    destruct (isEmptyStr query || isEmptyStr (trim query)); [simpl; apply append_empty_r |].
    rewrite piecesText_parts, concatStr_nonempty. apply splitRegExp_concat.
  - intros [| | b | x | s] H; try reflexivity. discriminate.
  - intros text H. apply trim_blank_iff in H.
    destruct text as [| | b | x | s]; try reflexivity.
    unfold highlightText. rewrite H. simpl. rewrite orb_true_r.
    now destruct (bool_decide (s = "")).
Qed.

Lemma highlightText_pieces_witness :
  highlightText (JNum 7) "mi" = [plain (JNum 7)]
  /\ highlightText (JStr "Miami") "  " = [plain (JStr "Miami")].
Proof.
  split.
  - apply (proj1 (proj2 (highlightText_pieces "mi"))). reflexivity.
  - apply (proj2 (proj2 (highlightText_pieces "  "))). reflexivity.
Defined.

(** ** Numeric coercion *)

Lemma numericChar_alphabet (c : ascii) : numericChar c = bool_decide (c ∈ coercionAlphabet).
Proof. destruct c as [[] [] [] [] [] [] [] []]; vm_compute; reflexivity. Qed.

Lemma filterStr_ext (p q : ascii -> bool) (s : string) :
  (forall c, p c = q c) -> filterStr p s = filterStr q s.
Proof.
  intros H. induction s as [|c s IH]; simpl; [reflexivity |].
  rewrite H, IH. reflexivity.
Qed.

(** C7. On every scalar, [parseNumericValue] answers [null] or a finite
    number (so never [NaN] and never an infinity); a finite number comes back
    as it is; any other value is turned into text, stripped of every character
    but digits, signs, the decimal point and the exponent markers, and then
    parsed.  The function is total: no input makes it throw. *)
Theorem parseNumericValue_finite_or_null (value : jsval) :
  (parseNumericValue value = JNull
   \/ exists x, parseNumericValue value = JNum x /\ Number_isFinite x = true)
  /\ (isFiniteNumber value = true -> parseNumericValue value = value)
  /\ (isFiniteNumber value = false -> value <> JNull -> value <> JUndefined ->
      parseNumericValue value =
      let parsed := StringToNumber (strippedText value) in
      if Number_isFinite parsed then JNum parsed else JNull).
Proof.
  assert (Hstrip : filterStr numericChar (ToString value) = strippedText value).
  { apply filterStr_ext, numericChar_alphabet. }
  unfold parseNumericValue. rewrite Hstrip. split; [| split].
  - destruct value as [| | b | x | s]; auto; cbn [isFiniteNumber].
    + destruct (Number_isFinite (StringToNumber _)) eqn:E; eauto.
    + destruct (Number_isFinite x) eqn:F; [right; eauto |].
      destruct (Number_isFinite (StringToNumber _)) eqn:E; eauto.
    + destruct (Number_isFinite (StringToNumber _)) eqn:E; eauto.
  - intros H. destruct value; try discriminate. now rewrite H.
  - intros H Hn Hu. destruct value; try congruence; now rewrite H.
Qed.

Lemma parseNumericValue_finite_or_null_witness :
  parseNumericValue (JNum 42) = JNum 42
  /\ parseNumericValue (JStr "$1,234.5") = JNum 1234.5.
Proof.
  split.
  - apply (proj1 (proj2 (parseNumericValue_finite_or_null (JNum 42)))). reflexivity.
  - rewrite (proj2 (proj2 (parseNumericValue_finite_or_null (JStr "$1,234.5"))));
      [vm_compute; reflexivity | reflexivity | discriminate | discriminate].
Defined.

(** What the coercion makes of text without a number, of an overflow and of
    the values that are not finite. *)
Example parseNumericValue_examples :
  List.map parseNumericValue
    [JNull; JUndefined; JNum PrimFloat.nan; JNum PrimFloat.infinity; JStr "abc";
     JStr "1e999"; JStr "12 people"; JBool true; JStr "-"; JStr "1e5"]
  = [JNull; JNull; JNum 0; JNum 0; JNum 0; JNull; JNull; JNull; JNull; JNum 100000].
Proof. vm_compute. reflexivity. Qed.

(** ** The search state *)

(** C6. An empty or all-white-space query leaves the search with no results
    and the dropdown closed, and neither the results list nor the message is
    rendered.  A query with a character that is not white space, for which
    [searchProjects] finds nothing, leaves the search with no results and the
    dropdown open, and the message that no project was found is rendered.  The
    two states differ. *)
Theorem search_idle_and_no_results
  (searchProjects : string -> option featureCollection -> list feature)
  (allProjectsData : option featureCollection) (blank query : string) :
  allWhiteSpace blank = true ->
  allWhiteSpace query = false ->
  searchProjects query allProjectsData = [] ->
  let idle := searchEffect searchProjects blank allProjectsData in
  let noResults := searchEffect searchProjects query allProjectsData in
  idle = SearchState [] false (-1)
  /\ resultsDropdownShown idle = false
  /\ noResultsMessageShown blank idle = false
  /\ noResults = SearchState [] true (-1)
  /\ resultsDropdownShown noResults = false
  /\ noResultsMessageShown query noResults = true
  /\ idle <> noResults.
Proof.
  intros Hblank Hquery Hnone idle noResults.
  assert (Hb : trim blank = "") by now apply trim_blank_iff.
  assert (Hq : truthy (JStr (trim query)) = true).
  { simpl. destruct (trim query) eqn:E; [| reflexivity].
    apply trim_blank_iff in E. congruence. }
  assert (Hidle : idle = SearchState [] false (-1)).
  { subst idle. unfold searchEffect. now rewrite Hb. }
  assert (Hno : noResults = SearchState [] true (-1)).
  { subst noResults. unfold searchEffect. now rewrite Hq, Hnone. }
  rewrite Hidle, Hno. unfold resultsDropdownShown, noResultsMessageShown. simpl.
  simpl in Hq. rewrite Hq. repeat split; try reflexivity. discriminate.
Qed.

Lemma search_idle_and_no_results_witness :
  searchEffect (fun _ _ => []) "   " None = SearchState [] false (-1)
  /\ noResultsMessageShown "zz" (searchEffect (fun _ _ => []) "zz" None) = true.
Proof.
  pose proof (search_idle_and_no_results (fun _ _ => []) None "   " "zz"
                eq_refl eq_refl eq_refl) as H.
  simpl in H. destruct H as (H1 & _ & _ & _ & _ & H6 & _).
  split; [exact H1 | exact H6].
Defined.

(** ** Reprojection of one coordinate *)

(** C5. [toWgs84Coordinate] computes [lon = x / R * 180] and
    [lat = 180 / PI * (2 atan (exp (y / R * 180 * PI / 180)) - PI / 2)] with
    [R = 20037508.34]; on a host whose [Math.exp(0)] is 1 and whose
    [Math.atan(1)] is the double nearest to a quarter of pi, the projected
    origin maps to exactly (0, 0). *)
Theorem toWgs84Coordinate_formula (Math_exp Math_atan : float -> float) :
  Math_exp 0%float = 1%float ->
  Math_atan 1%float = (Math_PI / 4)%float ->
  (forall x y, toWgs84Coordinate Math_exp Math_atan x y = (specLon x, specLat Math_exp Math_atan y))
  /\ toWgs84Coordinate Math_exp Math_atan 0 0 = (0%float, 0%float).
Proof.
  intros Hexp Hatan. split; [reflexivity |].
  unfold toWgs84Coordinate.
  replace (0 / 20037508.34 * 180 * Math_PI / 180)%float with 0%float
    by (vm_compute; reflexivity).
  rewrite Hexp, Hatan. vm_compute. reflexivity.
Qed.

Lemma toWgs84Coordinate_formula_witness :
  toWgs84Coordinate (fun _ => 1%float) (fun _ => (Math_PI / 4)%float) 0 0 = (0%float, 0%float).
Proof.
  exact (proj2 (toWgs84Coordinate_formula (fun _ => 1%float) (fun _ => (Math_PI / 4)%float)
                  eq_refl eq_refl)).
Defined.

(** ** The coordinate normalizer *)

Lemma SFcompare_antisym (x y : spec_float) :
  SFcompare y x = option_map CompOpp (SFcompare x y).
Proof.
  destruct x as [[] | [] | | [] mx ex], y as [[] | [] | | [] my ey]; simpl; try reflexivity;
    rewrite (Z.compare_antisym ex ey);
    destruct (ex ?= ey)%Z; simpl; try reflexivity;
    rewrite (Pos.compare_cont_antisym mx my Eq); reflexivity.
Qed.

(** [x <= y] excludes [y < x], also with infinities and [NaN]. *)
Lemma leb_not_ltb (x y : float) : (x <=? y)%float = true -> (y <? x)%float = false.
Proof.
  rewrite leb_spec, ltb_spec. unfold SFleb, SFltb.
  rewrite (SFcompare_antisym (Prim2SF x) (Prim2SF y)).
  now destruct (SFcompare (Prim2SF x) (Prim2SF y)) as [[]|].
Qed.

Lemma withinBounds_no_reprojection (c : coords) :
  withinBounds c -> needsReprojection c = false.
Proof.
  intros (lon & lat & rest & -> & Hlon & Hlat). simpl.
  now rewrite (leb_not_ltb _ _ Hlon), (leb_not_ltb _ _ Hlat).
Qed.

(** Once a coordinate is recorded the walk keeps it. *)
Lemma traverse_keepFirst_found (c r : coords) :
  traverse keepFirst c (Some r) = Some r.
Proof.
  induction c as [v | l IH] using coords_nested_ind; [reflexivity |].
  cbn [traverse]. destruct (isNumberPair (CArray l)); [reflexivity |].
  induction IH as [| c' l' Hc' _ IHl]; simpl; [reflexivity |].
  now rewrite Hc'.
Qed.

(** The walk with its callback finds the first pair in depth-first order. *)
Lemma traverse_keepFirst_search (c : coords) :
  traverse keepFirst c None = firstPair c.
Proof.
  induction c as [v | l IH] using coords_nested_ind; [reflexivity |].
  cbn [traverse firstPair]. destruct (isNumberPair (CArray l)); [reflexivity |].
  induction IH as [| c' l' Hc' _ IHl]; simpl; [reflexivity |].
  rewrite Hc'. destruct (firstPair c') as [r |]; [| exact IHl].
  clear. induction l' as [| c'' l'' IH]; simpl; [reflexivity |].
  now rewrite traverse_keepFirst_found.
Qed.

Lemma findFirstCoord_first (fs : list feature) :
  findFirstCoord fs None = firstOfFeatures fs.
Proof.
  induction fs as [| f fs IH]; simpl; [reflexivity |].
  unfold firstPairOfFeature. destruct (fgeometry f) as [g |]; [| exact IH].
  unfold walkCoordinates. destruct (truthyCoords (coordinates g)); simpl; [| exact IH].
  rewrite traverse_keepFirst_search.
  destruct (firstPair (coordinates g)); [reflexivity | exact IH].
Qed.

(** The normalizer leaves a collection alone when no coordinate is
    discoverable or the first one is within bounds. *)
Lemma reproject_unchanged (Math_exp Math_atan : float -> float) (fc : featureCollection) :
  alreadyGeographic fc ->
  reprojectFeatureCollectionIfNeeded Math_exp Math_atan fc = fc.
Proof.
  unfold alreadyGeographic, firstDiscoverable, reprojectFeatureCollectionIfNeeded.
  destruct (features fc) as [[| f fs] |]; try reflexivity.
  rewrite findFirstCoord_first.
  intros [-> | (c & -> & Hc)]; [reflexivity |].
  now rewrite (withinBounds_no_reprojection c Hc).
Qed.

(** C4, as amended.  A collection whose first discoverable coordinate (in
    depth-first order) has an absolute longitude of at most 180 and an
    absolute latitude of at most 90, and a collection without a discoverable
    coordinate, come back unchanged, so two runs on such a collection return
    it both times; and a second run changes nothing whenever the output of
    the first is such a collection. *)
Theorem reproject_geographic_fixed (Math_exp Math_atan : float -> float)
  (fc : featureCollection) :
  (alreadyGeographic fc ->
   reprojectFeatureCollectionIfNeeded Math_exp Math_atan fc = fc
   /\ reprojectFeatureCollectionIfNeeded Math_exp Math_atan
        (reprojectFeatureCollectionIfNeeded Math_exp Math_atan fc) = fc)
  /\ (alreadyGeographic (reprojectFeatureCollectionIfNeeded Math_exp Math_atan fc) ->
      reprojectFeatureCollectionIfNeeded Math_exp Math_atan
        (reprojectFeatureCollectionIfNeeded Math_exp Math_atan fc)
      = reprojectFeatureCollectionIfNeeded Math_exp Math_atan fc).
Proof.
  split.
  - intros H. pose proof (reproject_unchanged Math_exp Math_atan fc H) as E.
    split; [exact E | now rewrite !E].
  - apply reproject_unchanged.
Qed.

Lemma reproject_geographic_fixed_witness :
  reprojectFeatureCollectionIfNeeded (fun x => x) (fun x => x) (pointCollection (-80.19) 25.76)
  = pointCollection (-80.19) 25.76.
Proof.
  refine (proj1 (proj1 (reproject_geographic_fixed (fun x => x) (fun x => x)
                          (pointCollection (-80.19) 25.76)) _)).
  right. eexists. split; [reflexivity |].
  eexists _, _, _. split; [reflexivity |]. split; vm_compute; reflexivity.
Defined.

(** Whatever [Math.exp] and [Math.atan] compute, a second run moves the point
    (1e9, 0) again: its first run leaves a longitude of about 8983. *)
Lemma reproject_twice_differs :
  ~ exists Math_exp Math_atan : float -> float,
      reprojectFeatureCollectionIfNeeded Math_exp Math_atan
        (reprojectFeatureCollectionIfNeeded Math_exp Math_atan (pointCollection 1e9 0))
      = reprojectFeatureCollectionIfNeeded Math_exp Math_atan (pointCollection 1e9 0).
Proof.
  intros (Math_exp & Math_atan & H).
  apply (f_equal (fun fc => option_map (fun lon => PrimFloat.ltb lon 1) (firstLongitude fc))) in H.
  vm_compute in H. discriminate.
Qed.

(** ** The visible set *)

Lemma length_zero_nil {A : Type} (l : list A) :
  (length l =? 0)%nat = bool_decide (l = []).
Proof. destruct l; reflexivity. Qed.

Lemma js_or_chain (a b c : jsval) :
  js_or (js_or a b) c = if truthy a then a else if truthy b then b else c.
Proof. unfold js_or. destruct (truthy a) eqn:A; [now rewrite A | reflexivity]. Qed.

(** The city as the callbacks compute it, when it is text. *)
Lemma trimmed_city (c : jsval) :
  (truthy c = true -> isString c = true) ->
  (if truthy c then js_trim c else Done c)
  = Done (match c with JStr s => JStr (trim s) | _ => c end).
Proof.
  intros Htext. destruct (truthy c) eqn:T.
  - specialize (Htext eq_refl). destruct c; try discriminate. reflexivity.
  - destruct c as [| | b | x | s]; try reflexivity.
    simpl in T. apply negb_false_iff, bool_decide_eq_true in T. now subst s.
Qed.

(** The city test of the callbacks, against the trimmed selection [t]. *)
Lemma cityMatch_trimmed (c : jsval) (t : string) :
  negb (truthy (JStr t)) || bool_decide (t = "")
  || strictEq (match c with JStr s => JStr (trim s) | _ => c end) (JStr t)
  = bool_decide (t = "")
    || match c with JStr s => bool_decide (trim s = t) | _ => false end.
Proof.
  simpl. rewrite negb_involutive, orb_diag.
  destruct c; reflexivity.
Qed.

Lemma selectedCity_trimmed (city : string) :
  (if truthy (JStr city) then trim city else city) = trim city.
Proof. destruct city; reflexivity. Qed.

(** The callback of [filteredStats] decides the predicate of the
    specification, on a feature whose city is text. *)
Lemma filteredStats_keep_visible (sel : filterSelection) (f : feature) :
  cityIsText f -> filteredStats_keep sel f = Done (visible sel f).
Proof.
  intros Htext.
  assert (Hcity : featureCity f
                  = js_or (prop (propertiesOrEmpty f) "NAME") (prop (propertiesOrEmpty f) "City"))
    by reflexivity.
  unfold cityIsText in Htext. rewrite Hcity in Htext.
  unfold filteredStats_keep, visible, featureType, featureFocus.
  rewrite Hcity. cbn [resolveField].
  rewrite js_or_chain, selectedCity_trimmed, !length_zero_nil, (trimmed_city _ Htext).
  cbn [mbind outcome_bind]. now rewrite cityMatch_trimmed.
Qed.

Lemma pieChartData_keep_visible (sel : filterSelection) (f : feature) :
  cityIsText f -> pieChartData_keep sel f = Done (visible sel f).
Proof.
  intros Htext.
  assert (Hcity : featureCity f
                  = js_or (prop (propertiesOrEmpty f) "NAME") (prop (propertiesOrEmpty f) "City"))
    by reflexivity.
  unfold cityIsText in Htext. rewrite Hcity in Htext.
  unfold pieChartData_keep, visible, featureType, featureFocus.
  rewrite Hcity. cbn [resolveField].
  rewrite js_or_chain, selectedCity_trimmed, !length_zero_nil, (trimmed_city _ Htext).
  cbn [mbind outcome_bind]. now rewrite cityMatch_trimmed.
Qed.

Lemma filterMarker_visible (sel : filterSelection) (m : marker) :
  markerCityIsText m -> filterMarker sel m = Done (displayVisible sel m).
Proof.
  unfold markerCityIsText, filterMarker, displayVisible.
  destruct (mfeature m) as [f |]; [| reflexivity].
  intros Htext. specialize (Htext f eq_refl).
  assert (Hcity : featureCity f
                  = js_or (prop (propertiesOrEmpty f) "NAME") (prop (propertiesOrEmpty f) "City"))
    by reflexivity.
  unfold cityIsText in Htext. rewrite Hcity in Htext.
  unfold visible, featureType, featureFocus.
  rewrite Hcity. cbn [resolveField].
  rewrite js_or_chain, selectedCity_trimmed, !length_zero_nil, (trimmed_city _ Htext).
  cbn [mbind outcome_bind]. now rewrite cityMatch_trimmed.
Qed.

Lemma filterO_Done {A : Type} (keep : A -> outcome bool) (p : A -> bool) (l : list A) :
  Forall (fun x => keep x = Done (p x)) l -> filterO keep l = Done (List.filter p l).
Proof.
  induction 1 as [| x l Hx _ IH]; simpl; [reflexivity |].
  rewrite Hx. cbn [mbind outcome_bind]. rewrite IH. reflexivity.
Qed.

Lemma mapO_Done {A B : Type} (f : A -> outcome B) (g : A -> B) (l : list A) :
  Forall (fun x => f x = Done (g x)) l -> mapO f l = Done (List.map g l).
Proof.
  induction 1 as [| x l Hx _ IH]; simpl; [reflexivity |].
  rewrite Hx. cbn [mbind outcome_bind]. rewrite IH. reflexivity.
Qed.

Lemma includes_exists (l : list jsval) (v : jsval) :
  includes l v = true <-> exists t, In t l /\ sameValueZero t v = true.
Proof. unfold includes. apply existsb_exists. Qed.

Lemma visible_satisfies (sel : filterSelection) (f : feature) :
  visible sel f = true <-> satisfies sel f.
Proof.
  unfold visible, satisfies.
  rewrite !andb_true_iff, !orb_true_iff, !bool_decide_eq_true, !includes_exists.
  assert (Hc : match featureCity f with
               | JStr city => bool_decide (trim city = trim (selectedCity sel))
               | _ => false
               end = true
               <-> exists city, featureCity f = JStr city /\ trim city = trim (selectedCity sel)).
  { destruct (featureCity f) as [| | b | x | s].
    1-4: split; [discriminate | intros (? & ? & _); discriminate].
    rewrite bool_decide_eq_true. split.
    - eauto.
    - now intros (? & [= <-] & ?). }
  rewrite Hc. tauto.
Qed.

(** A selection whose city is empty or has a character that is not white
    space is empty exactly when it is empty once trimmed. *)
Lemma satisfies_literal (sel : filterSelection) (f : feature) :
  selectedCity sel = "" \/ allWhiteSpace (selectedCity sel) = false ->
  satisfies sel f <-> satisfiesLiteral sel f.
Proof.
  intros Hsel. unfold satisfies, satisfiesLiteral.
  assert (Hempty : trim (selectedCity sel) = "" <-> selectedCity sel = "").
  { split.
    - intros H. apply trim_blank_iff in H. destruct Hsel as [E | E]; [exact E | congruence].
    - intros ->. reflexivity. }
  rewrite Hempty. reflexivity.
Qed.

(** C1. On a feature set whose cities are text, the features the filter of
    [filteredStats] keeps are exactly those that satisfy: (no type selected or
    the type is a selected one) and (no focus selected or the focus is a
    selected one) and (the selected city is empty or the trimmed city equals
    the trimmed selected city); the marker effect displays exactly the
    markers of those features.  The selected city is tested for emptiness
    once trimmed, which makes no difference unless it consists of white space
    only. *)
Theorem visible_set_exact (sel : filterSelection) (fs : list feature) (allMarkers : list marker) :
  Forall cityIsText fs ->
  Forall markerCityIsText allMarkers ->
  filterO (filteredStats_keep sel) fs = Done (List.filter (visible sel) fs)
  /\ (forall f, In f (List.filter (visible sel) fs) <-> In f fs /\ satisfies sel f)
  /\ (selectedCity sel = "" \/ allWhiteSpace (selectedCity sel) = false ->
      forall f, In f (List.filter (visible sel) fs) <-> In f fs /\ satisfiesLiteral sel f)
  /\ filterMarkers true sel allMarkers = Done (List.map (displayVisible sel) allMarkers).
Proof.
  intros Hfs Hms. split; [| split; [| split]].
  - apply filterO_Done. eapply Forall_impl; [exact Hfs |].
    intros f Hf. now apply filteredStats_keep_visible.
  - intros f. rewrite filter_In, visible_satisfies. reflexivity.
  - intros Hsel f. rewrite filter_In, visible_satisfies, (satisfies_literal sel f Hsel).
    reflexivity.
  - unfold filterMarkers. destruct allMarkers as [| m ms]; [reflexivity |].
    cbn [length Nat.eqb negb orb]. apply mapO_Done.
    eapply Forall_impl; [exact Hms |].
    intros m' Hm'. now apply filterMarker_visible.
Qed.

Lemma sampleProjects_text : Forall cityIsText sampleProjects.
Proof. repeat constructor; unfold cityIsText; vm_compute; reflexivity. Qed.

Lemma visible_set_exact_witness :
  filterO (filteredStats_keep sampleSelection) sampleProjects
  = Done (List.filter (visible sampleSelection) sampleProjects)
  /\ filterMarkers true sampleSelection sampleMarkers
     = Done (List.map (displayVisible sampleSelection) sampleMarkers).
Proof.
  assert (Hfs : Forall cityIsText sampleProjects)
    by (repeat constructor; unfold cityIsText; vm_compute; reflexivity).
  assert (Hms : Forall markerCityIsText sampleMarkers).
  { unfold sampleMarkers, sampleProjects.
    repeat (apply Forall_cons_2; [intros f [= <-]; vm_compute; reflexivity |]).
    apply Forall_nil_2. }
  destruct (visible_set_exact sampleSelection sampleProjects sampleMarkers Hfs Hms)
    as (Hkeep & _ & _ & Hshow).
  split; assumption.
Defined.

Example visible_set_sample :
  List.filter (visible sampleSelection) sampleProjects
  = [project [("Infrastruc", JStr "Blue"); ("NAME", JStr " Miami "); ("Disaster_F", JStr "Flooding")]].
Proof. vm_compute. reflexivity. Qed.

(** ** Project count and total investment *)

Lemma notDollarComma_spec (c : ascii) :
  notDollarComma c = negb (bool_decide (c ∈ ["$"%char; ","%char])).
Proof. destruct c as [[] [] [] [] [] [] [] []]; vm_compute; reflexivity. Qed.

Lemma truthy_not_nullish (v : jsval) :
  truthy v = true -> strictEq v JNull = false /\ strictEq v JUndefined = false.
Proof. destruct v; simpl; intros; try discriminate; auto. Qed.

Lemma not_finite_nan (x : float) :
  PrimFloat.is_nan x || negb (Number_isFinite x) = negb (Number_isFinite x).
Proof. unfold Number_isFinite. now destruct (PrimFloat.is_nan x). Qed.

(** One step of the reduction: a feature with a parsed cost adds it, any
    other leaves the sum as it is. *)
Lemma addCost_parsedCost (sum : float) (f : feature) :
  addCost sum f = match parsedCost f with
                  | Some x => (sum + x)%float
                  | None => sum
                  end.
Proof.
  unfold addCost, parsedCost.
  assert (Hcost : js_or (optProp f "Estimated_") (optProp f "Estimated Project Cost")
                  = costField f).
  { unfold optProp, costField. destruct (fproperties f); reflexivity. }
  rewrite Hcost. destruct (truthy (costField f)) eqn:T; [| reflexivity].
  destruct (truthy_not_nullish _ T) as [-> ->]. cbn [negb orb].
  rewrite not_finite_nan.
  assert (Hx : match costField f with
               | JStr c => parseFloatStr (filterStr notDollarComma c)
               | _ => parseFloat (costField f)
               end
               = match costField f with
                 | JStr c => parseFloatStr (withoutDollarComma c)
                 | _ => parseFloat (costField f)
                 end).
  { destruct (costField f); try reflexivity.
    unfold withoutDollarComma. f_equal. apply filterStr_ext, notDollarComma_spec. }
  rewrite Hx. now destruct (Number_isFinite _).
Qed.

Lemma fold_addCost (fs : list feature) (sum : float) :
  List.fold_left addCost fs sum = List.fold_left PrimFloat.add (omap parsedCost fs) sum.
Proof.
  revert sum. induction fs as [| f fs IH]; intros sum; [reflexivity |].
  cbn [List.fold_left omap list_omap]. rewrite addCost_parsedCost.
  destruct (parsedCost f) as [x |]; simpl; apply IH.
Qed.

Lemma Prim2SF_zero : Prim2SF 0%float = S754_zero false.
Proof. reflexivity. Qed.

Lemma is_zero_spec (x : float) :
  PrimFloat.is_zero x = true <-> exists s, Prim2SF x = S754_zero s.
Proof.
  unfold PrimFloat.is_zero, PrimFloat.zero. rewrite FloatAxioms.eqb_spec, Prim2SF_zero.
  unfold SFeqb.
  destruct (Prim2SF x) as [s | [] | | [] m e]; simpl; split;
    try discriminate; try (intros [? H]; discriminate H); eauto.
Qed.

(** Adding zero changes at most the sign of a zero. *)
Lemma add_zero_same (s : float) : sameNumber s (s + 0)%float.
Proof.
  destruct (Prim2SF s) as [b | b | | b m e] eqn:E.
  - right. split; apply is_zero_spec.
    + eauto.
    + rewrite add_spec, E, Prim2SF_zero. destruct b; simpl; eauto.
  - left. apply Prim2SF_inj. rewrite add_spec, E, Prim2SF_zero. reflexivity.
  - left. apply Prim2SF_inj. rewrite add_spec, E, Prim2SF_zero. reflexivity.
  - left. apply Prim2SF_inj. rewrite add_spec, E, Prim2SF_zero. reflexivity.
Qed.

Lemma add_same (s1 s2 b : float) :
  sameNumber s1 s2 -> sameNumber (s1 + b)%float (s2 + b)%float.
Proof.
  intros [-> | [[a1 H1]%is_zero_spec [a2 H2]%is_zero_spec]]; [now left |].
  destruct (Prim2SF b) as [c | c | | c m e] eqn:E.
  - right. split; apply is_zero_spec; rewrite add_spec, ?H1, ?H2, E;
      [destruct a1, c | destruct a2, c]; simpl; eauto.
  - left. apply Prim2SF_inj. rewrite !add_spec, H1, H2, E. reflexivity.
  - left. apply Prim2SF_inj. rewrite !add_spec, H1, H2, E. reflexivity.
  - left. apply Prim2SF_inj. rewrite !add_spec, H1, H2, E. reflexivity.
Qed.

Lemma sameNumber_trans (x y z : float) :
  sameNumber x y -> sameNumber y z -> sameNumber x z.
Proof. unfold sameNumber. intros [-> | [? ?]] [-> | [? ?]]; auto. Qed.

(** Leaving out the features without a parsed cost, or adding zero for each
    of them, gives the same total. *)
Lemma fold_zero_contribution (fs : list feature) (s1 s2 : float) :
  sameNumber s1 s2 ->
  sameNumber (List.fold_left PrimFloat.add (omap parsedCost fs) s1)
             (List.fold_left PrimFloat.add (List.map costOrZero fs) s2).
Proof.
  revert s1 s2. induction fs as [| f fs IH]; intros s1 s2 H; [exact H |].
  cbn [omap list_omap List.map List.fold_left].
  assert (Hf : costOrZero f = default 0%float (parsedCost f)) by reflexivity.
  destruct (parsedCost f) as [x |]; cbn in Hf; rewrite Hf; cbn [List.fold_left].
  - apply IH. now apply add_same.
  - apply IH. eapply sameNumber_trans; [exact H | apply add_zero_same].
Qed.

(** C2. On a feature set whose cities are text, the project count is the
    size of the visible set and the total investment is the sum, over the
    visible features in order, of their parsed costs, text being parsed once
    its dollar signs and commas are removed; a feature whose cost is [null],
    missing or not parseable adds zero to that sum and is counted all the
    same.  With costs of 1,000,000, "$2,000,000" and [null] and nothing
    selected, the count is 3 and the total exactly 3,000,000. *)
Theorem filteredStats_count_and_total (sel : filterSelection) (fs : list feature) :
  Forall cityIsText fs ->
  filteredStats (Some (FeatureCollection (Some fs))) sel
  = Done (Stats (length (List.filter (visible sel) fs))
                (sumLeft (omap parsedCost (List.filter (visible sel) fs))))
  /\ sameNumber (sumLeft (omap parsedCost (List.filter (visible sel) fs)))
                (sumLeft (List.map costOrZero (List.filter (visible sel) fs)))
  /\ filteredStats (Some threeCosts) nothingSelected = Done (Stats 3 3000000).
Proof.
  intros Hfs. split; [| split; [| vm_compute; reflexivity]].
  - unfold filteredStats. cbn [featuresOf features].
    rewrite (filterO_Done _ (visible sel)).
    + cbn [mbind outcome_bind]. now rewrite fold_addCost.
    + eapply Forall_impl; [exact Hfs |].
      intros f Hf. now apply filteredStats_keep_visible.
  - apply fold_zero_contribution. now left.
Qed.

Lemma filteredStats_count_and_total_witness :
  filteredStats (Some (FeatureCollection (Some sampleProjects))) sampleSelection
  = Done (Stats (length (List.filter (visible sampleSelection) sampleProjects))
                (sumLeft (omap parsedCost (List.filter (visible sampleSelection) sampleProjects)))).
Proof.
  exact (proj1 (filteredStats_count_and_total sampleSelection sampleProjects
                  sampleProjects_text)).
Defined.

(** ** The category distribution *)

Lemma countedType_featureType (f : feature) :
  countedType f = if truthy (featureType f) then featureType f else JStr "Unknown".
Proof.
  unfold countedType, featureType. cbn [resolveField]. rewrite <- js_or_chain.
  reflexivity.
Qed.

Lemma normalizeType_text (s : string) :
  normalizeType (JStr s) =
  JStr (if bool_decide (s ∈ ["Blue Infrastructure"; "Blue"]) then "Blue"
        else if bool_decide (s ∈ ["Green Infrastructure"; "Green"]) then "Green"
        else if bool_decide (s ∈ ["Grey Infrastructure"; "Grey"]) then "Grey"
        else if bool_decide (s = "Hybrid") then "Hybrid"
        else s).
Proof.
  unfold normalizeType. cbn [strictEq].
  assert (H2 : forall a b : string,
             bool_decide (s ∈ [a; b]) = bool_decide (s = a) || bool_decide (s = b)).
  { intros a b. apply eq_true_iff_eq.
    rewrite orb_true_iff, !bool_decide_eq_true, !elem_of_cons, elem_of_nil. tauto. }
  rewrite !H2.
  repeat match goal with
         | |- context [bool_decide (s = ?a)] => destruct (bool_decide (s = a)); cbn [orb]
         end; reflexivity.
Qed.

(** The key under which [pieChartData] counts a feature is its bucket. *)
Lemma bucket_key (f : feature) : ToString (normalizeType (countedType f)) = bucket f.
Proof.
  rewrite countedType_featureType. unfold bucket.
  destruct (featureType f) as [| | b | x | s] eqn:E; cbn [truthy].
  - reflexivity.
  - reflexivity.
  - destruct b; reflexivity.
  - destruct (negb _); reflexivity.
  - destruct (bool_decide (s = "")) eqn:Es; cbn [negb].
    + reflexivity.
    + now rewrite normalizeType_text.
Qed.

Lemma increment_countOf (key key' : string) (tc : list (string * nat)) :
  countOf key' (increment key tc)
  = ((if bool_decide (key = key') then 1 else 0) + countOf key' tc)%nat.
Proof.
  unfold countOf. induction tc as [| [k n] tc IH]; cbn [increment].
  - cbn [List.filter fst]. destruct (bool_decide (key = key')); reflexivity.
  - destruct (bool_decide (k = key)) eqn:E.
    + apply bool_decide_eq_true in E. subst k.
      cbn [List.filter fst]. destruct (bool_decide (key = key')); cbn; lia.
    + cbn [List.filter fst]. destruct (bool_decide (k = key')); cbn in *; lia.
Qed.

Lemma increment_total (key : string) (tc : list (string * nat)) :
  sum_list_with snd (increment key tc) = S (sum_list_with snd tc).
Proof.
  induction tc as [| [k n] tc IH]; cbn [increment]; [reflexivity |].
  destruct (bool_decide (k = key)); cbn in *; lia.
Qed.

Lemma increment_keys (key : string) (tc : list (string * nat)) :
  List.map fst (increment key tc)
  = if bool_decide (key ∈ List.map fst tc) then List.map fst tc
    else List.map fst tc ++ [key].
Proof.
  induction tc as [| [k n] tc IH]; cbn [increment List.map fst]; [reflexivity |].
  destruct (bool_decide (k = key)) eqn:E.
  - apply bool_decide_eq_true in E. subst k.
    rewrite bool_decide_eq_true_2 by apply list_elem_of_here. reflexivity.
  - apply bool_decide_eq_false in E. cbn [List.map fst]. rewrite IH.
    destruct (bool_decide (key ∈ List.map fst tc)) eqn:M.
    + apply bool_decide_eq_true in M.
      rewrite bool_decide_eq_true_2 by now apply list_elem_of_further. reflexivity.
    + apply bool_decide_eq_false in M.
      rewrite bool_decide_eq_false_2; [reflexivity |].
      rewrite elem_of_cons. intros [-> | H]; [now apply E | now apply M].
Qed.

Lemma increment_NoDup (key : string) (tc : list (string * nat)) :
  NoDup (List.map fst tc) -> NoDup (List.map fst (increment key tc)).
Proof.
  intros H. rewrite increment_keys.
  destruct (bool_decide (key ∈ List.map fst tc)) eqn:M; [exact H |].
  apply bool_decide_eq_false in M.
  apply NoDup_app. split; [exact H |]. split.
  - intros x Hx. rewrite list_elem_of_singleton. now intros ->.
  - apply NoDup_singleton.
Qed.

Lemma increment_positive (key : string) (tc : list (string * nat)) :
  Forall (fun e => 0 < snd e)%nat tc -> Forall (fun e => 0 < snd e)%nat (increment key tc).
Proof.
  induction 1 as [| [k n] tc Hn Htc IH]; cbn [increment].
  - repeat constructor.
  - destruct (bool_decide (k = key)); constructor; cbn in *; auto; lia.
Qed.

Lemma countFeatures_inv (fs : list feature) (tc tc' : list (string * nat)) :
  countFeatures tc fs = Done tc' ->
  tc' = countAll tc fs /\ Forall (fun f => inheritedName (bucket f) = false) fs.
Proof.
  revert tc. induction fs as [| f fs IH]; intros tc; cbn [countFeatures countAll List.fold_left].
  - intros [= <-]. auto.
  - unfold countFeature. rewrite bucket_key.
    destruct (inheritedName (bucket f)) eqn:E; [discriminate |].
    cbn [mbind outcome_bind]. intros H. apply IH in H as [-> H]. auto.
Qed.

Lemma countFeatures_Done (fs : list feature) (tc : list (string * nat)) :
  Forall (fun f => inheritedName (bucket f) = false) fs ->
  countFeatures tc fs = Done (countAll tc fs).
Proof.
  intros H. revert tc. induction H as [| f fs Hf _ IH]; intros tc; [reflexivity |].
  cbn [countFeatures countAll List.fold_left]. unfold countFeature.
  rewrite bucket_key, Hf. cbn [mbind outcome_bind]. apply IH.
Qed.

Lemma countAll_countOf (key : string) (fs : list feature) (tc : list (string * nat)) :
  countOf key (countAll tc fs) = (countOf key tc + bucketSize key fs)%nat.
Proof.
  unfold bucketSize. revert tc.
  induction fs as [| f fs IH]; intros tc; cbn [countAll List.fold_left List.filter].
  - cbn. lia.
  - fold (countAll (increment (bucket f) tc) fs). rewrite IH, increment_countOf.
    destruct (bool_decide (bucket f = key)); cbn [length]; lia.
Qed.

Lemma countAll_total (fs : list feature) (tc : list (string * nat)) :
  sum_list_with snd (countAll tc fs) = (sum_list_with snd tc + length fs)%nat.
Proof.
  revert tc. induction fs as [| f fs IH]; intros tc; cbn [countAll List.fold_left length].
  - lia.
  - fold (countAll (increment (bucket f) tc) fs). rewrite IH, increment_total. lia.
Qed.

Lemma countAll_NoDup (fs : list feature) (tc : list (string * nat)) :
  NoDup (List.map fst tc) -> NoDup (List.map fst (countAll tc fs)).
Proof.
  revert tc. induction fs as [| f fs IH]; intros tc H; [exact H |].
  cbn [countAll List.fold_left]. apply IH. now apply increment_NoDup.
Qed.

Lemma countAll_positive (fs : list feature) (tc : list (string * nat)) :
  Forall (fun e => 0 < snd e)%nat tc -> Forall (fun e => 0 < snd e)%nat (countAll tc fs).
Proof.
  revert tc. induction fs as [| f fs IH]; intros tc H; [exact H |].
  cbn [countAll List.fold_left]. apply IH. now apply increment_positive.
Qed.

(** With distinct keys, the count of a key is what its entry holds. *)
Lemma countOf_entry (tc : list (string * nat)) (k : string) (n : nat) :
  NoDup (List.map fst tc) -> (k, n) ∈ tc -> countOf k tc = n.
Proof.
  unfold countOf. induction tc as [| [k' n'] tc IH]; cbn [List.map fst].
  - intros _ H. now apply elem_of_nil in H.
  - rewrite NoDup_cons, elem_of_cons. intros [Hk' Hnd] [[= <- <-] | Hin].
    + cbn [List.filter fst]. rewrite bool_decide_eq_true_2 by reflexivity.
      cbn. assert (E : List.filter (fun e => bool_decide (fst e = k)) tc = []).
      { clear IH Hnd. induction tc as [| [k2 n2] tc IH2]; [reflexivity |].
        cbn [List.filter fst]. cbn [List.map fst] in Hk'.
        rewrite not_elem_of_cons in Hk'. destruct Hk' as [Hne Hk'].
        rewrite bool_decide_eq_false_2 by congruence. now apply IH2. }
      rewrite E. cbn. lia.
    + cbn [List.filter fst]. rewrite bool_decide_eq_false_2.
      * now apply IH.
      * intros ->. apply Hk'. apply list_elem_of_In.
        apply list_elem_of_In in Hin. now apply (in_map fst) in Hin.
Qed.

Lemma countOf_positive_entry (tc : list (string * nat)) (k : string) :
  (0 < countOf k tc)%nat -> exists n, (k, n) ∈ tc.
Proof.
  unfold countOf. induction tc as [| [k' n'] tc IH]; cbn [List.filter fst].
  - cbn. lia.
  - destruct (bool_decide (k' = k)) eqn:E.
    + apply bool_decide_eq_true in E. subst k'. intros _. exists n'. apply list_elem_of_here.
    + intros H. destruct (IH H) as [n Hn]. exists n. now apply list_elem_of_further.
Qed.

Lemma filter_split {A : Type} (p : A -> bool) (l : list A) :
  List.filter p l ++ List.filter (fun x => negb (p x)) l ≡ₚ l.
Proof.
  induction l as [| x l IH]; cbn [List.filter]; [reflexivity |].
  destruct (p x); cbn [negb app].
  - now rewrite IH.
  - rewrite <- Permutation_middle. now rewrite IH.
Qed.

Lemma insertByIndex_perm (e : string * nat) (l : list (string * nat)) :
  insertByIndex e l ≡ₚ e :: l.
Proof.
  induction l as [| e' l IH]; cbn [insertByIndex]; [reflexivity |].
  destruct (indexValue (fst e) <=? indexValue (fst e'))%Z; [reflexivity |].
  rewrite IH. apply Permutation_swap.
Qed.

(** [Object.entries] lists every own property once. *)
Lemma ownEntries_perm (tc : list (string * nat)) : ownEntries tc ≡ₚ tc.
Proof.
  unfold ownEntries. rewrite <- (filter_split (fun e => isArrayIndex (fst e)) tc) at 3.
  apply Permutation_app; [| reflexivity].
  induction (List.filter _ tc) as [| e l IH]; [reflexivity |].
  cbn [List.fold_right]. now rewrite insertByIndex_perm, IH.
Qed.

Lemma insertSlice_perm (a : slice) (l : list slice) : insertSlice a l ≡ₚ a :: l.
Proof.
  induction l as [| b l IH]; cbn [insertSlice]; [reflexivity |].
  destruct (value b <=? value a)%nat; [reflexivity |].
  rewrite IH. apply Permutation_swap.
Qed.

Lemma sortByCount_perm (l : list slice) : sortByCount l ≡ₚ l.
Proof.
  induction l as [| a l IH]; [reflexivity |].
  cbn [sortByCount List.fold_right]. fold (sortByCount l).
  now rewrite insertSlice_perm, IH.
Qed.

Lemma insertSlice_sorted (a : slice) (l : list slice) :
  StronglySorted descending l -> StronglySorted descending (insertSlice a l).
Proof.
  induction 1 as [| b l Hl IH Hb]; cbn [insertSlice].
  - repeat constructor.
  - destruct (value b <=? value a)%nat eqn:E.
    + apply Nat.leb_le in E. constructor; [now constructor |].
      constructor; [exact E |].
      eapply Forall_impl; [exact Hb |]. unfold descending. intros x Hx. lia.
    + apply Nat.leb_gt in E. constructor; [exact IH |].
      rewrite insertSlice_perm. constructor; [unfold descending; lia | exact Hb].
Qed.

Lemma sortByCount_sorted (l : list slice) : StronglySorted descending (sortByCount l).
Proof.
  induction l as [| a l IH]; [constructor |].
  cbn [sortByCount List.fold_right]. now apply insertSlice_sorted.
Qed.

Lemma chart_perm (tc : list (string * nat)) : chart tc ≡ₚ List.map sliceOf tc.
Proof.
  unfold chart. rewrite sortByCount_perm. apply Permutation_map, ownEntries_perm.
Qed.

Lemma chart_total (tc : list (string * nat)) :
  sum_list_with value (chart tc) = sum_list_with snd tc.
Proof.
  rewrite chart_perm. induction tc as [| e tc IH]; [reflexivity |].
  cbn [List.map sum_list_with]. now rewrite IH.
Qed.

Lemma chart_names (tc : list (string * nat)) :
  List.map name (chart tc) ≡ₚ List.map fst tc.
Proof.
  rewrite (Permutation_map name (chart_perm tc)), List.map_map. reflexivity.
Qed.

Lemma chart_In (tc : list (string * nat)) (s : slice) :
  In s (chart tc) <-> exists e, In e tc /\ s = sliceOf e.
Proof.
  split.
  - intros H. apply (Permutation_in _ (chart_perm tc)) in H.
    apply in_map_iff in H as (e & <- & He). eauto.
  - intros (e & He & ->). apply (Permutation_in _ (Permutation_sym (chart_perm tc))).
    now apply in_map.
Qed.

(** What [pieChartData] returns once the visible features are known. *)
Lemma pieChartData_chart (sel : filterSelection) (fs vis : list feature) :
  filterO (pieChartData_keep sel) fs = Done vis ->
  Forall (fun f => inheritedName (bucket f) = false) vis ->
  pieChartData (Some (FeatureCollection (Some fs))) sel = Done (chart (countAll [] vis)).
Proof.
  intros Hvis Hkeys. unfold pieChartData. cbn [featuresOf features].
  rewrite Hvis. cbn [mbind outcome_bind].
  rewrite (countFeatures_Done _ _ Hkeys). reflexivity.
Qed.

Lemma colorOf_palette : paletteFixed.
Proof.
  unfold paletteFixed. repeat split. intros other H. unfold colorOf.
  repeat match goal with
         | |- context [bool_decide (other = ?a)] =>
             destruct (bool_decide (other = a)) eqn:E;
             [apply bool_decide_eq_true in E; subst other; exfalso; apply H; simpl; tauto
             | clear E]
         end.
  reflexivity.
Qed.

(** A slice that counts a feature of the list is named after its bucket. *)
Lemma bucketSize_positive (key : string) (fs : list feature) :
  (0 < bucketSize key fs)%nat -> exists f, In f fs /\ bucket f = key.
Proof.
  unfold bucketSize. intros H.
  destruct (List.filter (fun f => bool_decide (bucket f = key)) fs) as [| f l] eqn:E;
    [cbn in H; lia |].
  assert (Hf : In f (List.filter (fun f => bool_decide (bucket f = key)) fs))
    by (rewrite E; now left).
  apply filter_In in Hf as [Hin Hb]. apply bool_decide_eq_true in Hb. eauto.
Qed.

(** The palette value of a name that is no member of [Object.prototype] is a
    colour. *)
Lemma colorOf_colour (name : string) :
  inheritedName name = false -> exists hex, colorOf name = Colour hex.
Proof.
  intros H. unfold colorOf. rewrite H.
  repeat match goal with
         | |- context [bool_decide ?P] => destruct (bool_decide P)
         end; eauto.
Qed.

(** C3, as amended.  On a feature set whose cities are text and whose
    visible types name no member of [Object.prototype], the distribution has
    one slice for each bucket of a visible feature, where the bucket is Blue,
    Green, Grey or Hybrid for their known synonyms, Unknown for a missing or
    empty type, and the text of the type itself for any other value; a slice
    holds the number of visible features of its bucket and the palette value
    of its name, which is a colour: that of the palette for its five names
    and the default grey for any other name that is no member of
    [Object.prototype] (under the name of such a member the lookup finds the
    member, not a colour); the slices come in descending order of count. *)
Theorem pieChartData_buckets (sel : filterSelection) (fs : list feature) :
  Forall cityIsText fs ->
  Forall (fun f => inheritedName (bucket f) = false) (List.filter (visible sel) fs) ->
  exists slices,
    pieChartData (Some (FeatureCollection (Some fs))) sel = Done slices
    /\ StronglySorted descending slices
    /\ NoDup (List.map name slices)
    /\ (forall s, In s slices ->
          (0 < value s)%nat
          /\ value s = bucketSize (name s) (List.filter (visible sel) fs)
          /\ color s = colorOf (name s)
          /\ exists hex, color s = Colour hex)
    /\ (forall f, In f (List.filter (visible sel) fs) ->
          exists s, In s slices /\ name s = bucket f)
    /\ paletteFixed.
Proof.
  intros Hfs Hkeys. set (vis := List.filter (visible sel) fs) in *.
  assert (Hvis : filterO (pieChartData_keep sel) fs = Done vis).
  { apply filterO_Done. eapply Forall_impl; [exact Hfs |].
    intros f Hf. now apply pieChartData_keep_visible. }
  set (tc := countAll [] vis).
  assert (Hnd : NoDup (List.map fst tc)) by (apply countAll_NoDup; constructor).
  assert (Hpos : Forall (fun e => 0 < snd e)%nat tc) by (apply countAll_positive; constructor).
  assert (Hcount : forall k, countOf k tc = bucketSize k vis).
  { intros k. unfold tc. now rewrite countAll_countOf. }
  exists (chart tc). split; [now apply pieChartData_chart |].
  split; [apply sortByCount_sorted |].
  split; [now rewrite chart_names |].
  split; [| split].
  - intros s (e & He & ->)%chart_In. destruct e as [k n]. cbn [sliceOf name value color fst snd].
    assert (Hn : (0 < n)%nat).
    { rewrite Forall_forall in Hpos. apply list_elem_of_In in He. exact (Hpos _ He). }
    assert (Hk : n = bucketSize k vis).
    { rewrite <- Hcount. symmetry. apply countOf_entry; [exact Hnd |].
      now apply list_elem_of_In. }
    split; [exact Hn |]. split; [exact Hk |]. split; [reflexivity |].
    rewrite Hk in Hn. apply bucketSize_positive in Hn as (f & Hf & <-).
    apply colorOf_colour. rewrite Forall_forall in Hkeys. now apply Hkeys, list_elem_of_In.
  - intros f Hf.
    assert (Hsize : (0 < bucketSize (bucket f) vis)%nat).
    { unfold bucketSize.
      assert (Hin : In f (List.filter (fun g => bool_decide (bucket g = bucket f)) vis)).
      { apply filter_In. split; [exact Hf | now apply bool_decide_eq_true]. }
      destruct (List.filter _ vis); [contradiction | cbn; lia]. }
    rewrite <- Hcount in Hsize. apply countOf_positive_entry in Hsize as [n Hn].
    exists (sliceOf (bucket f, n)). split; [| reflexivity].
    apply chart_In. exists (bucket f, n). split; [now apply list_elem_of_In | reflexivity].
  - apply colorOf_palette.
Qed.

Lemma pieChartData_buckets_witness :
  exists slices,
    pieChartData (Some (FeatureCollection (Some mixedTypes))) nothingSelected = Done slices
    /\ StronglySorted descending slices
    /\ NoDup (List.map name slices).
Proof.
  assert (Htext : Forall cityIsText mixedTypes)
    by (repeat constructor; unfold cityIsText; vm_compute; intros H;
        first [reflexivity | discriminate H]).
  assert (Hall : List.filter (visible nothingSelected) mixedTypes = mixedTypes)
    by (vm_compute; reflexivity).
  assert (Hkeys : Forall (fun f => inheritedName (bucket f) = false)
                         (List.filter (visible nothingSelected) mixedTypes)).
  { rewrite Hall. unfold mixedTypes.
    repeat (apply Forall_cons_2; [vm_compute; reflexivity |]). apply Forall_nil_2. }
  destruct (pieChartData_buckets nothingSelected mixedTypes Htext Hkeys)
    as (slices & H1 & H2 & H3 & _).
  exists slices. repeat split; assumption.
Defined.

Example pieChartData_mixedTypes :
  pieChartData (Some (FeatureCollection (Some mixedTypes))) nothingSelected
  = Done [Slice "Blue" 3 (Colour "#3498db"); Slice "Gray Infrastructure" 2 (Colour "#95a5a6");
          Slice "Unknown" 1 (Colour "#95a5a6")].
Proof. vm_compute. reflexivity. Qed.

(** Under the name of a member of [Object.prototype] the palette lookup finds
    that member. *)
Example colorOf_inherited :
  colorOf "constructor" = InheritedMember "constructor"
  /\ colorOf "toString" = InheritedMember "toString".
Proof. split; vm_compute; reflexivity. Qed.

(** A type that is no known synonym keeps its own name as a bucket. *)
Lemma pieChartData_open_bucket :
  pieChartData grayProject nothingSelected = Done [Slice "Gray Infrastructure" 1 (Colour "#95a5a6")]
  /\ ~ closedBuckets grayProject nothingSelected.
Proof.
  assert (H : pieChartData grayProject nothingSelected
              = Done [Slice "Gray Infrastructure" 1 (Colour "#95a5a6")]) by (vm_compute; reflexivity).
  split; [exact H |].
  intros Hclosed. specialize (Hclosed _ H _ (or_introl eq_refl)).
  cbn [name] in Hclosed.
  repeat (destruct Hclosed as [Hclosed | Hclosed]; [discriminate |]).
  contradiction.
Qed.

(** ** One visible set under every aggregate *)

Lemma filterO_ext {A : Type} (p q : A -> outcome bool) (l : list A) :
  (forall x, p x = q x) -> filterO p l = filterO q l.
Proof.
  intros H. induction l as [| x l IH]; [reflexivity |].
  cbn [filterO]. now rewrite H, IH.
Qed.

Lemma bind_Done_inv {A B : Type} (o : outcome A) (k : A -> outcome B) (b : B) :
  o ≫= k = Done b -> exists a, o = Done a /\ k a = Done b.
Proof. destruct o as [a | |]; cbn; [eauto | discriminate | discriminate]. Qed.

(** C9. The filter callback of [pieChartData] is the filter callback of
    [filteredStats] (and the test of the marker effect is the same one), so
    both keep the same features; whenever the two aggregates are computed,
    there is one visible set whose size is the project count, whose parsed
    costs add up to the total investment, and whose features, bucket by
    bucket, are the counts of the slices: the counts of the slices sum to the
    project count. *)
Theorem aggregates_share_visible_set (data : option featureCollection) (sel : filterSelection) :
  (forall f, pieChartData_keep sel f = filteredStats_keep sel f)
  /\ (forall m f, mfeature m = Some f ->
                  filterMarker sel m = (filteredStats_keep sel f ≫= fun b => Done (Marker (Some f) b)))
  /\ (forall fs, filterO (pieChartData_keep sel) fs = filterO (filteredStats_keep sel) fs)
  /\ (forall st slices,
        filteredStats data sel = Done st ->
        pieChartData data sel = Done slices ->
        exists vis,
          visibleSet data sel = Done vis
          /\ projectCount st = length vis
          /\ totalInvestment st = sumLeft (omap parsedCost vis)
          /\ sum_list_with value slices = projectCount st
          /\ forall s, In s slices -> value s = bucketSize (name s) vis).
Proof.
  split; [reflexivity |].
  split.
  { intros m f Hm. unfold filterMarker, filteredStats_keep. rewrite Hm.
    destruct (if truthy (js_or (prop (propertiesOrEmpty f) "NAME")
                               (prop (propertiesOrEmpty f) "City"))
              then _ else _); reflexivity. }
  split; [intros fs; now apply filterO_ext |].
  intros st slices. unfold filteredStats, pieChartData, visibleSet.
  destruct (featuresOf data) as [fs |].
  - intros (vis & Hvis & [= <-])%bind_Done_inv.
    rewrite (filterO_ext (pieChartData_keep sel) (filteredStats_keep sel)) by reflexivity.
    rewrite Hvis. cbn [mbind outcome_bind].
    intros (tc & Htc & [= <-])%bind_Done_inv.
    apply countFeatures_inv in Htc as [-> _].
    change (sortByCount (List.map _ (ownEntries (countAll [] vis))))
      with (chart (countAll [] vis)).
    exists vis. cbn [projectCount totalInvestment].
    split; [reflexivity |]. split; [reflexivity |].
    split; [apply fold_addCost |].
    split.
    + rewrite chart_total, countAll_total. reflexivity.
    + intros s (e & He & ->)%chart_In.
      destruct e as [k n]. cbn [sliceOf name value fst snd].
      assert (Hk : countOf k (countAll [] vis) = n).
      { apply countOf_entry; [apply countAll_NoDup; constructor | now apply list_elem_of_In]. }
      now rewrite countAll_countOf in Hk.
  - intros [= <-] [= <-]. exists []. repeat split. intros s [].
Qed.

Lemma aggregates_share_visible_set_witness :
  exists vis,
    visibleSet (Some threeCosts) nothingSelected = Done vis
    /\ projectCount (Stats 3 3000000) = length vis.
Proof.
  destruct (proj2 (proj2 (proj2 (aggregates_share_visible_set (Some threeCosts) nothingSelected)))
              (Stats 3 3000000) [Slice "Unknown" 3 (Colour "#95a5a6")])
    as (vis & H1 & H2 & _).
  - vm_compute. reflexivity.
  - vm_compute. reflexivity.
  - exists vis. split; assumption.
Defined.

(** ** Ingestion *)

Lemma trimmedField_step (props : gmap string jsval) (key : string) :
  (truthy (prop props key) = true -> isString (prop props key) = true) ->
  (if truthy (prop props key)
   then js_trim (prop props key) ≫= fun v => Done (<[key := v]> props)
   else Done props)
  = Done (if truthy (prop props key) then <[key := trimmedField (prop props key)]> props
          else props).
Proof.
  intros Htext. destruct (truthy (prop props key)) eqn:T; [| reflexivity].
  specialize (Htext eq_refl). destruct (prop props key); try discriminate. reflexivity.
Qed.

Lemma prop_insert_ne (props : gmap string jsval) (k k' : string) (v : jsval) :
  k <> k' -> prop (<[k := v]> props) k' = prop props k'.
Proof. intros H. unfold prop. now rewrite lookup_insert_ne. Qed.

Lemma prop_insert_eq (props : gmap string jsval) (k : string) (v : jsval) :
  prop (<[k := v]> props) k = v.
Proof. unfold prop. now rewrite lookup_insert_eq. Qed.

Lemma trimmedField_falsy (v : jsval) : truthy v = false -> trimmedField v = v.
Proof.
  destruct v as [| | b | x | t]; try reflexivity. cbn [truthy trimmedField].
  intros H. apply negb_false_iff, bool_decide_eq_true in H. now subst t.
Qed.

(** C8, as amended.  Census ingestion copies the properties of a tract and
    stores what it derives under the keys [__riskRating], [__population] and
    [__pred3PE]: the raw rating or [null], the parsed raw population, and the
    entry of the CSV table for the tract identifier or [null]; every other
    key keeps its value, the geometry is untouched, and the identifier is the
    feature's own, else the tract identifier, else the position.  The marker
    loop of project ingestion, on a project at a valid point whose city
    fields are text, overwrites [NAME] and [City] with their trimmed text and
    changes no other key, nor the identifier or the geometry; it throws when
    such a project has no properties, and leaves alone a project that is not
    at a valid point. *)
Theorem ingestion_frame (pred3PEData : gmap string float) (ft : feature) (index : nat) :
  (geoidIsKey ft ->
   exists after,
     processFeature pred3PEData ft index = Done after
     /\ fid after = nullish (nullish (fid ft) (prop (propertiesOrEmpty ft) geoidKey))
                            (JNum (indexNumber index))
     /\ fgeometry after = fgeometry ft
     /\ (forall key, ~ In key derivedKeys ->
                     propertiesOrEmpty after !! key = propertiesOrEmpty ft !! key)
     /\ optProp after "__riskRating" = js_or (prop (propertiesOrEmpty ft) riskKey) JNull
     /\ optProp after "__population" = parseNumericValue (prop (propertiesOrEmpty ft) populationKey)
     /\ optProp after "__pred3PE" = tablePred3PE pred3PEData ft)
  /\ (cityFieldsText ft -> validPoint ft = true -> fproperties ft <> None ->
      exists after,
        normalizeCity ft = Done after
        /\ fid after = fid ft /\ fgeometry after = fgeometry ft
        /\ (forall key, key <> "NAME" -> key <> "City" ->
                        propertiesOrEmpty after !! key = propertiesOrEmpty ft !! key)
        /\ optProp after "NAME" = trimmedField (optProp ft "NAME")
        /\ optProp after "City" = trimmedField (optProp ft "City"))
  /\ (validPoint ft = true -> fproperties ft = None -> normalizeCity ft = Throws)
  /\ (validPoint ft = false -> normalizeCity ft = Done ft).
Proof.
  split; [| split; [| split]].
  - intros Hkey. unfold geoidIsKey in Hkey. unfold processFeature, tablePred3PE.
    set (raw := propertiesOrEmpty ft) in *. set (geoid := prop raw geoidKey) in *.
    assert (Hlook : (if truthy geoid then lookupPred3PE pred3PEData geoid else Done JNull)
                    = Done (if truthy geoid
                            then match pred3PEData !! ToString geoid with
                                 | Some x => JNum x
                                 | None => JUndefined
                                 end
                            else JNull)).
    { destruct (truthy geoid); [| reflexivity].
      unfold lookupPred3PE. now rewrite (Hkey eq_refl). }
    rewrite Hlook. cbn [mbind outcome_bind]. eexists. split; [reflexivity |].
    split; [reflexivity |].
    split; [reflexivity |]. unfold optProp, propertiesOrEmpty. cbn [fproperties default].
    unfold id. fold raw. split; [| split; [| split]].
    + intros key Hnot. unfold derivedKeys in Hnot. cbn [In] in Hnot.
      rewrite !lookup_insert_ne by (intros <-; apply Hnot; auto). reflexivity.
    + rewrite !prop_insert_ne by discriminate. apply prop_insert_eq.
    + rewrite prop_insert_ne by discriminate. apply prop_insert_eq.
    + rewrite prop_insert_eq.
      destruct (truthy geoid); [| reflexivity].
      destruct (pred3PEData !! ToString geoid) as [x |]; reflexivity.
  - intros Htext Hvalid Hprops. unfold normalizeCity. rewrite Hvalid. cbn [negb].
    destruct (fproperties ft) as [props |] eqn:P; [| congruence].
    destruct (Htext props P) as [Hname Hcity].
    destruct (truthy (js_or (prop props "NAME") (prop props "City"))) eqn:T.
    + rewrite (trimmedField_step props "NAME" Hname). cbn [mbind outcome_bind].
      set (p1 := if truthy (prop props "NAME")
                 then <["NAME" := trimmedField (prop props "NAME")]> props else props).
      assert (Hp1 : prop p1 "City" = prop props "City").
      { unfold p1. destruct (truthy (prop props "NAME")); [| reflexivity].
        now apply prop_insert_ne. }
      assert (Hcity1 : truthy (prop p1 "City") = true -> isString (prop p1 "City") = true)
        by now rewrite Hp1.
      rewrite (trimmedField_step p1 "City" Hcity1). cbn [mbind outcome_bind].
      eexists. split; [reflexivity |]. split; [reflexivity |]. split; [reflexivity |].
      unfold optProp, propertiesOrEmpty. cbn [fproperties default]. rewrite P, Hp1.
      cbn [default]. unfold id. split; [| split].
      * intros key Hn Hc. unfold p1.
        destruct (truthy (prop props "City")), (truthy (prop props "NAME"));
          rewrite ?lookup_insert_ne by congruence; reflexivity.
      * unfold p1.
        destruct (truthy (prop props "City")) eqn:TC, (truthy (prop props "NAME")) eqn:TN;
          repeat first [rewrite prop_insert_eq | rewrite prop_insert_ne by discriminate];
          try reflexivity; symmetry; now apply trimmedField_falsy.
      * unfold p1.
        destruct (truthy (prop props "City")) eqn:TC, (truthy (prop props "NAME")) eqn:TN;
          repeat first [rewrite prop_insert_eq | rewrite prop_insert_ne by discriminate];
          try reflexivity; symmetry; now apply trimmedField_falsy.
    + assert (TN : truthy (prop props "NAME") = false).
      { unfold js_or in T. destruct (truthy (prop props "NAME")) eqn:TN; [congruence | reflexivity]. }
      assert (TC : truthy (prop props "City") = false).
      { unfold js_or in T. now rewrite TN in T. }
      exists ft. split; [reflexivity |]. split; [reflexivity |]. split; [reflexivity |].
      split; [reflexivity |]. unfold optProp. rewrite P.
      split; symmetry; now apply trimmedField_falsy.
  - intros Hvalid Hprops. unfold normalizeCity. now rewrite Hvalid, Hprops.
  - intros Hvalid. unfold normalizeCity. now rewrite Hvalid.
Qed.

Lemma ingestion_frame_witness :
  (exists after,
     processFeature sampleTable sampleTract 0 = Done after
     /\ optProp after "__riskRating" = JStr "Very High"
     /\ optProp after "__pred3PE" = JNum 24.5)
  /\ (exists after,
        normalizeCity miamiPadded = Done after
        /\ optProp after "NAME" = JStr "Miami"
        /\ propertiesOrEmpty after !! "Infrastruc" = Some (JStr "Blue")).
Proof.
  split.
  - destruct (proj1 (ingestion_frame sampleTable sampleTract 0))
      as (after & H1 & _ & _ & _ & H5 & _ & H7).
    + intros _. vm_compute. reflexivity.
    + exists after. split; [exact H1 |]. split.
      * rewrite H5. vm_compute. reflexivity.
      * rewrite H7. vm_compute. reflexivity.
  - destruct (proj1 (proj2 (ingestion_frame ∅ miamiPadded 0)))
      as (after & H1 & _ & _ & H4 & H5 & _).
    + intros props [= <-]. split; vm_compute; intros H; first [reflexivity | discriminate H].
    + vm_compute. reflexivity.
    + discriminate.
    + exists after. split; [exact H1 |]. split.
      * rewrite H5. vm_compute. reflexivity.
      * rewrite H4 by discriminate. vm_compute. reflexivity.
Defined.

(** The marker loop rewrites the raw [NAME] of that project. *)
Lemma normalizeCity_overwrites_raw :
  exists after,
    normalizeCity miamiPadded = Done after
    /\ optProp miamiPadded "NAME" = JStr " Miami "
    /\ optProp after "NAME" = JStr "Miami"
    /\ ~ keepsRawProperties miamiPadded after.
Proof.
  eexists. split; [vm_compute; reflexivity |].
  split; [vm_compute; reflexivity |]. split; [vm_compute; reflexivity |].
  intros H. specialize (H "NAME" (JStr " Miami ") ltac:(vm_compute; reflexivity)).
  vm_compute in H. discriminate.
Qed.

(** ** The CSV table *)

Lemma trimEnd_idem (s : string) : trimEnd (trimEnd s) = trimEnd s.
Proof.
  induction s as [|c s IH]; [reflexivity |].
  cbn [trimEnd]. destruct (trimEnd s) as [|d t] eqn:E.
  - destruct (isWhiteSpace c) eqn:W; [reflexivity |].
    cbn [trimEnd]. now rewrite W.
  - cbn [trimEnd] in *. now rewrite IH.
Qed.

Lemma trimStart_trimEnd (s : string) :
  trimStart s = s -> trimStart (trimEnd s) = trimEnd s.
Proof.
  destruct s as [|c s]; [reflexivity |].
  intros H. assert (W : isWhiteSpace c = false) by (eapply trimStart_head; exact H).
  cbn [trimEnd]. destruct (trimEnd s); rewrite ?W; cbn [trimStart]; now rewrite W.
Qed.

Lemma trimStart_idem (s : string) : trimStart (trimStart s) = trimStart s.
Proof.
  induction s as [|c s IH]; [reflexivity |].
  cbn [trimStart]. destruct (isWhiteSpace c) eqn:W; [exact IH |].
  cbn [trimStart]. now rewrite W.
Qed.

Lemma trim_idem (s : string) : trim (trim s) = trim s.
Proof.
  unfold trim. rewrite (trimStart_trimEnd (trimStart s)) by apply trimStart_idem.
  apply trimEnd_idem.
Qed.

Lemma hasChar_app (c : ascii) (s t : string) :
  hasChar c (s +:+ t) = hasChar c s || hasChar c t.
Proof.
  induction s as [|d s IH]; [reflexivity |].
  rewrite append_cons. cbn [hasChar]. now rewrite IH, orb_assoc.
Qed.

Lemma hasChar_trimStart (c : ascii) (s : string) :
  hasChar c s = false -> hasChar c (trimStart s) = false.
Proof.
  induction s as [|d s IH]; [reflexivity |].
  cbn [trimStart]. destruct (isWhiteSpace d); [| tauto].
  cbn [hasChar]. intros [_ H]%orb_false_elim. auto.
Qed.

Lemma hasChar_trimEnd (c : ascii) (s : string) :
  hasChar c s = false -> hasChar c (trimEnd s) = false.
Proof.
  induction s as [|d s IH]; [reflexivity |].
  cbn [hasChar trimEnd]. intros [Hd Hs]%orb_false_elim. specialize (IH Hs).
  destruct (trimEnd s) as [|e t].
  - destruct (isWhiteSpace d); [reflexivity |]. cbn [hasChar]. now rewrite Hd.
  - cbn [hasChar] in *. now rewrite Hd, IH.
Qed.

Lemma hasChar_trim (c : ascii) (s : string) :
  hasChar c s = false -> hasChar c (trim s) = false.
Proof. intros H. unfold trim. now apply hasChar_trimEnd, hasChar_trimStart. Qed.

Lemma parseCSVLoop_clean (line : string) (result : list string) (current : string)
  (inQuotes : bool) :
  Forall cleanField result ->
  hasChar "034"%char current = false ->
  Forall cleanField (parseCSVLoop line result current inQuotes).
Proof.
  assert (Hpush : forall result current,
             Forall cleanField result -> hasChar "034"%char current = false ->
             Forall cleanField (result ++ [trim current])).
  { intros r c Hr Hc. apply Forall_app. split; [exact Hr |].
    apply Forall_cons_2; [| apply Forall_nil_2].
    split; [now apply hasChar_trim | apply trim_idem]. }
  revert result current inQuotes.
  induction line as [|char line IH]; intros result current inQuotes Hr Hc; cbn [parseCSVLoop].
  - now apply Hpush.
  - destruct (bool_decide (char = "034"%char)) eqn:Q; [now apply IH |].
    destruct (bool_decide (char = ","%char) && negb inQuotes).
    + apply IH; [now apply Hpush | reflexivity].
    + apply IH; [exact Hr |].
      rewrite hasChar_app, Hc. cbn [hasChar]. now rewrite Q.
Qed.

Lemma parseCSVLoop_length (line : string) (result : list string) (current : string)
  (inQuotes : bool) :
  (length result < length (parseCSVLoop line result current inQuotes))%nat.
Proof.
  revert result current inQuotes.
  induction line as [|char line IH]; intros result current inQuotes; cbn [parseCSVLoop].
  - rewrite length_app. simpl. lia.
  - destruct (bool_decide (char = "034"%char)); [apply IH |].
    destruct (bool_decide (char = ","%char) && negb inQuotes); [| apply IH].
    etransitivity; [| apply IH]. rewrite length_app. simpl. lia.
Qed.

(** X1. Whatever the line, [parseCSVLine] returns at least one field, and every
    field is trimmed and holds no quote character. *)
Theorem parseCSVLine_fields (line : string) :
  parseCSVLine line <> []
  /\ Forall (fun f => hasChar "034"%char f = false /\ trim f = f) (parseCSVLine line).
Proof.
  split.
  - intros H. pose proof (parseCSVLoop_length line [] "" false) as L.
    unfold parseCSVLine in H. rewrite H in L. simpl in L. lia.
  - apply parseCSVLoop_clean; [apply Forall_nil_2 | reflexivity].
Qed.

Lemma parseCSVLoop_inside (f rest : string) (result : list string) (current : string)
  (inQuotes : bool) :
  hasChar "034"%char f = false ->
  inQuotes = true \/ hasChar ","%char f = false ->
  parseCSVLoop (f +:+ rest) result current inQuotes
  = parseCSVLoop rest result (current +:+ f) inQuotes.
Proof.
  revert current. induction f as [|c f IH]; intros current Hq Hc.
  - now rewrite append_nil, append_empty_r.
  - rewrite append_cons. cbn [parseCSVLoop]. cbn [hasChar] in Hq, Hc.
    apply orb_false_elim in Hq as [Hq1 Hq2]. rewrite Hq1.
    assert (bool_decide (c = ","%char) && negb inQuotes = false) as ->.
    { destruct Hc as [-> | Hc]; [apply andb_false_r |].
      apply orb_false_elim in Hc as [-> _]. reflexivity. }
    rewrite IH; [| exact Hq2 |].
    + now rewrite append_assoc'.
    + destruct Hc as [-> | Hc]; [now left | right].
      now apply orb_false_elim in Hc as [_ ->].
Qed.

Lemma parseCSVLoop_written (f w rest : string) (result : list string) :
  hasChar "034"%char f = false ->
  writes f w ->
  parseCSVLoop (w +:+ rest) result "" false = parseCSVLoop rest result f false.
Proof.
  intros Hq [-> | [-> Hc]].
  - unfold quoted. rewrite append_cons. cbn [parseCSVLoop].
    rewrite bool_decide_eq_true_2 by reflexivity. cbn [negb].
    rewrite append_assoc', parseCSVLoop_inside by auto.
    rewrite append_cons, append_nil. cbn [parseCSVLoop].
    rewrite bool_decide_eq_true_2 by reflexivity. reflexivity.
  - rewrite parseCSVLoop_inside by auto. reflexivity.
Qed.

Lemma parseCSVLoop_joined (fields written : list string) (result : list string) :
  fields <> [] ->
  Forall (fun f => hasChar "034"%char f = false) fields ->
  Forall2 writes fields written ->
  parseCSVLoop (joinComma written) result "" false = result ++ List.map trim fields.
Proof.
  intros Hne Hq Hw. revert result Hne Hq.
  induction Hw as [| f w fs ws Hfw Hrest IH]; intros result Hne Hq; [congruence |].
  apply Forall_cons in Hq as [Hqf Hqs].
  destruct Hrest as [| f' w' fs' ws' Hfw' Hrest'].
  - cbn [joinComma List.map]. rewrite <- (append_empty_r w).
    rewrite (parseCSVLoop_written f w "" result Hqf Hfw). reflexivity.
  - change (joinComma (w :: w' :: ws')) with (w +:+ String ","%char (joinComma (w' :: ws'))).
    rewrite (parseCSVLoop_written f w _ result Hqf Hfw). cbn [parseCSVLoop].
    rewrite bool_decide_eq_false_2 by discriminate.
    rewrite bool_decide_eq_true_2 by reflexivity. cbn [negb andb].
    rewrite IH; [| discriminate | exact Hqs].
    cbn [List.map]. now rewrite <- app_assoc.
Qed.

(** X2. Reading back a written line: when each field, free of quote characters,
    is written between quotes, or bare if it holds no comma, [parseCSVLine]
    returns the fields, each one trimmed. *)
Theorem parseCSVLine_reads_back (fields written : list string) :
  fields <> [] ->
  Forall (fun f => hasChar "034"%char f = false) fields ->
  Forall2 writes fields written ->
  parseCSVLine (joinComma written) = List.map trim fields.
Proof.
  intros Hne Hq Hw. unfold parseCSVLine.
  now rewrite (parseCSVLoop_joined fields written [] Hne Hq Hw).
Qed.

Lemma parseCSVLine_reads_back_witness :
  parseCSVLine (joinComma ["GEO_ID"; quoted "Miami, FL"; " 23.5 "])
  = List.map trim ["GEO_ID"; "Miami, FL"; " 23.5 "].
Proof.
  apply parseCSVLine_reads_back.
  - discriminate.
  - repeat constructor.
  - repeat constructor; unfold writes; first [now left | now right].
Defined.

Lemma allWhiteSpace_app (s t : string) :
  allWhiteSpace (s +:+ t) = allWhiteSpace s && allWhiteSpace t.
Proof.
  induction s as [|c s IH]; [reflexivity |].
  rewrite append_cons. cbn [allWhiteSpace]. now rewrite IH, andb_assoc.
Qed.

Lemma truthy_trim (s : string) : truthy (JStr (trim s)) = negb (allWhiteSpace s).
Proof.
  cbn [truthy]. f_equal. destruct (allWhiteSpace s) eqn:E.
  - apply bool_decide_eq_true_2. now apply trim_blank_iff.
  - apply bool_decide_eq_false_2. intros H%trim_blank_iff. congruence.
Qed.

Lemma loadPred3PE_lines (csvText : string) :
  loadPred3PE csvText
  = match nonBlankLines csvText with
    | [] => Throws
    | header :: rows =>
        addRows (indexOf (parseCSVLine header) "GEO_ID")
                (indexOf (parseCSVLine header) "PRED3_PE") ∅ rows
    end.
Proof.
  unfold loadPred3PE, nonBlankLines.
  now rewrite (filter_ext _ (fun line => negb (allWhiteSpace line)) truthy_trim).
Qed.

Lemma splitLines_blank (text current : string) :
  Forall (fun line => allWhiteSpace line = true) (splitLines text current)
  <-> allWhiteSpace text = true /\ allWhiteSpace current = true.
Proof.
  revert current. induction text as [|c text IH]; intros current; cbn [splitLines allWhiteSpace].
  - rewrite Forall_singleton. tauto.
  - destruct (bool_decide (c = "010"%char)) eqn:E.
    + apply bool_decide_eq_true_1 in E as ->. rewrite Forall_cons, IH. cbn. tauto.
    + rewrite IH, allWhiteSpace_app. cbn [allWhiteSpace].
      rewrite !andb_true_iff. tauto.
Qed.

Lemma filter_nil_iff {A : Type} (p : A -> bool) (l : list A) :
  List.filter p l = [] <-> Forall (fun x => p x = false) l.
Proof.
  induction l as [|x l IH]; cbn [List.filter].
  - split; [intros _; apply Forall_nil_2 | reflexivity].
  - rewrite Forall_cons. destruct (p x); [| tauto].
    split; [discriminate | intros [? _]; discriminate].
Qed.

Lemma nonBlankLines_nil (csvText : string) :
  nonBlankLines csvText = [] <-> allWhiteSpace csvText = true.
Proof.
  unfold nonBlankLines. rewrite filter_nil_iff.
  rewrite <- (Forall_iff (fun line => allWhiteSpace line = true))
    by (intros x; now rewrite negb_false_iff).
  rewrite splitLines_blank. cbn. tauto.
Qed.

Lemma indexOfFrom_absent (name : string) (l : list string) (i : Z) :
  (0 <= i)%Z -> (indexOfFrom name l i < 0)%Z <-> ~ In name l.
Proof.
  revert i. induction l as [|x l IH]; intros i Hi; cbn [indexOfFrom In].
  - split; [tauto | lia].
  - destruct (bool_decide (x = name)) eqn:E.
    + apply bool_decide_eq_true_1 in E. split; [lia | tauto].
    + apply bool_decide_eq_false_1 in E. rewrite IH by lia. tauto.
Qed.

Lemma element_negative (values : list string) (i : Z) :
  (i < 0)%Z -> element values i = None.
Proof. intros H. unfold element. now rewrite (proj2 (Z.ltb_lt i 0) H). Qed.

Lemma rowEntry_missing_column (gi pi : Z) (line : string) :
  (gi < 0)%Z \/ (pi < 0)%Z -> rowEntry gi pi line = None.
Proof.
  intros H. unfold rowEntry.
  destruct (negb (truthy (JStr (trim line)))); [reflexivity |].
  destruct (Z.max gi pi <? Z.of_nat (length (parseCSVLine line)))%Z; [| reflexivity].
  destruct H as [H | H].
  - now rewrite (element_negative _ gi H).
  - rewrite (element_negative _ pi H).
    destruct (trim <$> element (parseCSVLine line) gi) as [g|]; [| reflexivity].
    replace (PrimFloat.is_nan (parseFloat JUndefined)) with true by (vm_compute; reflexivity).
    now rewrite andb_false_r.
Qed.

Lemma addRow_missing_column (gi pi : Z) (m : gmap string float) (line : string) :
  (gi < 0)%Z \/ (pi < 0)%Z -> addRow gi pi m line = Done m.
Proof. intros H. unfold addRow. now rewrite rowEntry_missing_column. Qed.

Lemma addRows_missing_column (gi pi : Z) (m : gmap string float) (lines : list string) :
  (gi < 0)%Z \/ (pi < 0)%Z -> addRows gi pi m lines = Done m.
Proof.
  intros H. induction lines as [|line lines IH]; [reflexivity |].
  cbn [addRows]. now rewrite addRow_missing_column.
Qed.

Lemma addRows_not_Throws (gi pi : Z) (m : gmap string float) (lines : list string) :
  addRows gi pi m lines <> Throws.
Proof.
  revert m. induction lines as [|line lines IH]; intros m; cbn [addRows]; [discriminate |].
  unfold addRow.
  repeat match goal with
         | |- context [match ?x with _ => _ end] => destruct x
         end; cbn; try discriminate; apply IH.
Qed.

(** X3. The table cannot be read from a text that is empty or all white space:
    there is no header line, and reading it throws.  When the header line
    lacks the column [GEO_ID] or the column [PRED3_PE], the table is empty
    whatever the data lines hold. *)
Theorem loadPred3PE_without_columns (csvText : string) :
  (loadPred3PE csvText = Throws <-> allWhiteSpace csvText = true)
  /\ (forall header rows,
        nonBlankLines csvText = header :: rows ->
        ~ In "GEO_ID" (parseCSVLine header) \/ ~ In "PRED3_PE" (parseCSVLine header) ->
        loadPred3PE csvText = Done ∅).
Proof.
  rewrite loadPred3PE_lines. split.
  - rewrite <- nonBlankLines_nil. destruct (nonBlankLines csvText) as [|header rows].
    + tauto.
    + split; [| discriminate]. intros H. now apply addRows_not_Throws in H.
  - intros header rows -> H. apply addRows_missing_column.
    unfold indexOf. rewrite !indexOfFrom_absent by lia. exact H.
Qed.

Lemma rowEntry_number (gi pi : Z) (line k : string) (x : float) :
  rowEntry gi pi line = Some (k, x) -> PrimFloat.is_nan x = false.
Proof.
  unfold rowEntry.
  destruct (negb (truthy (JStr (trim line)))); [discriminate |].
  destruct (Z.max gi pi <? Z.of_nat (length (parseCSVLine line)))%Z; [| discriminate].
  destruct (trim <$> element (parseCSVLine line) gi) as [g|]; [| discriminate].
  destruct (truthy (JStr g)); [| discriminate]. cbn [andb].
  destruct (PrimFloat.is_nan _) eqn:E; [discriminate |].
  intros [= _ <-]. exact E.
Qed.

Lemma addRows_lookup (gi pi : Z) (rows : list string) (m table : gmap string float)
  (k : string) (x : float) :
  addRows gi pi m rows = Done table ->
  table !! k = Some x
  <-> (exists pre row post,
          rows = pre ++ row :: post /\ rowEntry gi pi row = Some (k, x)
          /\ Forall (fun r => rowKey gi pi r <> Some k) post)
      \/ (m !! k = Some x /\ Forall (fun r => rowKey gi pi r <> Some k) rows).
Proof.
  revert m. induction rows as [|row rows IH]; intros m; cbn [addRows].
  - intros [= <-]. split.
    + intros H. right. split; [exact H | apply Forall_nil_2].
    + intros [(pre & row & post & H & _) | [H _]]; [| exact H].
      now destruct pre.
  - unfold addRow at 1. unfold rowKey in *.
    destruct (rowEntry gi pi row) as [[k' x']|] eqn:E.
    + destruct (inheritedName k'); [discriminate |]. cbn.
      intros H. rewrite (IH _ H). clear IH H. split.
      * intros [(pre & r & post & -> & Hr & Hpost) | [Hm Hrows]].
        -- left. exists (row :: pre), r, post. auto.
        -- destruct (decide (k' = k)) as [-> | Hne].
           ++ rewrite lookup_insert_eq in Hm. injection Hm as ->.
              left. exists [], row, rows. auto.
           ++ rewrite lookup_insert_ne in Hm by exact Hne.
              right. split; [exact Hm |]. apply Forall_cons_2; [| exact Hrows].
              rewrite E. cbn. congruence.
      * intros [(pre & r & post & Heq & Hr & Hpost) | [Hm Hrows]].
        -- destruct pre as [|p pre]; cbn in Heq; injection Heq as -> ->.
           ++ right. rewrite E in Hr. injection Hr as -> ->.
              split; [apply lookup_insert_eq | exact Hpost].
           ++ left. exists pre, r, post. auto.
        -- apply Forall_cons in Hrows as [Hrow Hrows]. rewrite E in Hrow. cbn in Hrow.
           right. split; [| exact Hrows].
           rewrite lookup_insert_ne by congruence. exact Hm.
    + cbn. intros H. rewrite (IH _ H). clear IH H. split.
      * intros [(pre & r & post & -> & Hr & Hpost) | [Hm Hrows]].
        -- left. exists (row :: pre), r, post. auto.
        -- right. split; [exact Hm |]. apply Forall_cons_2; [| exact Hrows].
           rewrite E. discriminate.
      * intros [(pre & r & post & Heq & Hr & Hpost) | [Hm Hrows]].
        -- destruct pre as [|p pre]; cbn in Heq; injection Heq as -> ->.
           ++ congruence.
           ++ left. exists pre, r, post. auto.
        -- apply Forall_cons in Hrows as [_ Hrows]. right. auto.
Qed.

(** X4. The table holds, for each tract, what the last data line that names
    it says, and nothing else; no value of the table is [NaN]. *)
Theorem loadPred3PE_last_line_wins (csvText header : string) (rows : list string)
  (table : gmap string float) :
  nonBlankLines csvText = header :: rows ->
  loadPred3PE csvText = Done table ->
  let geoIdIndex := indexOf (parseCSVLine header) "GEO_ID" in
  let pred3PEIndex := indexOf (parseCSVLine header) "PRED3_PE" in
  forall geoid x,
    (table !! geoid = Some x
     <-> exists pre row post,
           rows = pre ++ row :: post
           /\ rowEntry geoIdIndex pred3PEIndex row = Some (geoid, x)
           /\ Forall (fun r => rowKey geoIdIndex pred3PEIndex r <> Some geoid) post)
    /\ (table !! geoid = Some x -> PrimFloat.is_nan x = false).
Proof.
  intros Hlines Hload gi pi geoid x.
  rewrite loadPred3PE_lines, Hlines in Hload. fold gi pi in Hload.
  pose proof (addRows_lookup gi pi rows ∅ table geoid x Hload) as H.
  rewrite lookup_empty in H.
  assert (Hiff : table !! geoid = Some x
                 <-> exists pre row post,
                       rows = pre ++ row :: post /\ rowEntry gi pi row = Some (geoid, x)
                       /\ Forall (fun r => rowKey gi pi r <> Some geoid) post).
  { rewrite H. split; [intros [? | [? _]]; [assumption | discriminate] | auto]. }
  split; [exact Hiff |].
  intros (pre & row & post & _ & Hrow & _)%Hiff. eapply rowEntry_number, Hrow.
Qed.

Lemma loadPred3PE_last_line_wins_witness :
  sampleTable !! "12086000107" = Some 24.5%float
  <-> exists pre row post,
        sampleRows = pre ++ row :: post
        /\ rowEntry (indexOf (parseCSVLine sampleHeader) "GEO_ID")
                    (indexOf (parseCSVLine sampleHeader) "PRED3_PE") row
           = Some ("12086000107", 24.5%float)
        /\ Forall (fun r => rowKey (indexOf (parseCSVLine sampleHeader) "GEO_ID")
                                   (indexOf (parseCSVLine sampleHeader) "PRED3_PE") r
                            <> Some "12086000107") post.
Proof.
  refine (proj1 (loadPred3PE_last_line_wins sampleCsv sampleHeader sampleRows sampleTable
                   _ _ "12086000107" 24.5%float)).
  - vm_compute. reflexivity.
  - vm_compute. reflexivity.
Defined.

(** ** The hover state of the census layers *)

Lemma setFeatureState_off {Id : Type} `{EqDecision Id} (old id : Id) (featureState : Id -> bool) (hovered : option Id) :
  (forall id, featureState id = true -> hovered = Some id) ->
  hovered = Some old ->
  setFeatureState old false featureState id = false.
Proof.
  intros Hone Hold. unfold setFeatureState. destruct (decide (id = old)); [reflexivity |].
  destruct (featureState id) eqn:E; [| reflexivity].
  apply Hone in E. congruence.
Qed.

Lemma hover_off {Id : Type} (id : Id) (featureState : Id -> bool) :
  (forall id, featureState id = true -> @None Id = Some id) -> featureState id = false.
Proof.
  intros Hone. destruct (featureState id) eqn:E; [| reflexivity].
  apply Hone in E. discriminate.
Qed.

Lemma pointerStep_consistent {Id : Type} `{EqDecision Id} (st : hoverState Id)
  (ev : pointerEvent Id) :
  hoverConsistent st -> hoverConsistent (pointerStep st ev).
Proof.
  intros (Hone & Hmarker & Hmap). destruct st as [hovered marker mapc hv]. cbn in *.
  assert (Hoff : forall id,
             match hovered with
             | Some old => setFeatureState old false hv
             | None => hv
             end id = false).
  { intros id. destruct hovered as [old|] eqn:E.
    - now apply (setFeatureState_off old id hv (Some old)).
    - now apply hover_off. }
  assert (Hoff' : forall id, hovered = None -> hv id = false).
  { intros id E. subst hovered. apply Hoff. }
  assert (Hoff'' : forall old id, hovered = Some old -> setFeatureState old false hv id = false).
  { intros old id E. subst hovered. apply Hoff. }
  destruct ev as [[id|] | | | |];
    unfold pointerStep, handleHover, handleLeave, markerEnter, markerLeave, censusHidden;
    cbn [hover hoveredCensusId isHoveringMarker mapCurrent];
    destruct mapc, marker, hovered as [old|] eqn:E; cbn [negb];
    repeat split; cbn [hover hoveredCensusId isHoveringMarker mapCurrent];
    try discriminate; try assumption; try reflexivity;
    try (intros id0 Ht; rewrite ?Hoff', ?Hoff'' in Ht by reflexivity; discriminate);
    try (specialize (Hmap eq_refl); discriminate);
    try (specialize (Hmarker eq_refl); discriminate).
  all: intros id'; unfold setFeatureState at 1;
    destruct (decide (id' = id)) as [-> | Hne]; [reflexivity |];
    intros Ht; rewrite ?Hoff', ?Hoff'' in Ht by reflexivity; discriminate.
Qed.

Lemma pointerSteps_consistent {Id : Type} `{EqDecision Id} (events : list (pointerEvent Id))
  (st : hoverState Id) :
  hoverConsistent st -> hoverConsistent (List.fold_left pointerStep events st).
Proof.
  revert st. induction events as [|ev events IH]; intros st H0; [exact H0 |].
  cbn [List.fold_left]. apply IH. now apply pointerStep_consistent.
Qed.

(** X5. From the moment the handlers are bound, and whatever the pointer does,
    at most one census tract is highlighted: the one recorded as hovered; and
    no tract is highlighted while the pointer is over a marker. *)
Theorem census_hover_single {Id : Type} `{EqDecision Id} (mapCurrent : bool)
  (events : list (pointerEvent Id)) :
  let st := List.fold_left pointerStep events (hoverStart mapCurrent) in
  (forall id, hover st id = true -> hoveredCensusId st = Some id)
  /\ (forall id id', hover st id = true -> hover st id' = true -> id = id')
  /\ (isHoveringMarker st = true -> forall id, hover st id = false).
Proof.
  intros st.
  assert (H : hoverConsistent st).
  { apply pointerSteps_consistent. repeat split; discriminate. }
  destruct H as (Hone & Hmarker & _). split; [exact Hone |]. split.
  - intros id id' H1 H2. apply Hone in H1, H2. congruence.
  - intros Hm id. destruct (hover st id) eqn:E; [| reflexivity].
    apply Hone in E. rewrite (Hmarker Hm) in E. discriminate.
Qed.

(** ** The search box *)

Lemma navigateToProject_inRange (mapReady : bool) (ft : feature) (box : searchBox) :
  selectionInRange box -> selectionInRange (navigateToProject mapReady ft box).
Proof.
  intros H. unfold navigateToProject.
  destruct (negb mapReady); [exact H |].
  destruct (fgeometry ft) as [g|]; [| exact H].
  destruct (negb (truthyCoords (coordinates g)) || tooShort (coordinates g)); [exact H |].
  unfold selectionInRange in *. cbn. lia.
Qed.

Section SearchBoxProperties.

Variable searchProjects : string -> option featureCollection -> list feature.
Variable allProjectsData : option featureCollection.
Variable mapReady : bool.

Lemma searchStep_inRange (box : searchBox) (ev : searchEvent) :
  selectionInRange box ->
  selectionInRange (searchStep searchProjects allProjectsData mapReady box ev).
Proof.
  intros H. unfold searchStep.
  destruct (bool_decide (searchQuery (searchHandler mapReady ev box) = searchQuery box)).
  - destruct box as [q [results shown idx] active]. unfold selectionInRange in H. cbn in H.
    destruct ev as [value | | | | k | position]; cbn.
    + exact H.
    + destruct results; exact H.
    + unfold selectionInRange. cbn. lia.
    + destruct shown; exact H.
    + unfold handleKeyDown. cbn.
      destruct (negb shown || (length results =? 0)%nat) eqn:E; [exact H |].
      destruct k; cbn; unfold selectionInRange; cbn; try lia.
      * destruct (idx <? Z.of_nat (length results) - 1)%Z eqn:L; [apply Z.ltb_lt in L |]; lia.
      * destruct (0 <? idx)%Z eqn:L; [apply Z.ltb_lt in L |]; lia.
      * destruct (results !! Z.to_nat (if (0 <=? idx)%Z then idx else 0%Z)) as [ft|]; [| exact H].
        now apply navigateToProject_inRange.
    + destruct (results !! position) as [ft|]; [| exact H].
      now apply navigateToProject_inRange.
  - unfold selectionInRange, searchEffect. cbn.
    destruct (negb _); cbn; lia.
Qed.

Lemma searchSteps_inRange (events : list searchEvent) (box : searchBox) :
  selectionInRange box ->
  selectionInRange
    (List.fold_left (searchStep searchProjects allProjectsData mapReady) events box).
Proof.
  revert box. induction events as [|ev events IH]; intros box H; [exact H |].
  cbn [List.fold_left]. apply IH. now apply searchStep_inRange.
Qed.

End SearchBoxProperties.

(** X6. Whatever is typed, pressed or clicked in the search box, the selected
    position is either -1 or the position of one of the current results; so
    when the list of results is shown and is not empty, Enter always finds a
    result to go to: the selected one, or the first when none is selected. *)
Theorem search_selection_in_range
  (searchProjects : string -> option featureCollection -> list feature)
  (allProjectsData : option featureCollection) (mapReady : bool)
  (events : list searchEvent) :
  let box := List.fold_left (searchStep searchProjects allProjectsData mapReady)
                            events searchStart in
  let index := selectedResultIndex (search box) in
  let results := searchResults (search box) in
  (index = (-1)%Z \/ (0 <= index < Z.of_nat (length results))%Z)
  /\ (showSearchResults (search box) = true -> results <> [] ->
      exists ft,
        results !! Z.to_nat (Z.max index 0) = Some ft
        /\ handleKeyDown mapReady Enter box = navigateToProject mapReady ft box).
Proof.
  intros box index results.
  assert (H : selectionInRange box).
  { apply searchSteps_inRange. unfold selectionInRange. cbn. lia. }
  unfold selectionInRange in H. fold index results in H. split; [lia |].
  intros Hshown Hne.
  assert (Hlen : (0 < length results)%nat) by (destruct results; [congruence | cbn; lia]).
  destruct (lookup_lt_is_Some_2 results (Z.to_nat (Z.max index 0))) as [ft Hft]; [lia |].
  exists ft. split; [exact Hft |].
  unfold handleKeyDown. fold results index. rewrite Hshown. cbn [negb orb].
  replace (length results =? 0)%nat with false by (symmetry; apply Nat.eqb_neq; lia).
  replace (if (0 <=? index)%Z then index else 0%Z) with (Z.max index 0).
  - now rewrite Hft.
  - destruct (0 <=? index)%Z eqn:L; [apply Z.leb_le in L | apply Z.leb_gt in L]; lia.
Qed.

(** ** Range statistics *)

Lemma SFcompare_rank (x y : spec_float) :
  x <> S754_nan -> y <> S754_nan ->
  match SFcompare x y with
  | Some Lt => lexLt (rank x) (rank y)
  | Some Eq => rank x = rank y
  | Some Gt => lexLt (rank y) (rank x)
  | None => False
  end.
Proof.
  intros Hx Hy.
  destruct x as [[] | [] | | [] mx ex], y as [[] | [] | | [] my ey]; try congruence;
    cbn; unfold lexLt; cbn; try lia; try reflexivity.
  - destruct (Z.compare_spec ex ey); cbn; try lia.
    change (PosDef.Pos.compare_cont Eq mx my) with (Pos.compare mx my).
    destruct (Pos.compare_spec mx my); cbn; try lia. subst. reflexivity.
  - destruct (Z.compare_spec ex ey); cbn; try lia.
    change (PosDef.Pos.compare_cont Eq mx my) with (Pos.compare mx my).
    destruct (Pos.compare_spec mx my); cbn; try lia. subst. reflexivity.
Qed.

Lemma is_nan_spec (x : float) : PrimFloat.is_nan x = true <-> Prim2SF x = S754_nan.
Proof.
  unfold PrimFloat.is_nan. rewrite FloatAxioms.eqb_spec. unfold SFeqb.
  pose proof (SFcompare_rank (Prim2SF x) (Prim2SF x)) as H.
  destruct (Prim2SF x) as [s | s | | s m e] eqn:E.
  4: { specialize (H ltac:(discriminate) ltac:(discriminate)).
       destruct (SFcompare _ _) as [[]|]; cbn in *; unfold lexLt in *.
       - split; discriminate.
       - destruct s; cbn in H; lia.
       - destruct s; cbn in H; lia.
       - tauto. }
  all: try destruct s; cbn; split; intros; congruence.
Qed.

Lemma is_nan_false (x : float) : PrimFloat.is_nan x = false <-> Prim2SF x <> S754_nan.
Proof. rewrite <- is_nan_spec. destruct (PrimFloat.is_nan x); split; congruence. Qed.

Lemma ltb_below (x y : float) :
  PrimFloat.is_nan x = false -> PrimFloat.is_nan y = false ->
  ((x <? y)%float = true <-> below x y).
Proof.
  intros Hx%is_nan_false Hy%is_nan_false. rewrite ltb_spec. unfold SFltb, below.
  pose proof (SFcompare_rank _ _ Hx Hy) as H.
  destruct (SFcompare _ _) as [[]|]; unfold lexLt in *; split; intros; try discriminate;
    try reflexivity; try tauto; rewrite ?H in *; lia.
Qed.

Lemma leb_below (x y : float) :
  PrimFloat.is_nan x = false -> PrimFloat.is_nan y = false ->
  ((x <=? y)%float = true <-> below x y \/ level x y).
Proof.
  intros Hx%is_nan_false Hy%is_nan_false. rewrite leb_spec. unfold SFleb, below, level.
  pose proof (SFcompare_rank _ _ Hx Hy) as H.
  destruct (SFcompare _ _) as [[]|]; unfold lexLt in *; split; intros; try discriminate;
    try reflexivity; try tauto.
  destruct H0 as [H0 | H0]; [lia | rewrite H0 in H; lia].
Qed.

Lemma below_trans (x y z : float) : below x y -> below y z -> below x z.
Proof. unfold below, lexLt. lia. Qed.

Lemma below_total (x y : float) : below x y \/ level x y \/ below y x.
Proof.
  unfold below, level, lexLt.
  destruct (rank (Prim2SF x)) as [[a1 a2] a3], (rank (Prim2SF y)) as [[b1 b2] b3]. cbn.
  destruct (Z.lt_total a1 b1) as [|[|]]; [lia | | lia].
  destruct (Z.lt_total a2 b2) as [|[|]]; [lia | | lia].
  destruct (Z.lt_total a3 b3) as [|[|]]; [lia | | lia].
  right. left. congruence.
Qed.

Lemma level_below_l (x y z : float) : level x y -> below y z -> below x z.
Proof. unfold level, below. now intros ->. Qed.

Lemma level_below_r (x y z : float) : below x y -> level y z -> below x z.
Proof. unfold level, below. now intros ? <-. Qed.

Lemma finite_rank (x : float) :
  Number_isFinite x = true ->
  PrimFloat.is_nan x = false
  /\ below x PrimFloat.infinity /\ below PrimFloat.neg_infinity x.
Proof.
  unfold Number_isFinite. intros [Hn Hi]%negb_true_iff%orb_false_elim.
  split; [exact Hn |]. apply is_nan_false in Hn.
  unfold PrimFloat.is_infinity in Hi. rewrite FloatAxioms.eqb_spec, abs_spec in Hi.
  unfold below, lexLt.
  change (Prim2SF PrimFloat.infinity) with (S754_infinity false).
  change (Prim2SF PrimFloat.neg_infinity) with (S754_infinity true).
  change (Prim2SF infinity) with (S754_infinity false) in Hi.
  destruct (Prim2SF x) as [s | s | | s m e]; cbn in *; try congruence;
    try destruct s; cbn; lia.
Qed.

Lemma isZeroOfSign_level (s t : bool) (x y : float) :
  isZeroOfSign s x = true -> isZeroOfSign t y = true -> level x y.
Proof.
  unfold isZeroOfSign, level.
  destruct (Prim2SF x), (Prim2SF y); try discriminate. reflexivity.
Qed.

Lemma level_sym (x y : float) : level x y -> level y x.
Proof. unfold level. congruence. Qed.

Lemma level_refl (x : float) : level x x.
Proof. reflexivity. Qed.

Lemma level_trans (x y z : float) : level x y -> level y z -> level x z.
Proof. unfold level. congruence. Qed.

Lemma minStep_lowestOf (seen : list float) (lowest number : float) :
  Number_isFinite number = true ->
  lowestOf seen lowest -> lowestOf (seen ++ [number]) (minStep lowest number).
Proof.
  intros (Hn & Hinf & _)%finite_rank (Hl & Hin & Hlow). unfold minStep.
  assert (Hnew : forall v, below number lowest \/ level number lowest ->
                      In v (seen ++ [number]) -> below number v \/ level number v).
  { intros v Hnl [Hv | [<- | []]]%in_app_iff; [| right; apply level_refl].
    destruct Hnl as [Hnl | Hnl], (Hlow v Hv) as [Hlv | Hlv].
    - left. eapply below_trans; eassumption.
    - left. eapply level_below_r; eassumption.
    - left. eapply level_below_l; eassumption.
    - right. eapply level_trans; eassumption. }
  destruct (isZeroOfSign true number && isZeroOfSign false lowest) eqn:Z.
  - apply andb_prop in Z as [Z1 Z2]. split; [exact Hn |]. split.
    + right. apply in_app_iff. right. now left.
    + intros v. apply Hnew. right. eapply isZeroOfSign_level; eassumption.
  - destruct (number <? lowest)%float eqn:L.
    + apply (ltb_below _ _ Hn Hl) in L. split; [exact Hn |]. split.
      * right. apply in_app_iff. right. now left.
      * intros v. apply Hnew. now left.
    + assert (Hnb : ~ below number lowest).
      { intros H%(ltb_below _ _ Hn Hl). congruence. }
      split; [exact Hl |]. split.
      * right. destruct Hin as [[_ ->] | Hin]; [contradiction |].
        apply in_app_iff. now left.
      * intros v [Hv | [<- | []]]%in_app_iff; [now apply Hlow |].
        destruct (below_total number lowest) as [? | [? | ?]]; [contradiction | |].
        -- right. now apply level_sym.
        -- now left.
Qed.

Lemma maxStep_highestOf (seen : list float) (highest number : float) :
  Number_isFinite number = true ->
  highestOf seen highest -> highestOf (seen ++ [number]) (maxStep highest number).
Proof.
  intros (Hn & _ & Hinf)%finite_rank (Hl & Hin & Hhigh). unfold maxStep.
  assert (Hnew : forall v, below highest number \/ level highest number ->
                      In v (seen ++ [number]) -> below v number \/ level v number).
  { intros v Hnl [Hv | [<- | []]]%in_app_iff; [| right; apply level_refl].
    destruct Hnl as [Hnl | Hnl], (Hhigh v Hv) as [Hlv | Hlv].
    - left. eapply below_trans; eassumption.
    - left. eapply level_below_l; eassumption.
    - left. eapply level_below_r; eassumption.
    - right. eapply level_trans; eassumption. }
  destruct (isZeroOfSign false number && isZeroOfSign true highest) eqn:Z.
  - apply andb_prop in Z as [Z1 Z2]. split; [exact Hn |]. split.
    + right. apply in_app_iff. right. now left.
    + intros v. apply Hnew. right. eapply isZeroOfSign_level; eassumption.
  - destruct (highest <? number)%float eqn:L.
    + apply (ltb_below _ _ Hl Hn) in L. split; [exact Hn |]. split.
      * right. apply in_app_iff. right. now left.
      * intros v. apply Hnew. now left.
    + assert (Hnb : ~ below highest number).
      { intros H%(ltb_below _ _ Hl Hn). congruence. }
      split; [exact Hl |]. split.
      * right. destruct Hin as [[_ ->] | Hin]; [contradiction |].
        apply in_app_iff. now left.
      * intros v [Hv | [<- | []]]%in_app_iff; [now apply Hhigh |].
        destruct (below_total highest number) as [? | [? | ?]]; [contradiction | |].
        -- right. now apply level_sym.
        -- now left.
Qed.

Lemma fold_minStep (values seen : list float) (lowest : float) :
  Forall (fun v => Number_isFinite v = true) values ->
  lowestOf seen lowest ->
  lowestOf (seen ++ values) (List.fold_left minStep values lowest).
Proof.
  intros Hf. revert seen lowest.
  induction Hf as [| v values Hv _ IH]; intros seen lowest H; cbn [List.fold_left].
  - now rewrite app_nil_r.
  - replace (seen ++ v :: values) with ((seen ++ [v]) ++ values) by now rewrite <- app_assoc.
    apply IH. now apply minStep_lowestOf.
Qed.

Lemma fold_maxStep (values seen : list float) (highest : float) :
  Forall (fun v => Number_isFinite v = true) values ->
  highestOf seen highest ->
  highestOf (seen ++ values) (List.fold_left maxStep values highest).
Proof.
  intros Hf. revert seen highest.
  induction Hf as [| v values Hv _ IH]; intros seen highest H; cbn [List.fold_left].
  - now rewrite app_nil_r.
  - replace (seen ++ v :: values) with ((seen ++ [v]) ++ values) by now rewrite <- app_assoc.
    apply IH. now apply maxStep_highestOf.
Qed.

Lemma finite_no_nan (values : list float) :
  Forall (fun v => Number_isFinite v = true) values ->
  existsb PrimFloat.is_nan values = false.
Proof.
  induction 1 as [| v values Hv _ IH]; [reflexivity |].
  cbn [existsb]. rewrite IH. now apply finite_rank in Hv as [-> _].
Qed.

Lemma minOfArguments_finite (values : list float) :
  values <> [] ->
  Forall (fun v => Number_isFinite v = true) values ->
  In (minOfArguments values) values
  /\ forall v, In v values -> (minOfArguments values <=? v)%float = true.
Proof.
  intros Hne Hf. unfold minOfArguments. rewrite (finite_no_nan values Hf).
  destruct (fold_minStep values [] PrimFloat.infinity Hf) as (Hn & Hin & Hlow).
  { split; [reflexivity |]. split; [now left | intros v []]. }
  cbn [app] in *. split.
  - destruct Hin as [[? _] | Hin]; [contradiction | exact Hin].
  - intros v Hv. apply leb_below; [exact Hn | | now apply Hlow].
    rewrite Forall_forall in Hf. now apply finite_rank, Hf, list_elem_of_In.
Qed.

Lemma maxOfArguments_finite (values : list float) :
  values <> [] ->
  Forall (fun v => Number_isFinite v = true) values ->
  In (maxOfArguments values) values
  /\ forall v, In v values -> (v <=? maxOfArguments values)%float = true.
Proof.
  intros Hne Hf. unfold maxOfArguments. rewrite (finite_no_nan values Hf).
  destruct (fold_maxStep values [] PrimFloat.neg_infinity Hf) as (Hn & Hin & Hhigh).
  { split; [reflexivity |]. split; [now left | intros v []]. }
  cbn [app] in *. split.
  - destruct Hin as [[? _] | Hin]; [contradiction | exact Hin].
  - intros v Hv. apply leb_below; [| exact Hn | now apply Hhigh].
    rewrite Forall_forall in Hf. now apply finite_rank, Hf, list_elem_of_In.
Qed.

Lemma finite_numbers (values : list jsval) :
  Forall (fun v => isFiniteNumber v = true) values ->
  Forall (fun x => Number_isFinite x = true) (List.map ToNumber values)
  /\ (forall x, In x (List.map ToNumber values) <-> In (JNum x) values).
Proof.
  induction 1 as [| v values Hv _ [IH1 IH2]]; cbn [List.map].
  - split; [constructor | intros x; cbn; tauto].
  - destruct v as [| | b | y | t]; try discriminate. cbn [ToNumber isFiniteNumber] in *. split.
    + now constructor.
    + intros x. cbn [In]. rewrite IH2. split; intros [H | H]; auto; left; congruence.
Qed.

(** Within the bound of the host the two calls return. *)
Lemma getRangeStats_within (maxArguments : N) (values : list jsval) :
  (N.of_nat (length values) <=? maxArguments)%N = true ->
  getRangeStats maxArguments values
  = Done (match values with
          | [] => RangeStats JNull JNull JNull
          | _ =>
              let min := minOfArguments (List.map ToNumber values) in
              let max := maxOfArguments (List.map ToNumber values) in
              RangeStats (JNum min) (JNum (min + (max - min) / 2)%float) (JNum max)
          end).
Proof.
  intros H. destruct values as [| v values]; [reflexivity |].
  unfold getRangeStats, Math_min, Math_max, spreadArguments.
  rewrite length_map, H. reflexivity.
Qed.

(** Beyond it the first call throws. *)
Lemma getRangeStats_beyond (maxArguments : N) (values : list jsval) :
  (N.of_nat (length values) <=? maxArguments)%N = false ->
  getRangeStats maxArguments values = Throws.
Proof.
  intros H. destruct values as [| v values].
  - cbn in H. apply N.leb_gt in H. lia.
  - unfold getRangeStats, Math_min, spreadArguments. rewrite length_map, H. reflexivity.
Qed.

(** X7. Take a non-empty list of finite numbers.  When the host accepts that
    many arguments in a call, [getRangeStats] returns as [min] and [max] two
    members of the list, with every member between them, and as [mid] the
    number [min + (max - min) / 2]; when the list is longer than that, the
    call [Math.min(...values)] throws and [getRangeStats] with it. *)
Theorem getRangeStats_bounds (maxArguments : N) (values : list jsval) :
  values <> [] ->
  Forall (fun v => isFiniteNumber v = true) values ->
  if (N.of_nat (length values) <=? maxArguments)%N
  then exists lo hi,
         getRangeStats maxArguments values
         = Done (RangeStats (JNum lo) (JNum (lo + (hi - lo) / 2)%float) (JNum hi))
         /\ In (JNum lo) values /\ In (JNum hi) values
         /\ forall x, In (JNum x) values -> (lo <=? x)%float = true /\ (x <=? hi)%float = true
  else getRangeStats maxArguments values = Throws.
Proof.
  intros Hne Hf. destruct (N.of_nat (length values) <=? maxArguments)%N eqn:L;
    [| now apply getRangeStats_beyond].
  destruct (finite_numbers values Hf) as [Hfin Hin].
  assert (Hne' : List.map ToNumber values <> []) by (destruct values; [congruence | discriminate]).
  destruct (minOfArguments_finite _ Hne' Hfin) as [Hmin1 Hmin2].
  destruct (maxOfArguments_finite _ Hne' Hfin) as [Hmax1 Hmax2].
  exists (minOfArguments (List.map ToNumber values)), (maxOfArguments (List.map ToNumber values)).
  split; [rewrite (getRangeStats_within _ _ L); destruct values; [congruence | reflexivity] |].
  split; [now apply Hin |]. split; [now apply Hin |].
  intros x Hx%Hin. split; auto.
Qed.

Lemma getRangeStats_bounds_witness :
  (exists lo hi,
     getRangeStats sampleMaxArguments [JNum 3; JNum (-0); JNum 0; JNum 2.5]
     = Done (RangeStats (JNum lo) (JNum (lo + (hi - lo) / 2)%float) (JNum hi))
     /\ In (JNum lo) [JNum 3; JNum (-0); JNum 0; JNum 2.5]
     /\ In (JNum hi) [JNum 3; JNum (-0); JNum 0; JNum 2.5]
     /\ forall x, In (JNum x) [JNum 3; JNum (-0); JNum 0; JNum 2.5] ->
                  (lo <=? x)%float = true /\ (x <=? hi)%float = true)
  /\ getRangeStats 3 [JNum 3; JNum (-0); JNum 0; JNum 2.5] = Throws.
Proof.
  split.
  - apply (getRangeStats_bounds sampleMaxArguments [JNum 3; JNum (-0); JNum 0; JNum 2.5]).
    + discriminate.
    + repeat constructor.
  - apply (getRangeStats_bounds 3 [JNum 3; JNum (-0); JNum 0; JNum 2.5]).
    + discriminate.
    + repeat constructor.
Defined.

Example getRangeStats_zeros :
  getRangeStats sampleMaxArguments [JNum 0; JNum (-0)]
  = Done (RangeStats (JNum (-0)) (JNum 0) (JNum 0))
  /\ getRangeStats 0 [] = Done (RangeStats JNull JNull JNull).
Proof. split; vm_compute; reflexivity. Qed.

(** ** The census statistics *)

Lemma processFeature_members (table : gmap string float) (ft after : feature) (index : nat) :
  processFeature table ft index = Done after ->
  member "__riskRating" after = Done (js_or (rawRating ft) JNull)
  /\ member "__population" after = Done (parseNumericValue (rawPopulation ft))
  /\ exists p, member "__pred3PE" after = Done p
               /\ (p = JNull \/ exists x, p = JNum x /\ In x (map_to_list table).*2).
Proof.
  unfold processFeature.
  destruct (if truthy (prop (propertiesOrEmpty ft) geoidKey) then _ else _) as [p | |] eqn:E;
    cbn [mbind outcome_bind]; try discriminate.
  intros [= <-]. unfold member, rawRating, rawPopulation. cbn [fproperties].
  rewrite !prop_insert_ne by discriminate. rewrite prop_insert_eq.
  split; [reflexivity |].
  rewrite prop_insert_ne by discriminate. rewrite prop_insert_eq.
  split; [reflexivity |].
  rewrite prop_insert_eq. eexists. split; [reflexivity |].
  destruct (truthy (prop (propertiesOrEmpty ft) geoidKey)).
  - unfold lookupPred3PE in E. destruct (inheritedName _); [discriminate |].
    injection E as <-.
    destruct (table !! ToString (prop (propertiesOrEmpty ft) geoidKey)) as [x|] eqn:L.
    + right. exists x. split; [reflexivity |].
      apply list_elem_of_In, list_elem_of_fmap. exists (ToString (prop (propertiesOrEmpty ft) geoidKey), x).
      split; [reflexivity |]. now apply elem_of_map_to_list.
    + now left.
  - injection E as <-. now left.
Qed.

Lemma parseNumericValue_number (value : jsval) (x : float) :
  parseNumericValue value = JNum x -> Number_isFinite x = true.
Proof.
  unfold parseNumericValue.
  destruct value as [| | b | y | s]; try discriminate; cbn [isFiniteNumber].
  - destruct (Number_isFinite (StringToNumber _)) eqn:E; [| discriminate]. now intros [= <-].
  - destruct (Number_isFinite y) eqn:F; [now intros [= <-] |].
    destruct (Number_isFinite (StringToNumber _)) eqn:E; [| discriminate]. now intros [= <-].
  - destruct (Number_isFinite (StringToNumber _)) eqn:E; [| discriminate]. now intros [= <-].
Qed.

Lemma processFrom_members (table : gmap string float) (index : nat) (raw processed : list feature) :
  processFrom table index raw = Done processed ->
  length processed = length raw
  /\ mapO (member "__riskRating") processed
     = Done (List.map (fun ft => js_or (rawRating ft) JNull) raw)
  /\ mapO (member "__population") processed
     = Done (List.map (fun ft => parseNumericValue (rawPopulation ft)) raw)
  /\ exists ps, mapO (member "__pred3PE") processed = Done ps
                /\ Forall2 (fun after p => member "__pred3PE" after = Done p) processed ps.
Proof.
  revert index processed. induction raw as [| ft raw IH]; intros index processed; cbn [processFrom].
  - intros [= <-]. cbn. repeat split; try reflexivity. exists []. split; [reflexivity | constructor].
  - destruct (processFeature table ft index) as [after | |] eqn:E;
      cbn [mbind outcome_bind]; try discriminate.
    destruct (processFrom table (S index) raw) as [rest | |] eqn:R;
      cbn [mbind outcome_bind]; try discriminate.
    intros [= <-]. destruct (IH _ _ R) as (Hlen & Hrisk & Hpop & ps & Hps & Hall).
    destruct (processFeature_members _ _ _ _ E) as (H1 & H2 & p & H3 & _).
    cbn [mapO length List.map]. rewrite H1, H2, H3, Hrisk, Hpop, Hps, Hlen.
    cbn [mbind outcome_bind]. repeat split; try reflexivity.
    exists (p :: ps). split; [reflexivity | now constructor].
Qed.

Lemma filter_rated (raw : list feature) :
  List.filter notNullish (List.map (fun ft => js_or (rawRating ft) JNull) raw)
  = List.map (fun ft => js_or (rawRating ft) JNull)
             (List.filter (fun ft => truthy (rawRating ft)) raw).
Proof.
  rewrite filter_map_swap. f_equal. apply filter_ext. intros ft.
  unfold js_or, notNullish. destruct (truthy (rawRating ft)) eqn:T; [| reflexivity].
  now destruct (truthy_not_nullish _ T) as [-> ->].
Qed.

Lemma length_minus_filter {A : Type} (p : A -> bool) (l : list A) :
  (length l - length (List.filter p l))%nat = length (List.filter (fun x => negb (p x)) l).
Proof. pose proof (filter_length p l). lia. Qed.

Lemma In_mapO_member (key : string) (processed : list feature) (values : list jsval)
  (after : feature) (v : jsval) :
  mapO (member key) processed = Done values ->
  In after processed -> member key after = Done v -> In v values.
Proof.
  revert values. induction processed as [| ft processed IH]; intros values; [intros _ [] |].
  cbn [mapO]. destruct (member key ft) as [w | |] eqn:E; cbn [mbind outcome_bind]; try discriminate.
  destruct (mapO (member key) processed) as [ws | |]; cbn [mbind outcome_bind]; try discriminate.
  intros [= <-] [<- | Hin] Hv.
  - left. congruence.
  - right. now apply (IH ws).
Qed.

Lemma range_of_finite (maxArguments : N) (values : list jsval) (x : float) (range : rangeStats) :
  Forall (fun v => isFiniteNumber v = true) values ->
  In (JNum x) values ->
  getRangeStats maxArguments values = Done range ->
  exists lo hi,
    rmin range = JNum lo /\ rmax range = JNum hi
    /\ (lo <=? x)%float = true /\ (x <=? hi)%float = true.
Proof.
  intros Hf Hx Hr. destruct (finite_numbers values Hf) as [Hfin Hin].
  assert (Hne : List.map ToNumber values <> []).
  { destruct values; [destruct Hx | discriminate]. }
  destruct (minOfArguments_finite _ Hne Hfin) as [_ Hmin].
  destruct (maxOfArguments_finite _ Hne Hfin) as [_ Hmax].
  destruct (N.of_nat (length values) <=? maxArguments)%N eqn:L.
  - rewrite (getRangeStats_within _ _ L) in Hr. injection Hr as <-.
    exists (minOfArguments (List.map ToNumber values)), (maxOfArguments (List.map ToNumber values)).
    apply Hin in Hx. destruct values; [destruct Hx |]. repeat split; auto.
  - rewrite (getRangeStats_beyond _ _ L) in Hr. discriminate.
Qed.

Lemma Forall_filter_true {A : Type} (p : A -> bool) (l : list A) :
  Forall (fun x => p x = true) (List.filter p l).
Proof. apply Forall_forall. intros x Hx%list_elem_of_In%filter_In. tauto. Qed.

Lemma filter_length_le {A : Type} (p : A -> bool) (l : list A) :
  (length (List.filter p l) <= length l)%nat.
Proof. pose proof (filter_length p l). lia. Qed.

Lemma mapO_length {A B : Type} (f : A -> outcome B) (l : list A) (r : list B) :
  mapO f l = Done r -> length r = length l.
Proof.
  revert r. induction l as [| x l IH]; intros r; cbn [mapO]; [now intros [= <-] |].
  destruct (f x) as [y | |]; cbn [mbind outcome_bind]; try discriminate.
  destruct (mapO f l) as [ys | |]; cbn [mbind outcome_bind]; try discriminate.
  intros [= <-]. cbn [length]. now rewrite (IH ys eq_refl).
Qed.

(** X8. The census statistics of the processed tracts.  On a host that
    accepts as many arguments in a call as there are tracts, they are
    computed: [total] is the number of tracts; the tracts counted as rated
    are those with a truthy raw rating and [missingRisk] counts the others;
    [missingPopulation] counts the tracts whose raw population gives no
    finite number; and the [min] and [max] of the population and of the
    resilience percentage bracket every finite value a tract holds.  When
    more tracts have a finite population than the host accepts arguments,
    the computation throws. *)
Theorem census_statistics (maxArguments : N) (pred3PEData : gmap string float)
  (reprojected : featureCollection) (processed : list feature) :
  processedFeatures pred3PEData reprojected = Done processed ->
  let raw := default [] (features reprojected) in
  ((N.of_nat (length raw) <= maxArguments)%N ->
   exists st,
     statsPayload maxArguments processed = Done st
     /\ total st = length raw
     /\ ratingCount st = tractsWith (fun ft => truthy (rawRating ft)) raw
     /\ missingRisk st = tractsWith (fun ft => negb (truthy (rawRating ft))) raw
     /\ missingPopulation st
        = tractsWith (fun ft => negb (isFiniteNumber (parseNumericValue (rawPopulation ft)))) raw
     /\ (forall ft x, In ft raw -> parseNumericValue (rawPopulation ft) = JNum x ->
           exists lo hi,
             rmin (populationStats st) = JNum lo /\ rmax (populationStats st) = JNum hi
             /\ (lo <=? x)%float = true /\ (x <=? hi)%float = true)
     /\ (forall after x, In after processed -> member "__pred3PE" after = Done (JNum x) ->
           Number_isFinite x = true ->
           exists lo hi,
             rmin (pred3PEStats st) = JNum lo /\ rmax (pred3PEStats st) = JNum hi
             /\ (lo <=? x)%float = true /\ (x <=? hi)%float = true))
  /\ ((maxArguments
       < N.of_nat (tractsWith (fun ft => isFiniteNumber (parseNumericValue (rawPopulation ft)))
                              raw))%N ->
      statsPayload maxArguments processed = Throws).
Proof.
  intros Hp raw. unfold processedFeatures in Hp. fold raw in Hp.
  destruct (processFrom_members _ _ _ _ Hp) as (Hlen & Hrisk & Hpop & ps & Hps & Hall).
  pose proof (mapO_length _ _ _ Hps) as Hpslen.
  unfold statsPayload. rewrite Hrisk, Hpop, Hps. cbn [mbind outcome_bind]. split.
  - intros Hmax.
    set (populationValues :=
           List.filter isFiniteNumber
                       (List.map (fun ft => parseNumericValue (rawPopulation ft)) raw)).
    set (pred3PEValues := List.filter (fun value => notNullish value && isFiniteNumber value) ps).
    assert (L1 : (N.of_nat (length populationValues) <=? maxArguments)%N = true).
    { apply N.leb_le. pose proof (filter_length_le isFiniteNumber
        (List.map (fun ft => parseNumericValue (rawPopulation ft)) raw)) as H.
      rewrite length_map in H. fold populationValues in H. lia. }
    assert (L2 : (N.of_nat (length pred3PEValues) <=? maxArguments)%N = true).
    { apply N.leb_le. pose proof (filter_length_le
        (fun value => notNullish value && isFiniteNumber value) ps) as H.
      fold pred3PEValues in H. lia. }
    pose proof (getRangeStats_within _ _ L1) as R1.
    pose proof (getRangeStats_within _ _ L2) as R2.
    rewrite R1, R2. cbn [mbind outcome_bind].
    eexists. split; [reflexivity |]. cbn [total ratingCount missingRisk missingPopulation
                                          populationStats pred3PEStats].
    rewrite Hlen, filter_rated, length_map. unfold tractsWith.
    split; [reflexivity |]. split; [reflexivity |].
    split; [apply length_minus_filter |].
    split; [unfold populationValues; rewrite filter_map_swap, length_map;
            apply length_minus_filter |]. split.
    + intros ft x Hft Hx.
      apply (range_of_finite maxArguments populationValues x); [apply Forall_filter_true | | exact R1].
      apply filter_In. split.
      * apply in_map_iff. exists ft. now split.
      * cbn. eapply parseNumericValue_number, Hx.
    + intros after x Hafter Hx Hfin.
      apply (range_of_finite maxArguments pred3PEValues x); [| | exact R2].
      * eapply Forall_impl; [apply Forall_filter_true |].
        cbn. now intros v [_ ?]%andb_prop.
      * apply filter_In. split; [eapply In_mapO_member; eassumption |].
        cbn. now rewrite Hfin.
  - intros Hmax. unfold tractsWith in Hmax.
    rewrite (getRangeStats_beyond maxArguments (List.filter isFiniteNumber _));
      [reflexivity |].
    apply N.leb_gt. rewrite filter_map_swap, length_map. exact Hmax.
Qed.

Lemma sameValueZero_text (v : jsval) (s : string) :
  sameValueZero v (JStr s) = true <-> v = JStr s.
Proof.
  destruct v as [| | b | x | t]; cbn; try (split; [discriminate | congruence]).
  rewrite bool_decide_eq_true. split; congruence.
Qed.

Lemma includes_text (l : list jsval) (s : string) :
  includes l (JStr s) = true <-> In (JStr s) l.
Proof.
  rewrite includes_exists. split.
  - intros (t & Ht & ->%sameValueZero_text). exact Ht.
  - intros H. exists (JStr s). split; [exact H | now apply sameValueZero_text].
Qed.

Lemma setValues_text (seen values : list jsval) (s : string) :
  In (JStr s) (setValues seen values) <-> In (JStr s) seen \/ In (JStr s) values.
Proof.
  revert seen. induction values as [| v values IH]; intros seen; cbn [setValues In].
  - tauto.
  - destruct (includes seen v) eqn:E.
    + rewrite IH. split; [tauto |]. intros [H | [-> | H]]; auto.
      left. now apply includes_text.
    + rewrite IH, in_app_iff. cbn [In]. tauto.
Qed.

Lemma mapO_member_In (key : string) (processed : list feature) (values : list jsval) (v : jsval) :
  mapO (member key) processed = Done values ->
  In v values <-> exists after, In after processed /\ member key after = Done v.
Proof.
  revert values. induction processed as [| ft processed IH]; intros values; cbn [mapO].
  - intros [= <-]. split; [intros [] | intros (? & [] & _)].
  - destruct (member key ft) as [w | |] eqn:E; cbn [mbind outcome_bind]; try discriminate.
    destruct (mapO (member key) processed) as [ws | |]; cbn [mbind outcome_bind]; try discriminate.
    intros [= <-]. cbn [In]. rewrite (IH ws eq_refl). split.
    + intros [<- | (after & H1 & H2)]; eauto.
    + intros (after & [<- | H1] & H2); [left; congruence | right; eauto].
Qed.

Lemma filter_sublist {A : Type} (p : A -> bool) (l : list A) : sublist (List.filter p l) l.
Proof.
  induction l as [| x l IH]; cbn [List.filter]; [constructor |].
  destruct (p x); now constructor.
Qed.

(** X9. The legend of the risk layer lists exactly the five known ratings that
    some processed tract carries, in the order of severity; a rating that is
    not one of the five is never listed. *)
Theorem legend_ratings (maxArguments : N) (processed : list feature) (st : censusStats) :
  statsPayload maxArguments processed = Done st ->
  sublist (sortedRatings (Some st)) knownRatings
  /\ forall rating,
       In rating (sortedRatings (Some st))
       <-> In rating knownRatings
           /\ exists after, In after processed
                            /\ member "__riskRating" after = Done (JStr rating).
Proof.
  unfold statsPayload.
  destruct (mapO (member "__riskRating") processed) as [risk | |] eqn:R;
    cbn [mbind outcome_bind]; try discriminate.
  destruct (mapO (member "__population") processed) as [pop | |];
    cbn [mbind outcome_bind]; try discriminate.
  destruct (mapO (member "__pred3PE") processed) as [p3 | |];
    cbn [mbind outcome_bind]; try discriminate.
  destruct (getRangeStats maxArguments (List.filter isFiniteNumber pop)) as [r1 | |];
    cbn [mbind outcome_bind]; try discriminate.
  destruct (getRangeStats maxArguments _) as [r2 | |];
    cbn [mbind outcome_bind]; try discriminate.
  intros [= <-]. unfold sortedRatings. cbn [ratings]. split.
  - apply filter_sublist.
  - intros rating. rewrite filter_In, includes_text, setValues_text, filter_In.
    rewrite (mapO_member_In _ _ _ _ R). cbn [In notNullish strictEq negb andb]. tauto.
Qed.

Lemma census_statistics_witness :
  (exists st,
     statsPayload sampleMaxArguments sampleProcessed = Done st
     /\ total st = 1%nat /\ missingRisk st = 0%nat)
  /\ statsPayload 0 sampleProcessed = Throws.
Proof.
  split.
  - destruct (proj1 (census_statistics sampleMaxArguments sampleTable
                       (FeatureCollection (Some [sampleTract])) sampleProcessed eq_refl))
      as (st & H1 & H2 & _ & H4 & _).
    + vm_compute. discriminate.
    + exists st. split; [exact H1 |]. split; [exact H2 | exact H4].
  - apply (proj2 (census_statistics 0 sampleTable
                    (FeatureCollection (Some [sampleTract])) sampleProcessed eq_refl)).
    vm_compute. reflexivity.
Defined.

Lemma legend_ratings_witness :
  sublist (sortedRatings (Some sampleStats)) knownRatings
  /\ forall rating,
       In rating (sortedRatings (Some sampleStats))
       <-> In rating knownRatings
           /\ exists after, In after sampleProcessed
                            /\ member "__riskRating" after = Done (JStr rating).
Proof.
  apply (legend_ratings sampleMaxArguments sampleProcessed sampleStats).
  vm_compute. reflexivity.
Defined.

(** ** The values offered by the filters *)

Lemma rank_inj (x y : spec_float) :
  rank x = rank y -> (forall s, x <> S754_zero s) -> x <> S754_nan -> y <> S754_nan -> x = y.
Proof.
  intros H Hz Hx Hy.
  destruct x as [s | [] | | [] m e], y as [t | [] | | [] n f]; cbn in H; try congruence;
    try (exfalso; eapply Hz; reflexivity); try (injection H; intros; lia).
  all: injection H as H1 H2; f_equal; lia.
Qed.

Lemma eqb_level (x y : float) :
  (x =? y)%float = true <->
  PrimFloat.is_nan x = false /\ PrimFloat.is_nan y = false /\ level x y.
Proof.
  rewrite FloatAxioms.eqb_spec, !is_nan_false. unfold SFeqb, level. split.
  - intros H.
    assert (Hx : Prim2SF x <> S754_nan) by (intros E; rewrite E in H; discriminate).
    assert (Hy : Prim2SF y <> S754_nan).
    { intros E; rewrite E in H. now destruct (Prim2SF x). }
    pose proof (SFcompare_rank _ _ Hx Hy) as R.
    destruct (SFcompare _ _) as [[]|]; try discriminate. auto.
  - intros (Hx & Hy & L). pose proof (SFcompare_rank _ _ Hx Hy) as R.
    destruct (SFcompare _ _) as [[]|]; try reflexivity; unfold lexLt in R;
      try rewrite L in R; try lia.
Qed.

Lemma strictEq_eq (a b : jsval) : truthy a = true -> (strictEq a b = true <-> a = b).
Proof.
  destruct a as [| | x | x | s], b as [| | y | y | t]; cbn [truthy strictEq];
    try (intros _; split; [discriminate | congruence]); try discriminate.
  - intros _. destruct x, y; cbn; split; congruence.
  - intros [Hn Hz]%negb_true_iff%orb_false_elim. rewrite eqb_level. split.
    + intros (_ & Hy & L). f_equal.
      rewrite <- (SF2Prim_Prim2SF x), <- (SF2Prim_Prim2SF y). f_equal.
      apply rank_inj; [exact L | | now apply is_nan_false | now apply is_nan_false].
      intros s E. assert (PrimFloat.is_zero x = true) by (apply is_zero_spec; eauto). congruence.
    + intros [= <-]. repeat split; auto.
  - intros _. rewrite bool_decide_eq_true. split; congruence.
Qed.

Lemma string_leb_trans (a b c : string) :
  String.leb a b = true -> String.leb b c = true -> String.leb a c = true.
Proof.
  unfold String.leb. revert b c.
  induction a as [| x a IH]; intros [| y b] [| z c]; cbn; try congruence.
  unfold Ascii.compare.
  destruct (N.compare_spec (N_of_ascii x) (N_of_ascii y)),
           (N.compare_spec (N_of_ascii y) (N_of_ascii z)),
           (N.compare_spec (N_of_ascii x) (N_of_ascii z));
    try lia; try congruence. apply IH.
Qed.

Lemma string_ltb_leb (a b : string) : String.ltb a b = true -> String.leb a b = true.
Proof. unfold String.ltb, String.leb. now destruct (String.compare a b). Qed.

Lemma string_not_ltb_leb (a b : string) : String.ltb b a = false -> String.leb a b = true.
Proof.
  unfold String.ltb, String.leb. rewrite (String.compare_antisym b a).
  now destruct (String.compare a b).
Qed.

Lemma insertValue_perm (a : jsval) (l : list jsval) : insertValue a l ≡ₚ a :: l.
Proof.
  induction l as [| b l IH]; cbn [insertValue]; [reflexivity |].
  destruct (String.ltb (ToString b) (ToString a)); [| reflexivity].
  rewrite IH. apply Permutation_swap.
Qed.

Lemma sortDefault_perm (l : list jsval) : sortDefault l ≡ₚ l.
Proof.
  induction l as [| a l IH]; [reflexivity |].
  cbn [sortDefault List.fold_right]. fold (sortDefault l).
  rewrite insertValue_perm, IH. reflexivity.
Qed.

Lemma insertValue_sorted (a : jsval) (l : list jsval) :
  StronglySorted textOrder l -> StronglySorted textOrder (insertValue a l).
Proof.
  induction 1 as [| b l Hl IH Hb]; cbn [insertValue].
  - repeat constructor.
  - destruct (String.ltb (ToString b) (ToString a)) eqn:E.
    + constructor; [exact IH |].
      rewrite (insertValue_perm a l). constructor; [| exact Hb].
      now apply string_ltb_leb.
    + apply string_not_ltb_leb in E. constructor; [now constructor |].
      constructor; [exact E |].
      eapply Forall_impl; [exact Hb |]. intros c Hc. eapply string_leb_trans; eassumption.
Qed.

Lemma sortDefault_sorted (l : list jsval) : StronglySorted textOrder (sortDefault l).
Proof.
  induction l as [| a l IH]; [constructor |].
  cbn [sortDefault List.fold_right]. now apply insertValue_sorted.
Qed.

Lemma firstIndexFrom_here (v : jsval) (pre rest : list jsval) (i : nat) :
  Forall (fun x => truthy x = true) pre -> truthy v = true ->
  firstIndexFrom v (pre ++ v :: rest) i = Some (i + length pre)%nat <-> ~ In v pre.
Proof.
  intros Hpre Hv. revert i. induction Hpre as [| x pre Hx _ IH]; intros i; cbn [app firstIndexFrom length In].
  - rewrite (proj2 (strictEq_eq v v Hv) eq_refl). rewrite Nat.add_0_r. tauto.
  - destruct (strictEq x v) eqn:E.
    + apply (strictEq_eq x v Hx) in E. split; [intros [= H]; lia | tauto].
    + assert (x <> v) by (intros H%(strictEq_eq x v Hx); congruence).
      replace (i + S (length pre))%nat with (S i + length pre)%nat by lia.
      rewrite IH. tauto.
Qed.

Lemma firstOccurrences_spec (pre rest : list jsval) :
  Forall (fun x => truthy x = true) (pre ++ rest) ->
  NoDup (firstOccurrences (pre ++ rest) rest (length pre))
  /\ forall v, In v (firstOccurrences (pre ++ rest) rest (length pre))
               <-> In v rest /\ ~ In v pre.
Proof.
  revert pre. induction rest as [| w rest IH]; intros pre Hall; cbn [firstOccurrences].
  - split; [constructor | cbn; tauto].
  - apply Forall_app in Hall as Hsplit. destruct Hsplit as [Hpre Hrest].
    apply Forall_cons in Hrest as [Hw Hrest].
    specialize (IH (pre ++ [w])). rewrite <- app_assoc in IH. cbn [app] in IH.
    rewrite length_app, Nat.add_1_r in IH. destruct (IH Hall) as [IHdup IHin]. clear IH.
    pose proof (firstIndexFrom_here w pre rest 0 Hpre Hw) as Hhere. cbn [Nat.add] in Hhere.
    destruct (bool_decide (firstIndexFrom w (pre ++ w :: rest) 0 = Some (length pre))) eqn:B.
    + apply bool_decide_eq_true_1, Hhere in B. split.
      * apply NoDup_cons. split; [| exact IHdup].
        rewrite list_elem_of_In, IHin, in_app_iff. cbn. tauto.
      * intros v. cbn [In]. rewrite IHin, in_app_iff. cbn [In].
        destruct (decide (w = v)) as [<- | Hne]; tauto.
    + apply bool_decide_eq_false_1 in B. rewrite Hhere in B. split; [exact IHdup |].
      intros v. cbn [In]. rewrite IHin, in_app_iff. cbn [In].
      destruct (decide (w = v)) as [<- | Hne]; tauto.
Qed.

Lemma mapO_In {A B : Type} (f : A -> outcome B) (l : list A) (r : list B) (y : B) :
  mapO f l = Done r -> In y r <-> exists x, In x l /\ f x = Done y.
Proof.
  revert r. induction l as [| a l IH]; intros r; cbn [mapO].
  - intros [= <-]. split; [intros [] | intros (? & [] & _)].
  - destruct (f a) as [b | |] eqn:E; cbn [mbind outcome_bind]; try discriminate.
    destruct (mapO f l) as [bs | |]; cbn [mbind outcome_bind]; try discriminate.
    intros [= <-]. cbn [In]. rewrite (IH bs eq_refl). split.
    + intros [<- | (x & H1 & H2)]; eauto.
    + intros (x & [<- | H1] & H2); [left; congruence | right; eauto].
Qed.

Lemma keptValue (v : jsval) :
  truthy v && negb (strictEq v JNull) && negb (strictEq v JUndefined)
  && negb (strictEq v (JStr "Null")) = true
  <-> truthy v = true /\ v <> JStr "Null".
Proof.
  destruct (truthy v) eqn:T; cbn [andb]; [| split; [discriminate | intros [? _]; discriminate]].
  destruct (truthy_not_nullish v T) as [-> ->]. cbn [negb andb].
  rewrite negb_true_iff. split.
  - intros H. split; [reflexivity |]. intros E%(strictEq_eq v _ T). congruence.
  - intros [_ H]. destruct (strictEq v (JStr "Null")) eqn:E; [| reflexivity].
    now apply (strictEq_eq v _ T) in E.
Qed.

Lemma getUniqueValues_In (allProjectsData : option featureCollection) (field : string)
  (fs : list feature) (values : list jsval) (v : jsval) :
  featuresOf allProjectsData = Some fs ->
  getUniqueValues allProjectsData field = Done values ->
  In v values
  <-> truthy v = true /\ v <> JStr "Null"
      /\ exists f, In f fs /\ uniqueValue field f = Done v.
Proof.
  intros Hfs. unfold getUniqueValues. rewrite Hfs.
  destruct (inheritedName field); [discriminate |].
  destruct (mapO (uniqueValue field) fs) as [all | |] eqn:M; cbn [mbind outcome_bind];
    try discriminate.
  intros [= <-].
  set (kept := List.filter _ all).
  assert (Hkept : Forall (fun x => truthy x = true) kept).
  { apply Forall_forall. intros x [_ Hx%keptValue]%list_elem_of_In%filter_In. tauto. }
  destruct (firstOccurrences_spec [] kept Hkept) as [_ Hin]. cbn [app length] in Hin.
  rewrite <- list_elem_of_In, sortDefault_perm, list_elem_of_In, Hin.
  unfold kept. rewrite filter_In, keptValue, (mapO_In _ _ _ _ M). cbn [In]. tauto.
Qed.

(** X10. The values [getUniqueValues] offers for a field are exactly the
    values the features hold there (a city trimmed) that are truthy and are
    not the text "Null"; each is offered once, and they come sorted by their
    text. *)
Theorem getUniqueValues_offered (allProjectsData : option featureCollection) (field : string)
  (fs : list feature) (values : list jsval) :
  featuresOf allProjectsData = Some fs ->
  getUniqueValues allProjectsData field = Done values ->
  StronglySorted textOrder values
  /\ NoDup values
  /\ forall v, In v values
               <-> truthy v = true /\ v <> JStr "Null"
                   /\ exists f, In f fs /\ uniqueValue field f = Done v.
Proof.
  intros Hfs Hget. split; [| split].
  - revert Hget. unfold getUniqueValues. rewrite Hfs.
    destruct (inheritedName field); [discriminate |].
    destruct (mapO (uniqueValue field) fs) as [all | |]; cbn [mbind outcome_bind];
      try discriminate.
    intros [= <-]. apply sortDefault_sorted.
  - revert Hget. unfold getUniqueValues. rewrite Hfs.
    destruct (inheritedName field); [discriminate |].
    destruct (mapO (uniqueValue field) fs) as [all | |]; cbn [mbind outcome_bind];
      try discriminate.
    intros [= <-]. rewrite sortDefault_perm.
    set (kept := List.filter _ all).
    apply (firstOccurrences_spec [] kept).
    apply Forall_forall. cbn [app]. intros x [_ Hx%keptValue]%list_elem_of_In%filter_In. tauto.
  - intros v. now apply (getUniqueValues_In allProjectsData field fs values v).
Qed.

Lemma getUniqueValues_offered_witness :
  StronglySorted textOrder [JStr "Doral"; JStr "Miami"]
  /\ NoDup [JStr "Doral"; JStr "Miami"]
  /\ forall v, In v [JStr "Doral"; JStr "Miami"]
               <-> truthy v = true /\ v <> JStr "Null"
                   /\ exists f, In f sampleProjects /\ uniqueValue "NAME" f = Done v.
Proof.
  apply (getUniqueValues_offered (Some (FeatureCollection (Some sampleProjects))) "NAME").
  - reflexivity.
  - vm_compute. reflexivity.
Defined.

Lemma optProp_prop (f : feature) (key : string) :
  optProp f key = prop (propertiesOrEmpty f) key.
Proof. unfold optProp, propertiesOrEmpty. now destruct (fproperties f). Qed.

Lemma featureCity_or (f : feature) :
  js_or (optProp f "NAME") (optProp f "City") = featureCity f.
Proof. rewrite !optProp_prop. reflexivity. Qed.

Lemma uniqueValue_city (f : feature) (v : jsval) :
  truthy v = true ->
  uniqueValue "NAME" f = Done v
  <-> exists city, featureCity f = JStr city /\ v = JStr (trim city).
Proof.
  intros Hv. unfold uniqueValue. cbn [isCityField bool_decide]. rewrite featureCity_or.
  replace (isCityField "NAME") with true by reflexivity. cbn [andb].
  destruct (truthy (featureCity f)) eqn:T.
  - destruct (featureCity f) as [| | b | x | s]; cbn [js_trim]; try discriminate.
    + split; [discriminate | intros (c & [=] & _)].
    + split; [discriminate | intros (c & [=] & _)].
    + split.
      * intros [= <-]. eauto.
      * intros (c & [= <-] & ->). reflexivity.
  - split.
    + intros [= <-]. congruence.
    + intros (c & E & ->). rewrite E in T. cbn [truthy] in *.
      apply negb_false_iff, bool_decide_eq_true_1 in T. subst c. discriminate.
Qed.

(** X11. The cities of the dropdown.  Each is a text that is not empty, is
    trimmed, and is the trimmed city of some project; so selecting it alone
    leaves that project visible, and the selection is one the filter compares
    as it stands.  Conversely the trimmed city of a project is offered, unless
    it is empty or the text "Null". *)
Theorem uniqueCities_selectable (allProjectsData : option featureCollection)
  (fs : list feature) (uniqueCities : list jsval) :
  featuresOf allProjectsData = Some fs ->
  getUniqueValues allProjectsData "NAME" = Done uniqueCities ->
  (forall v, In v uniqueCities ->
     exists city,
       v = JStr city /\ allWhiteSpace city = false /\ trim city = city
       /\ exists f, In f fs /\ visible (FilterSelection [] [] city) f = true)
  /\ (forall f city, In f fs -> featureCity f = JStr city ->
        trim city <> "" -> trim city <> "Null" -> In (JStr (trim city)) uniqueCities).
Proof.
  intros Hfs Hget. split.
  - intros v (Hv & _ & f & Hf & Hu)%(getUniqueValues_In _ _ _ _ _ Hfs Hget).
    apply (uniqueValue_city f v Hv) in Hu as (c & Hc & ->).
    exists (trim c). split; [reflexivity |]. split.
    + destruct (allWhiteSpace (trim c)) eqn:W; [| reflexivity].
      apply trim_blank_iff in W. rewrite trim_idem in W. rewrite W in Hv. discriminate.
    + split; [apply trim_idem |]. exists f. split; [exact Hf |].
      unfold visible. cbn [selectedTypes selectedDisasterFocus selectedCity].
      rewrite Hc, trim_idem. cbn [orb andb].
      rewrite (bool_decide_eq_true_2 (trim c = trim c) eq_refl). apply orb_true_r.
  - intros f c Hf Hc Hne Hnull.
    assert (Hv : truthy (JStr (trim c)) = true).
    { cbn [truthy]. now rewrite bool_decide_eq_false_2. }
    apply (getUniqueValues_In _ _ _ _ _ Hfs Hget). split; [exact Hv |]. split; [congruence |].
    exists f. split; [exact Hf |]. apply (uniqueValue_city f _ Hv). eauto.
Qed.

Lemma uniqueCities_selectable_witness :
  (forall v, In v [JStr "Doral"; JStr "Miami"] ->
     exists city,
       v = JStr city /\ allWhiteSpace city = false /\ trim city = city
       /\ exists f, In f sampleProjects /\ visible (FilterSelection [] [] city) f = true)
  /\ (forall f city, In f sampleProjects -> featureCity f = JStr city ->
        trim city <> "" -> trim city <> "Null" ->
        In (JStr (trim city)) [JStr "Doral"; JStr "Miami"]).
Proof.
  apply (uniqueCities_selectable (Some (FeatureCollection (Some sampleProjects)))).
  - reflexivity.
  - vm_compute. reflexivity.
Defined.

(** ** Points and districts *)

Lemma districtLoop_parity (lng lat : float) (rest : list (float * float))
  (vj : float * float) (inside : bool) :
  districtLoop lng lat rest vj inside
  = xorb inside (oddCrossings lng lat (edgesFrom vj rest)).
Proof.
  revert vj inside. induction rest as [| vi rest IH]; intros vj inside;
    cbn [districtLoop edgesFrom].
  - cbn. now rewrite xorb_false_r.
  - rewrite IH. unfold oddCrossings. cbn [List.fold_right fst snd].
    destruct (intersect lng lat vi vj), inside, (List.fold_right _ false _); reflexivity.
Qed.

Lemma oddCrossings_app (lng lat : float) (a b : list ((float * float) * (float * float))) :
  oddCrossings lng lat (a ++ b) = xorb (oddCrossings lng lat a) (oddCrossings lng lat b).
Proof.
  induction a as [| e a IH]; [reflexivity |].
  cbn [app]. unfold oddCrossings in *. cbn [List.fold_right]. rewrite IH.
  now rewrite xorb_assoc.
Qed.

Lemma edgesFrom_app (vj : float * float) (a b : list (float * float)) :
  edgesFrom vj (a ++ b) = edgesFrom vj a ++ edgesFrom (default vj (last a)) b.
Proof.
  revert vj. induction a as [| v a IH]; intros vj; cbn; [reflexivity |].
  rewrite IH. f_equal. f_equal. f_equal. destruct a as [| w a]; [reflexivity |].
  cbn. now destruct (last (w :: a)) eqn:E; [| apply last_None in E].
Qed.

Lemma intersect_same (lng lat : float) (v : float * float) : intersect lng lat v v = false.
Proof. destruct v as [x y]. cbn. now rewrite eqb_reflx. Qed.

Lemma isPointInDistrict_parity (lng lat : float) (v : float * float)
  (ring : list (float * float)) :
  isPointInDistrict (lng, lat) (v :: ring)
  = oddCrossings lng lat (edgesFrom (default v (last ring)) (v :: ring)).
Proof.
  unfold isPointInDistrict.
  assert (last (v :: ring) = Some (default v (last ring))) as ->.
  { destruct ring as [| w ring]; [reflexivity |]. cbn.
    destruct (last (w :: ring)) eqn:E; [reflexivity | now apply last_None in E]. }
  now rewrite districtLoop_parity.
Qed.

Lemma isPointInDistrict_edges (lng lat : float) (ring : list (float * float))
  (vlast : float * float) :
  last ring = Some vlast ->
  isPointInDistrict (lng, lat) ring = oddCrossings lng lat (edgesFrom vlast ring).
Proof. intros H. unfold isPointInDistrict. now rewrite H, districtLoop_parity. Qed.

Lemma last_is_Some {A : Type} (x : A) (l : list A) : exists y, last (x :: l) = Some y.
Proof.
  destruct (last (x :: l)) as [y |] eqn:E; [eauto |]. now apply last_None in E.
Qed.

Lemma ltb_nan_l (x y : float) : PrimFloat.is_nan x = true -> (x <? y)%float = false.
Proof.
  intros H%is_nan_spec. rewrite ltb_spec. unfold SFltb. now rewrite H.
Qed.

Lemma oddCrossings_none (lng lat : float) (edges : list ((float * float) * (float * float))) :
  Forall (fun e => intersect lng lat e.1 e.2 = false) edges ->
  oddCrossings lng lat edges = false.
Proof.
  induction 1 as [| e edges He _ IH]; [reflexivity |].
  unfold oddCrossings in *. cbn [List.fold_right]. now rewrite He, IH.
Qed.

(** X12. [isPointInDistrict] reads its ring as a cycle: an empty ring holds no
    point; writing the first vertex again at the end (a closed ring) changes
    nothing; nor does starting the ring at another vertex.  A point whose
    latitude is [NaN] is in no district. *)
Theorem isPointInDistrict_ring (point : float * float) :
  isPointInDistrict point [] = false
  /\ (forall v ring,
        isPointInDistrict point (v :: ring ++ [v]) = isPointInDistrict point (v :: ring))
  /\ (forall a b, isPointInDistrict point (a ++ b) = isPointInDistrict point (b ++ a))
  /\ (PrimFloat.is_nan point.2 = true -> forall ring, isPointInDistrict point ring = false).
Proof.
  destruct point as [lng lat]. split; [reflexivity |]. split; [| split].
  - intros v ring. destruct (last_is_Some v ring) as [vl Hvl].
    rewrite (isPointInDistrict_edges lng lat (v :: ring) vl Hvl).
    rewrite (isPointInDistrict_edges lng lat (v :: ring ++ [v]) v).
    + change (v :: ring ++ [v]) with ((v :: ring) ++ [v]).
      rewrite edgesFrom_app, Hvl. cbn [default edgesFrom].
      rewrite oddCrossings_app. unfold oddCrossings. cbn [List.fold_right fst snd].
      rewrite intersect_same. cbn [xorb].
      unfold id. now destruct (intersect lng lat v vl), (List.fold_right _ false _).
    + change (v :: ring ++ [v]) with ((v :: ring) ++ [v]). now rewrite last_snoc.
  - intros [| va a] [| vb b]; rewrite ?app_nil_r; try reflexivity.
    destruct (last_is_Some va a) as [la Hla], (last_is_Some vb b) as [lb Hlb].
    rewrite (isPointInDistrict_edges lng lat ((va :: a) ++ vb :: b) lb),
            (isPointInDistrict_edges lng lat ((vb :: b) ++ va :: a) la).
    + rewrite !edgesFrom_app, Hla, Hlb, !oddCrossings_app. cbn [default]. unfold id.
      apply xorb_comm.
    + now rewrite last_app, Hla.
    + now rewrite last_app, Hlb.
  - cbn [snd]. intros Hnan ring. destruct ring as [| v ring]; [reflexivity |].
    destruct (last_is_Some v ring) as [vl Hvl].
    rewrite (isPointInDistrict_edges lng lat (v :: ring) vl Hvl).
    apply oddCrossings_none, Forall_forall. intros [[xi yi] [xj yj]] _. cbn.
    now rewrite !(ltb_nan_l lat) by exact Hnan.
Qed.

(** ** Marker colours *)

Lemma numberText_app (s t : string) : numberText s -> numberText t -> numberText (s +:+ t).
Proof.
  intros Hs Ht c. rewrite hasChar_app. intros [H | H]%orb_prop; auto.
Qed.

Lemma numberText_literal (s : string) :
  forallb numberChar (list_ascii_of_string s) = true -> numberText s.
Proof.
  induction s as [| d s IH]; cbn [list_ascii_of_string forallb]; intros H c; [discriminate |].
  apply andb_prop in H as [Hd Hs]. cbn [hasChar].
  intros [E | E]%orb_prop; [apply bool_decide_eq_true_1 in E; now subst | now apply IH].
Qed.

Lemma numberText_digitsOf (k : nat) (s : Z) : numberText (digitsOf k s).
Proof.
  revert s. induction k as [| k IH]; intros s; cbn [digitsOf]; [intros c; discriminate |].
  apply numberText_app; [apply IH |]. apply numberText_literal.
  cbn [list_ascii_of_string forallb]. rewrite andb_true_r.
  pose proof (Z.mod_pos_bound s 10 ltac:(lia)) as B.
  assert (s mod 10 = 0 \/ s mod 10 = 1 \/ s mod 10 = 2 \/ s mod 10 = 3 \/ s mod 10 = 4
          \/ s mod 10 = 5 \/ s mod 10 = 6 \/ s mod 10 = 7 \/ s mod 10 = 8 \/ s mod 10 = 9)%Z
    as [-> | [-> | [-> | [-> | [-> | [-> | [-> | [-> | [-> | ->]]]]]]]]] by lia;
    reflexivity.
Qed.

Lemma numberText_zeros (n : nat) : numberText (zeros n).
Proof.
  induction n as [| n IH]; intros c; cbn [zeros hasChar]; [discriminate |].
  intros [E | E]%orb_prop; [apply bool_decide_eq_true_1 in E; now subst | now apply IH].
Qed.

Lemma numberText_takeStr (n : nat) (s : string) : numberText s -> numberText (takeStr n s).
Proof.
  revert s. induction n as [| n IH]; intros [| d s] H c; cbn [takeStr hasChar]; try discriminate.
  intros [E | E]%orb_prop.
  - apply H. cbn [hasChar]. now rewrite E.
  - apply (IH s); [| exact E]. intros c' Hc'. apply H. cbn [hasChar]. now rewrite Hc', orb_true_r.
Qed.

Lemma numberText_dropStr (n : nat) (s : string) : numberText s -> numberText (dropStr n s).
Proof.
  revert s. induction n as [| n IH]; intros [| d s] H; cbn [dropStr]; try exact H.
  apply IH. intros c Hc. apply H. cbn [hasChar]. now rewrite Hc, orb_true_r.
Qed.

Lemma numberText_naturalToString (z : Z) : numberText (naturalToString z).
Proof.
  unfold naturalToString. destruct (z <=? 0)%Z; [now apply numberText_literal |].
  apply numberText_digitsOf.
Qed.

Lemma numberText_positiveToString (x : float) (m : positive) (e : Z) :
  numberText (positiveToString x m e).
Proof.
  unfold positiveToString.
  destruct (shortestDigits _ _ _ _ _ _) as [[n k] s].
  pose proof (numberText_digitsOf (Z.to_nat k) s) as Hds.
  assert (Hex : numberText ((if (0 <=? n - 1)%Z then "+" else "-")
                            +:+ naturalToString (Z.abs (n - 1)))).
  { apply numberText_app; [| apply numberText_naturalToString].
    destruct (0 <=? n - 1)%Z; now apply numberText_literal. }
  repeat match goal with
         | |- numberText (if ?b then _ else _) => destruct b
         | |- numberText (_ +:+ _) => apply numberText_app
         | |- numberText (takeStr _ _) => apply numberText_takeStr
         | |- numberText (dropStr _ _) => apply numberText_dropStr
         | |- numberText (zeros _) => apply numberText_zeros
         | |- numberText (digitsOf _ _) => exact Hds
         | |- numberText (naturalToString _) => apply numberText_naturalToString
         | |- numberText _ => now apply numberText_literal
         end.
Qed.

Lemma numberText_toString (x : float) : numberText (Number_toString x).
Proof.
  unfold Number_toString. destruct (Prim2SF x) as [s | s | | s m e].
  - now apply numberText_literal.
  - destruct s; now apply numberText_literal.
  - now apply numberText_literal.
  - apply numberText_app; [destruct s; now apply numberText_literal |].
    apply numberText_positiveToString.
Qed.

(** The text of a number is the name of no palette colour. *)
Lemma number_not_palette (x : float) (name : string) :
  In name ["Blue"; "Green"; "Hybrid"] -> Number_toString x <> name.
Proof.
  intros Hname E. pose proof (numberText_toString x) as H. rewrite E in H.
  destruct Hname as [<- | [<- | [<- | []]]].
  - specialize (H "B"%char eq_refl). discriminate.
  - specialize (H "G"%char eq_refl). discriminate.
  - specialize (H "H"%char eq_refl). discriminate.
Qed.

Lemma colorOf_other (name : string) :
  ~ In name ["Blue"; "Green"; "Hybrid"] -> inheritedName name = false ->
  colorOf name = Colour "#95a5a6".
Proof.
  intros H Hkey. unfold colorOf. rewrite Hkey.
  repeat match goal with
         | |- context [bool_decide (name = ?a)] =>
             destruct (bool_decide (name = a)) eqn:E;
             [apply bool_decide_eq_true in E; subst name; try reflexivity;
              exfalso; apply H; simpl; tauto
             | clear E]
         end.
  reflexivity.
Qed.

Lemma colorOf_member (name : string) :
  inheritedName name = true -> colorOf name = InheritedMember name.
Proof.
  intros H. unfold colorOf. rewrite H.
  repeat match goal with
         | |- context [bool_decide (name = ?a)] =>
             destruct (bool_decide (name = a)) eqn:E;
             [apply bool_decide_eq_true in E; subst name; discriminate H | clear E]
         end.
  reflexivity.
Qed.

Lemma markerColor_featureType (ft : feature) (properties : gmap string jsval) :
  fproperties ft = Some properties ->
  markerColor properties = getMarkerColor (featureType ft).
Proof.
  intros H. unfold markerColor, featureType, propertiesOrEmpty. rewrite H.
  cbn [resolveField default]. now rewrite js_or_chain.
Qed.

(** The marker of a type that is no known synonym is grey; the names of the
    members of [Object.prototype] are no synonyms. *)
Lemma getMarkerColor_member (ft : feature) :
  inheritedName (bucket ft) = true -> getMarkerColor (featureType ft) = "#95a5a6".
Proof.
  unfold bucket. destruct (featureType ft) as [| | b | x | s]; try reflexivity.
  destruct (decide (s = "")) as [-> | H0]; [reflexivity |].
  destruct (decide (s = "Blue Infrastructure")) as [-> | H1]; [discriminate |].
  destruct (decide (s = "Blue")) as [-> | H2]; [discriminate |].
  destruct (decide (s = "Green Infrastructure")) as [-> | H3]; [discriminate |].
  destruct (decide (s = "Green")) as [-> | H4]; [discriminate |].
  destruct (decide (s = "Grey Infrastructure")) as [-> | H5]; [reflexivity |].
  destruct (decide (s = "Grey")) as [-> | H6]; [reflexivity |].
  destruct (decide (s = "Hybrid")) as [-> | H7]; [discriminate |].
  intros _. unfold getMarkerColor. cbn [strictEq].
  now rewrite !bool_decide_eq_false_2 by assumption.
Qed.

(** X13. A project's marker has the colour of the slice the project is
    counted in, for every type value that does not name a member of
    [Object.prototype]: there [getMarkerColor] and the palette of
    [pieChartData] agree.  Under the name of such a member they part: the
    marker is the default grey, while the palette lookup finds the inherited
    member, which is no colour. *)
Theorem marker_colour_is_slice_colour (ft : feature) (properties : gmap string jsval) :
  fproperties ft = Some properties ->
  if inheritedName (bucket ft)
  then markerColor properties = "#95a5a6"
       /\ colorOf (bucket ft) = InheritedMember (bucket ft)
  else colorOf (bucket ft) = Colour (markerColor properties)
       /\ forall typeCounts, countFeature typeCounts ft = Done (increment (bucket ft) typeCounts).
Proof.
  intros Hprops. rewrite (markerColor_featureType ft properties Hprops).
  destruct (inheritedName (bucket ft)) eqn:Hkey.
  - split; [now apply getMarkerColor_member | now apply colorOf_member].
  - split.
    + revert Hkey. unfold bucket.
      destruct (featureType ft) as [| | b | x | s]; try reflexivity.
      * now destruct b.
      * destruct (truthy (JNum x)); [| reflexivity].
        cbn [ToString]. intros Hkey. rewrite colorOf_other; [reflexivity | | exact Hkey].
        intros H. now apply (number_not_palette x _ H).
      * destruct (decide (s = "")) as [-> | H0]; [reflexivity |].
        destruct (decide (s = "Blue Infrastructure")) as [-> | H1]; [reflexivity |].
        destruct (decide (s = "Blue")) as [-> | H2]; [reflexivity |].
        destruct (decide (s = "Green Infrastructure")) as [-> | H3]; [reflexivity |].
        destruct (decide (s = "Green")) as [-> | H4]; [reflexivity |].
        destruct (decide (s = "Grey Infrastructure")) as [-> | H5]; [reflexivity |].
        destruct (decide (s = "Grey")) as [-> | H6]; [reflexivity |].
        destruct (decide (s = "Hybrid")) as [-> | H7]; [reflexivity |].
        rewrite !(bool_decide_eq_false_2 (s ∈ _))
          by (rewrite !elem_of_cons, elem_of_nil; tauto).
        rewrite !(bool_decide_eq_false_2 (s = _)) by assumption.
        intros Hkey. unfold getMarkerColor. cbn [strictEq].
        rewrite !(bool_decide_eq_false_2 (s = _)) by assumption. cbn [orb].
        rewrite colorOf_other; [reflexivity | | exact Hkey].
        cbn [In]. intuition congruence.
    + intros typeCounts. unfold countFeature. now rewrite bucket_key, Hkey.
Qed.

Lemma marker_colour_is_slice_colour_witness :
  colorOf "Green" = Colour (markerColor (list_to_map [("Infrastruc", JStr "Green Infrastructure")]))
  /\ colorOf "Gray Infrastructure"
     = Colour (markerColor (list_to_map [("Type", JStr "Gray Infrastructure")]))
  /\ markerColor (list_to_map [("Type", JStr "constructor")]) = "#95a5a6"
  /\ colorOf "constructor" = InheritedMember "constructor".
Proof.
  split; [| split].
  - apply (marker_colour_is_slice_colour
             (project [("Infrastruc", JStr "Green Infrastructure")]) _ eq_refl).
  - apply (marker_colour_is_slice_colour
             (project [("Type", JStr "Gray Infrastructure")]) _ eq_refl).
  - apply (marker_colour_is_slice_colour (project [("Type", JStr "constructor")]) _ eq_refl).
Defined.

(** ** The cost shown in a popup *)

Lemma costField_or (ft : feature) :
  js_or (prop (propertiesOrEmpty ft) "Estimated_")
        (prop (propertiesOrEmpty ft) "Estimated Project Cost")
  = costField ft.
Proof. unfold costField, propertiesOrEmpty. now destruct (fproperties ft). Qed.

Lemma formatCostCompact_parsedCost (formatCompact : float -> string) (ft : feature) :
  formatCostCompact formatCompact (costField ft)
  = match parsedCost ft with
    | Some x => JStr ("$" +:+ formatCompact x)
    | None => JNull
    end.
Proof.
  unfold formatCostCompact, parsedCost.
  destruct (truthy (costField ft)) eqn:T; cbn [negb orb]; [| reflexivity].
  destruct (truthy_not_nullish _ T) as [-> ->]. cbn [orb].
  assert (Hkeep : forall c, filterStr notDollarComma c = withoutDollarComma c).
  { intros c. apply filterStr_ext. intros a. unfold notDollarComma.
    destruct (bool_decide (a = "$"%char)) eqn:E1, (bool_decide (a = ","%char)) eqn:E2;
      cbn; symmetry;
      try (apply bool_decide_eq_true_1 in E1; subst a);
      try (apply bool_decide_eq_true_1 in E2; subst a); try reflexivity.
    apply bool_decide_eq_false_1 in E1, E2. apply negb_true_iff, bool_decide_eq_false_2.
    rewrite !elem_of_cons, elem_of_nil. tauto. }
  rewrite not_finite_nan.
  destruct (costField ft) as [| | b | x | c]; rewrite ?Hkeep;
    match goal with |- context [Number_isFinite ?y] => destruct (Number_isFinite y) end;
    reflexivity.
Qed.

(** X14. The popup shows a cost for exactly the projects that count towards
    the total investment: when a project adds its parsed cost to the total,
    the cost cell shows that number, formatted, after a dollar sign; when it
    adds nothing, the cell reads "Not Disclosed". *)
Theorem popup_cost_matches_total (formatCompact : float -> string) (ft : feature) :
  match parsedCost ft with
  | Some x =>
      costCell formatCompact (propertiesOrEmpty ft) = JStr ("$" +:+ formatCompact x)
      /\ forall sum, addCost sum ft = (sum + x)%float
  | None =>
      costCell formatCompact (propertiesOrEmpty ft) = JStr "Not Disclosed"
      /\ forall sum, addCost sum ft = sum
  end.
Proof.
  unfold costCell. rewrite costField_or, formatCostCompact_parsedCost.
  pose proof (fun sum => addCost_parsedCost sum ft) as Hadd.
  destruct (parsedCost ft) as [x |]; split; auto.
Qed.

(** ** The check boxes of the filters *)

Lemma sameValueZero_strictEq (a b : jsval) :
  truthy b = true -> sameValueZero a b = strictEq a b.
Proof.
  destruct a as [| | x | x | s], b as [| | y | y | t]; cbn [sameValueZero strictEq truthy];
    try reflexivity.
  intros [Hn _]%negb_true_iff%orb_false_elim. now rewrite Hn, andb_false_r, orb_false_r.
Qed.

Lemma sameValueZero_refl (a : jsval) : sameValueZero a a = true.
Proof.
  destruct a as [| | x | x | s]; cbn [sameValueZero]; try reflexivity.
  - now destruct x.
  - unfold PrimFloat.is_nan. now destruct (x =? x)%float.
  - now apply bool_decide_eq_true_2.
Qed.

Lemma includes_app (l k : list jsval) (v : jsval) :
  includes (l ++ k) v = includes l v || includes k v.
Proof. unfold includes. apply existsb_app. Qed.

Lemma includes_removed (value : jsval) (selected : list jsval) :
  truthy value = true ->
  includes (List.filter (fun t => negb (strictEq t value)) selected) value = false.
Proof.
  intros Hv. induction selected as [| t l IH]; [reflexivity |].
  cbn [List.filter]. destruct (strictEq t value) eqn:E; cbn [negb]; [exact IH |].
  unfold includes in *. cbn [existsb]. now rewrite IH, (sameValueZero_strictEq t value Hv), E.
Qed.

Lemma filter_absent (value : jsval) (selected : list jsval) :
  truthy value = true -> includes selected value = false ->
  List.filter (fun t => negb (strictEq t value)) selected = selected.
Proof.
  intros Hv. induction selected as [| t l IH]; [reflexivity |].
  unfold includes in *. cbn [existsb List.filter].
  intros [Ht Hl]%orb_false_elim. rewrite (sameValueZero_strictEq t value Hv) in Ht.
  rewrite Ht. cbn [negb]. now rewrite IH.
Qed.

Lemma strictEq_sameValueZero_trans (t v w : jsval) :
  strictEq t v = true -> sameValueZero t w = sameValueZero v w.
Proof.
  destruct t as [| | x | x | s], v as [| | y | y | u]; cbn [strictEq]; try discriminate;
    try reflexivity.
  - intros E%Bool.eqb_prop. now subst.
  - intros E. destruct w as [| | z | z | r]; cbn [sameValueZero]; try reflexivity.
    apply eqb_level in E as (Hx & Hy & L). rewrite Hx, Hy. cbn [andb]. rewrite !orb_false_r.
    destruct (PrimFloat.is_nan z) eqn:Hz.
    + rewrite !FloatAxioms.eqb_spec. apply is_nan_spec in Hz. rewrite Hz.
      unfold SFeqb. now destruct (Prim2SF x), (Prim2SF y).
    + apply eq_true_iff_eq. rewrite !eqb_level. unfold level in *. rewrite L. tauto.
  - intros E%bool_decide_eq_true_1. now subst.
Qed.

Lemma includes_filter_other (value w : jsval) (selected : list jsval) :
  includes (List.filter (fun t => negb (strictEq t value)) selected ++ [value]) w
  = includes (selected ++ [value]) w.
Proof.
  rewrite !includes_app. induction selected as [| t l IH]; [reflexivity |].
  cbn [List.filter]. destruct (strictEq t value) eqn:E; cbn [negb].
  - rewrite IH. unfold includes. cbn [existsb].
    rewrite (strictEq_sameValueZero_trans t value w E).
    destruct (sameValueZero value w); [| reflexivity].
    now rewrite !orb_true_r.
  - unfold includes in *. cbn [existsb]. rewrite <- !orb_assoc. now f_equal.
Qed.

Lemma clickBox_twice (value : jsval) (selected : list jsval) :
  truthy value = true ->
  (clickBox value (clickBox value selected) = [] <-> selected = [])
  /\ forall w, includes (clickBox value (clickBox value selected)) w = includes selected w.
Proof.
  intros Hv. unfold clickBox. destruct (includes selected value) eqn:I; cbn [negb toggleValue].
  - rewrite (includes_removed value selected Hv). cbn [negb toggleValue]. split.
    + split; [intros H; now apply app_eq_nil in H as [_ ?] |].
      intros ->. discriminate I.
    + intros w. rewrite includes_filter_other, includes_app.
      unfold includes at 2. cbn [existsb]. rewrite orb_false_r.
      destruct (sameValueZero value w) eqn:E; [| now rewrite orb_false_r].
      rewrite orb_true_r. symmetry.
      apply includes_exists in I as (t & Ht & Htv). apply includes_exists. exists t.
      split; [exact Ht |].
      rewrite (sameValueZero_strictEq t value Hv) in Htv.
      now rewrite (strictEq_sameValueZero_trans t value w Htv).
  - rewrite includes_app, I.
    assert (includes [value] value = true) as ->
      by (unfold includes; cbn [existsb]; now rewrite sameValueZero_refl).
    cbn [orb negb toggleValue]. rewrite List.filter_app. cbn [List.filter].
    rewrite (proj2 (strictEq_eq value value Hv) eq_refl). cbn [negb].
    rewrite app_nil_r, (filter_absent value selected Hv I). split; [tauto | reflexivity].
Qed.

Lemma keep_types (sel : filterSelection) (types : list jsval) (f : feature) :
  (types = [] <-> selectedTypes sel = []) ->
  (forall w, includes types w = includes (selectedTypes sel) w) ->
  filteredStats_keep (withTypes sel types) f = filteredStats_keep sel f.
Proof.
  intros Hnil Hinc. unfold filteredStats_keep, withTypes.
  cbn [selectedTypes selectedDisasterFocus selectedCity]. rewrite Hinc.
  replace (length types =? 0)%nat with (length (selectedTypes sel) =? 0)%nat; [reflexivity |].
  destruct types, (selectedTypes sel); try reflexivity.
  - destruct Hnil as [H _]. now specialize (H eq_refl).
  - destruct Hnil as [_ H]. now specialize (H eq_refl).
Qed.

Lemma keep_focus (sel : filterSelection) (focus : list jsval) (f : feature) :
  (focus = [] <-> selectedDisasterFocus sel = []) ->
  (forall w, includes focus w = includes (selectedDisasterFocus sel) w) ->
  filteredStats_keep (withFocus sel focus) f = filteredStats_keep sel f.
Proof.
  intros Hnil Hinc. unfold filteredStats_keep, withFocus.
  cbn [selectedTypes selectedDisasterFocus selectedCity]. rewrite Hinc.
  replace (length focus =? 0)%nat with (length (selectedDisasterFocus sel) =? 0)%nat;
    [reflexivity |].
  destruct focus, (selectedDisasterFocus sel); try reflexivity.
  - destruct Hnil as [H _]. now specialize (H eq_refl).
  - destruct Hnil as [_ H]. now specialize (H eq_refl).
Qed.

(** X15. Clicking the check box of a type (or of a focus) inverts the box,
    and a second click on it brings back the same visible set: the filter
    keeps exactly the features it kept before the two clicks.  When a type is
    already ticked, ticking one more hides no project. *)
Theorem box_click_twice (sel : filterSelection) (value : jsval) :
  truthy value = true ->
  includes (clickBox value (selectedTypes sel)) value = negb (includes (selectedTypes sel) value)
  /\ (forall f,
        filteredStats_keep
          (withTypes sel (clickBox value (clickBox value (selectedTypes sel)))) f
        = filteredStats_keep sel f)
  /\ (forall f,
        filteredStats_keep
          (withFocus sel (clickBox value (clickBox value (selectedDisasterFocus sel)))) f
        = filteredStats_keep sel f)
  /\ (selectedTypes sel <> [] -> includes (selectedTypes sel) value = false ->
      forall f, filteredStats_keep sel f = Done true ->
                filteredStats_keep (withTypes sel (clickBox value (selectedTypes sel))) f
                = Done true).
Proof.
  intros Hv. split; [| split; [| split]].
  - unfold clickBox. destruct (includes (selectedTypes sel) value) eqn:I; cbn [negb toggleValue].
    + now apply includes_removed.
    + rewrite includes_app, I. unfold includes. cbn [existsb orb].
      now rewrite sameValueZero_refl.
  - intros f. destruct (clickBox_twice value (selectedTypes sel) Hv) as [Hnil Hinc].
    now apply keep_types.
  - intros f. destruct (clickBox_twice value (selectedDisasterFocus sel) Hv) as [Hnil Hinc].
    now apply keep_focus.
  - intros Hne I f. unfold clickBox. rewrite I. cbn [negb toggleValue].
    unfold filteredStats_keep, withTypes.
    cbn [selectedTypes selectedDisasterFocus selectedCity].
    destruct (if truthy _ then js_trim _ else Done _) as [city | |]; cbn [mbind outcome_bind];
      try discriminate.
    intros [= H]. f_equal. apply andb_prop in H as [[H1 H2]%andb_prop H3].
    apply andb_true_intro. split; [apply andb_true_intro; split |];
      [| exact H2 | exact H3].
    rewrite includes_app. destruct (selectedTypes sel) as [| t l]; [congruence |].
    cbn [length Nat.eqb orb] in H1. rewrite H1. now rewrite !orb_true_r.
Qed.

Lemma box_click_twice_witness :
  includes (clickBox (JStr "Green") (selectedTypes sampleSelection)) (JStr "Green")
  = negb (includes (selectedTypes sampleSelection) (JStr "Green")).
Proof.
  apply (box_click_twice sampleSelection (JStr "Green")). reflexivity.
Defined.

(** ** Zooming to a city *)

Lemma inCity_Done (cityName : string) (m : marker) :
  markerCityIsText m ->
  inCity cityName m
  = Done (match mfeature m with
          | Some f => match featureCity f with
                      | JStr city => bool_decide (trim city = trim cityName)
                      | _ => false
                      end
          | None => false
          end).
Proof.
  unfold markerCityIsText, inCity. destruct (mfeature m) as [f |]; [| reflexivity].
  intros Htext. specialize (Htext f eq_refl).
  assert (Hcity : featureCity f
                  = js_or (prop (propertiesOrEmpty f) "NAME") (prop (propertiesOrEmpty f) "City"))
    by reflexivity.
  unfold cityIsText in Htext. rewrite Hcity in Htext. rewrite Hcity.
  rewrite selectedCity_trimmed, (trimmed_city _ Htext). cbn [mbind outcome_bind].
  f_equal. destruct (js_or _ _); reflexivity.
Qed.

(** X16. When the filters and the city selection have been applied to the
    markers, every marker left displayed is among those the map zooms to.
    With no city selected the zoom targets are exactly the displayed markers;
    with a city selected they are all the markers of the city, whatever the
    type and focus filters hide. *)
Theorem zoom_covers_displayed (sel : filterSelection) (allMarkers shown : list marker) :
  Forall markerCityIsText allMarkers ->
  Forall (fun m => mfeature m <> None) allMarkers ->
  selectedCity sel = "" \/ allWhiteSpace (selectedCity sel) = false ->
  filterMarkers true sel allMarkers = Done shown ->
  exists targets,
    markersToZoom (selectedCity sel) shown = Done targets
    /\ (forall m, In m shown -> displayed m = true -> In m targets)
    /\ (selectedCity sel = "" -> targets = List.filter displayed shown)
    /\ (selectedCity sel <> "" ->
        forall m, In m targets
                  <-> In m shown
                      /\ exists f city, mfeature m = Some f /\ featureCity f = JStr city
                                        /\ trim city = trim (selectedCity sel)).
Proof.
  intros Htext Hfeat Hsel Hshown.
  assert (Hs : shown = List.map (displayVisible sel) allMarkers).
  { unfold filterMarkers in Hshown. destruct allMarkers as [| m ms]; [now injection Hshown |].
    cbn [length Nat.eqb negb orb] in Hshown.
    rewrite (mapO_Done _ (displayVisible sel)) in Hshown; [now injection Hshown |].
    eapply Forall_impl; [exact Htext |]. intros m' Hm'. now apply filterMarker_visible. }
  assert (Htext' : Forall markerCityIsText shown).
  { subst shown. apply Forall_forall. intros m' (m & <- & Hm)%list_elem_of_In%in_map_iff.
    rewrite Forall_forall in Htext. specialize (Htext m (proj2 (list_elem_of_In _ _) Hm)).
    unfold displayVisible, markerCityIsText in *. destruct (mfeature m) as [f |] eqn:E; [| now rewrite E].
    cbn [mfeature]. exact Htext. }
  unfold markersToZoom. destruct Hsel as [Hempty | Hws].
  - rewrite Hempty. cbn [truthy negb orb bool_decide]. eexists. split; [reflexivity |].
    split; [| split; [reflexivity | congruence]].
    intros m Hm Hd. apply filter_In. now split.
  - assert (Hne : selectedCity sel <> "") by (intros E; rewrite E in Hws; discriminate).
    assert (Htr : trim (selectedCity sel) <> "").
    { intros E%trim_blank_iff. congruence. }
    assert (truthy (JStr (selectedCity sel)) = true) as ->
      by (cbn [truthy]; now rewrite bool_decide_eq_false_2).
    rewrite (bool_decide_eq_false_2 _ Hne). cbn [negb orb].
    rewrite (filterO_Done _ (fun m => match mfeature m with
                                      | Some f => match featureCity f with
                                                  | JStr city => bool_decide (trim city = trim (selectedCity sel))
                                                  | _ => false
                                                  end
                                      | None => false
                                      end)).
    2: { eapply Forall_impl; [exact Htext' |]. intros m Hm. now apply inCity_Done. }
    eexists. split; [reflexivity |]. split; [| split; [congruence |]].
    + intros m' Hm' Hd. apply filter_In. split; [exact Hm' |].
      subst shown. apply in_map_iff in Hm' as (m & <- & Hm).
      rewrite Forall_forall in Hfeat. specialize (Hfeat m (proj2 (list_elem_of_In _ _) Hm)).
      unfold displayVisible in *. destruct (mfeature m) as [f |] eqn:E; [| congruence].
      cbn [mfeature displayed] in *. unfold visible in Hd.
      apply andb_prop in Hd as [_ Hc]. rewrite (bool_decide_eq_false_2 _ Htr) in Hc.
      exact Hc.
    + intros _ m. rewrite filter_In. split.
      * intros [Hm Hc]. split; [exact Hm |].
        destruct (mfeature m) as [f |]; [| discriminate].
        destruct (featureCity f) as [| | b | x | city] eqn:Ec; try discriminate.
        apply bool_decide_eq_true_1 in Hc. exists f, city. auto.
      * intros [Hm (f & city & -> & -> & Hc)]. split; [exact Hm |].
        now apply bool_decide_eq_true_2.
Qed.

Lemma zoom_covers_displayed_witness :
  exists targets,
    markersToZoom "Miami" (List.map (displayVisible sampleSelection) sampleMarkers)
    = Done targets
    /\ length targets = 2%nat.
Proof.
  destruct (zoom_covers_displayed sampleSelection sampleMarkers
              (List.map (displayVisible sampleSelection) sampleMarkers))
    as (targets & H1 & _).
  - unfold sampleMarkers, sampleProjects.
    repeat (apply Forall_cons_2; [intros f [= <-]; vm_compute; reflexivity |]).
    apply Forall_nil_2.
  - repeat constructor; discriminate.
  - right. reflexivity.
  - vm_compute. reflexivity.
  - exists targets. split; [exact H1 |].
    vm_compute in H1. injection H1 as <-. reflexivity.
Defined.

(** ** The census layer selector *)

Lemma chooseLayers_state (choices : list layerChoice) :
  let st := List.fold_left chooseLayer choices censusViewStart in
  st = CensusView "none" false \/ st = CensusView "risk" true \/ st = CensusView "pred3pe" true.
Proof.
  cbn zeta. assert (H0 : censusViewStart = CensusView "none" false
                         \/ censusViewStart = CensusView "risk" true
                         \/ censusViewStart = CensusView "pred3pe" true) by (right; left; reflexivity).
  revert H0. generalize censusViewStart.
  induction choices as [| c choices IH]; intros st H; [exact H |].
  cbn [List.fold_left]. apply IH. destruct c; cbn; auto.
Qed.

(** X17. Whatever radio buttons of the layer selector are clicked, exactly one
    of the three is drawn checked, each fill layer is visible exactly when its
    radio button is checked (so never both), and the outline is visible
    exactly when "No Layer" is not checked. *)
Theorem census_view_exclusive (choices : list layerChoice) :
  let st := List.fold_left chooseLayer choices censusViewStart in
  ((noLayerChecked st, riskIndexChecked st, resilienceIndexChecked st) = (true, false, false)
   \/ (noLayerChecked st, riskIndexChecked st, resilienceIndexChecked st) = (false, true, false)
   \/ (noLayerChecked st, riskIndexChecked st, resilienceIndexChecked st) = (false, false, true))
  /\ riskVisibility (layersOf st) = riskIndexChecked st
  /\ pred3PEVisibility (layersOf st) = resilienceIndexChecked st
  /\ outlineVisibility (layersOf st) = negb (noLayerChecked st)
  /\ (match choices with
      | [] => st = censusViewStart
      | _ => activeCensusView st = choiceValue (List.last choices NoLayer)
      end).
Proof.
  intros st. pose proof (chooseLayers_state choices) as H. cbn zeta in H. fold st in H.
  split; [| split; [| split; [| split]]].
  - destruct H as [-> | [-> | ->]]; auto.
  - destruct H as [-> | [-> | ->]]; reflexivity.
  - destruct H as [-> | [-> | ->]]; reflexivity.
  - destruct H as [-> | [-> | ->]]; reflexivity.
  - clear H. subst st. destruct choices as [| c choices]; [reflexivity |].
    generalize censusViewStart. revert c.
    induction choices as [| c' choices IH]; intros c st0; [reflexivity |].
    cbn [List.fold_left]. cbn [List.fold_left] in IH. rewrite (IH c' (chooseLayer st0 c)).
    reflexivity.
Qed.

(** ** The occurrences highlightText marks *)

Lemma codeUnits_all (c : ascii) : In c codeUnits.
Proof.
  unfold codeUnits. apply in_map_iff. exists (nat_of_ascii c).
  split; [apply ascii_nat_embedding |]. apply in_seq. pose proof (nat_ascii_bounded c). lia.
Qed.

Lemma canonicalize_lowerChar (a b : ascii) :
  (canonicalize a =? canonicalize b)%N = bool_decide (lowerChar a = lowerChar b).
Proof.
  assert (H : forallb (fun a => forallb (fun b =>
                Bool.eqb (canonicalize a =? canonicalize b)%N
                         (bool_decide (lowerChar a = lowerChar b))) codeUnits) codeUnits = true)
    by (vm_compute; reflexivity).
  rewrite forallb_forall in H. specialize (H a (codeUnits_all a)).
  rewrite forallb_forall in H. specialize (H b (codeUnits_all b)).
  now apply Bool.eqb_prop in H.
Qed.

Lemma toLowerCase_length (s : string) : String.length (toLowerCase s) = String.length s.
Proof. induction s as [| c s IH]; cbn; [reflexivity | now rewrite IH]. Qed.

Lemma matchesAt_lower (term s : string) :
  matchesAt term s = true
  <-> toLowerCase (takeStr (String.length term) s) = toLowerCase term.
Proof.
  revert s. induction term as [| a term IH]; intros [| b s]; cbn [matchesAt String.length takeStr toLowerCase].
  - tauto.
  - tauto.
  - split; discriminate.
  - rewrite andb_true_iff, canonicalize_lowerChar, bool_decide_eq_true, IH. split.
    + intros [H1 H2]. congruence.
    + intros [= H1 H2]. auto.
Qed.

Lemma matchesAt_app (term s t : string) :
  matchesAt term s = true -> matchesAt term (s +:+ t) = true.
Proof.
  revert s. induction term as [| a term IH]; intros [| b s];
    rewrite ?append_nil, ?append_cons; cbn [matchesAt]; try tauto; try discriminate.
  intros [-> H]%andb_prop. now rewrite IH.
Qed.

Lemma dropStr_app (k : nat) (s t : string) :
  (k <= String.length s)%nat -> dropStr k (s +:+ t) = dropStr k s +:+ t.
Proof.
  revert s. induction k as [| k IH]; intros [| c s] H;
    rewrite ?append_nil, ?append_cons; cbn in *; try reflexivity; try lia.
  apply IH. lia.
Qed.

Lemma dropStr_all (k : nat) (s : string) : (String.length s <= k)%nat -> dropStr k s = "".
Proof.
  revert s. induction k as [| k IH]; intros [| c s] H; cbn in *; try reflexivity; try lia.
  apply IH. lia.
Qed.

Lemma length_append (s t : string) :
  String.length (s +:+ t) = (String.length s + String.length t)%nat.
Proof. induction s as [| c s IH]; [reflexivity |]. rewrite append_cons. cbn. now rewrite IH. Qed.

Lemma segment_free (term seg rest : string) :
  term <> "" ->
  (forall k, (k < String.length seg)%nat -> matchesAt term (dropStr k (seg +:+ rest)) = false) ->
  forall k, matchesAt term (dropStr k seg) = false.
Proof.
  intros Hterm H k. destruct (Nat.lt_ge_cases k (String.length seg)) as [Hk | Hk].
  - specialize (H k Hk). rewrite dropStr_app in H by lia.
    destruct (matchesAt term (dropStr k seg)) eqn:E; [| reflexivity].
    now rewrite (matchesAt_app _ _ rest E) in H.
  - rewrite dropStr_all by exact Hk. now destruct term.
Qed.

Lemma takeStr_length (n : nat) (s : string) :
  String.length (takeStr n s) = Nat.min n (String.length s).
Proof.
  revert s. induction n as [| n IH]; intros [| c s]; cbn; try reflexivity. now rewrite IH.
Qed.

Lemma matchesAt_length (term s : string) :
  matchesAt term s = true -> (String.length term <= String.length s)%nat.
Proof.
  revert s. induction term as [| a term IH]; intros [| b s]; cbn; try lia; try discriminate.
  intros [_ H]%andb_prop. apply IH in H. lia.
Qed.

Lemma matchesAt_take (term s : string) :
  matchesAt term s = true -> matchesAt term (takeStr (String.length term) s) = true.
Proof.
  revert s. induction term as [| a term IH]; intros [| b s]; cbn; try tauto; try discriminate.
  intros [-> H]%andb_prop. now rewrite IH.
Qed.

Lemma splitLoop_parts (term seg rest : string) :
  term <> "" ->
  (forall k, (k < String.length seg)%nat -> matchesAt term (dropStr k (seg +:+ rest)) = false) ->
  Forall (matchOrFree term) (splitLoop term seg rest).
Proof.
  intros Hterm. funelim (splitLoop term seg rest); simp splitLoop; intros Hseg.
  - apply Forall_cons_2; [| apply Forall_nil_2]. right.
    now apply (segment_free term seg "").
  - match goal with e : _ && _ = true |- _ => pose proof (andb_prop _ _ e) as [Hm _] end.
    apply Forall_cons_2; [right; now apply (segment_free term seg (String c rest')) |].
    apply Forall_cons_2.
    + left. split; [now apply matchesAt_take |].
      rewrite takeStr_length. apply matchesAt_length in Hm. lia.
    + match goal with IH : _ -> _ -> Forall _ _ |- _ => apply IH; [exact Hterm |] end.
      intros k Hk. cbn in Hk. lia.
  - match goal with IH : _ -> _ -> Forall _ _ |- _ => apply IH; [exact Hterm |] end.
    intros k Hk. rewrite length_append in Hk. cbn [String.length] in Hk.
    rewrite append_assoc', append_cons, append_nil.
    destruct (decide (k = String.length seg)) as [-> | Hne].
    + rewrite dropStr_app by lia. rewrite dropStr_all by lia. rewrite append_nil.
      match goal with e : _ && _ = false |- _ => generalize e end.
      destruct term; [congruence |]. cbn [isEmptyStr andb negb]. now rewrite andb_true_r.
    + apply Hseg. lia.
Qed.

Lemma splitRegExp_parts (term text : string) :
  term <> "" -> Forall (matchOrFree term) (splitRegExp term text).
Proof.
  intros Hterm. unfold splitRegExp. destruct text as [| c text].
  - destruct (isEmptyStr term); [constructor |].
    apply Forall_cons_2; [| apply Forall_nil_2]. right. intros k.
    destruct k, term; try reflexivity; congruence.
  - apply splitLoop_parts; [exact Hterm |]. intros k Hk. cbn in Hk. lia.
Qed.

Lemma free_no_occurrence (term part : string) :
  (forall k, matchesAt term (dropStr k part) = false) -> forall k, ~ occursAt term part k.
Proof.
  intros H k Hk. apply matchesAt_lower in Hk. now rewrite H in Hk.
Qed.

(** X18. On a text and a query of code units below 256 (Latin-1, the strings
    of the embedding), and under a query that is not blank, [highlightText]
    marks the occurrences of the trimmed query: a highlighted piece is the
    query up to case, and no piece left plain contains the query, ignoring
    case.  (Beyond Latin-1 the pattern and [toLowerCase] fold case
    differently, see [canonicalize].) *)
Theorem highlightText_marks_occurrences (text query : string) (p : piece) :
  allWhiteSpace query = false ->
  In p (highlightText (JStr text) query) ->
  exists part,
    content p = JStr part
    /\ if highlighted p then toLowerCase part = toLowerCase (trim query)
       else forall k, ~ occursAt (trim query) part k.
Proof.
  intros Hq. assert (Hterm : trim query <> "") by (intros E%trim_blank_iff; congruence).
  unfold highlightText. destruct (negb (truthy (JStr text))) eqn:T.
  - intros [<- | []]. exists text. split; [reflexivity |]. cbn [highlighted plain].
    apply negb_true_iff in T. cbn [truthy] in T.
    apply negb_false_iff, bool_decide_eq_true_1 in T. subst text.
    intros k Hk. unfold occursAt in Hk. apply (f_equal String.length) in Hk.
    rewrite !toLowerCase_length, takeStr_length in Hk.
    destruct k, (trim query); cbn in Hk; congruence.
  - assert (isEmptyStr query || isEmptyStr (trim query) = false) as ->.
    { destruct query; [discriminate |]. destruct (trim _); [congruence | reflexivity]. }
    intros (part & <- & Hpart)%in_map_iff. exists part. split; [reflexivity |].
    cbn [highlighted]. apply filter_In in Hpart as [Hpart _].
    destruct (bool_decide _) eqn:B; [now apply bool_decide_eq_true_1 in B |].
    apply bool_decide_eq_false_1 in B.
    pose proof (splitRegExp_parts (trim query) text Hterm) as Hall.
    rewrite Forall_forall in Hall. specialize (Hall part (proj2 (list_elem_of_In _ _) Hpart)).
    destruct Hall as [[Hm Hlen] | Hfree]; [| now apply free_no_occurrence].
    exfalso. apply B. apply matchesAt_lower in Hm.
    rewrite <- Hm. f_equal. rewrite <- Hlen. clear. induction part as [| c s IH]; cbn; congruence.
Qed.

Lemma highlightText_marks_occurrences_witness :
  exists part,
    content (Piece (JStr "a") false) = JStr part
    /\ forall k, ~ occursAt (trim "mi") part k.
Proof.
  apply (highlightText_marks_occurrences "Miami Beach" "mi" (Piece (JStr "a") false)).
  - reflexivity.
  - vm_compute. auto.
Defined.

(** ** The positions of a reprojected collection *)

Lemma fold_traverse_collect (l : list coords) (st : list coords) :
  Forall (fun c => forall st, traverse collect c st = st ++ traverse collect c []) l ->
  List.fold_left (fun st' c' => traverse collect c' st') l st
  = st ++ List.flat_map (fun c => traverse collect c []) l.
Proof.
  intros H. revert st. induction H as [| c l Hc _ IH]; intros st; cbn [List.fold_left List.flat_map].
  - now rewrite app_nil_r.
  - rewrite IH, Hc. now rewrite <- app_assoc.
Qed.

Lemma traverse_collect (c : coords) (st : list coords) :
  traverse collect c st = st ++ traverse collect c [].
Proof.
  revert st. induction c as [v | l IH] using coords_nested_ind; intros st.
  - cbn. now rewrite app_nil_r.
  - cbn [traverse]. destruct (isNumberPair (CArray l)); [reflexivity |].
    now rewrite (fold_traverse_collect l st IH), (fold_traverse_collect l [] IH).
Qed.

Lemma traverse_array (l : list coords) :
  isNumberPair (CArray l) = false ->
  traverse collect (CArray l) [] = List.flat_map (fun c => traverse collect c []) l.
Proof.
  intros H. cbn [traverse]. rewrite H.
  apply (fold_traverse_collect l []). apply Forall_forall. intros c _ st. apply traverse_collect.
Qed.

Lemma traverse_found_pairs (c : coords) :
  Forall (fun p => isNumberPair p = true) (traverse collect c []).
Proof.
  induction c as [v | l IH] using coords_nested_ind; [constructor |].
  destruct (isNumberPair (CArray l)) eqn:E.
  - cbn [traverse]. rewrite E. cbn. now repeat constructor.
  - rewrite (traverse_array l E). clear E.
    induction IH as [| c l' Hc _ IHl]; cbn [List.flat_map]; [constructor |].
    apply Forall_app. now split.
Qed.

Lemma transformToWgs84_array (Math_exp Math_atan : float -> float) (l : list coords) :
  isNumberPair (CArray l) = false ->
  transformToWgs84 Math_exp Math_atan (CArray l)
  = CArray (List.map (transformToWgs84 Math_exp Math_atan) l).
Proof.
  intros H. destruct l as [| [[]|] [| [[]|] ?]]; try reflexivity; discriminate.
Qed.

Lemma transformToWgs84_pair (Math_exp Math_atan : float -> float) (c : coords) :
  isNumberPair c = true ->
  transformToWgs84 Math_exp Math_atan c = toWgs84Position Math_exp Math_atan c
  /\ isNumberPair (toWgs84Position Math_exp Math_atan c) = true
  /\ isPlainPair (toWgs84Position Math_exp Math_atan c).
Proof.
  destruct c as [| [| [[]|] [| [[]|] ?]]]; try discriminate. intros _.
  cbn [transformToWgs84 toWgs84Position].
  destruct (toWgs84Coordinate Math_exp Math_atan _ _) as [lon lat].
  repeat split. now exists lon, lat.
Qed.

Lemma transformToWgs84_number (Math_exp Math_atan : float -> float) (c : coords) :
  match transformToWgs84 Math_exp Math_atan c, c with
  | CScalar v, CScalar w => v = w
  | CArray _, CArray _ => True
  | _, _ => False
  end.
Proof.
  destruct c as [| [| [[]|] [| [[]|] ?]]]; cbn; try reflexivity; exact I.
Qed.

Lemma isNumberPair_map (Math_exp Math_atan : float -> float) (l : list coords) :
  isNumberPair (CArray (List.map (transformToWgs84 Math_exp Math_atan) l))
  = isNumberPair (CArray l).
Proof.
  destruct l as [| a [| b l]]; [reflexivity | |].
  - cbn [List.map]. now destruct (transformToWgs84 _ _ a) as [[]|], a as [[]|].
  - cbn [List.map].
    pose proof (transformToWgs84_number Math_exp Math_atan a) as Ha.
    pose proof (transformToWgs84_number Math_exp Math_atan b) as Hb.
    destruct (transformToWgs84 _ _ a) as [va|], a as [wa|]; try contradiction;
      destruct (transformToWgs84 _ _ b) as [vb|], b as [wb|]; try contradiction;
      subst; reflexivity.
Qed.

Lemma traverse_transformToWgs84 (Math_exp Math_atan : float -> float) (c : coords) :
  traverse collect (transformToWgs84 Math_exp Math_atan c) []
  = List.map (toWgs84Position Math_exp Math_atan) (traverse collect c []).
Proof.
  induction c as [v | l IH] using coords_nested_ind; [reflexivity |].
  destruct (isNumberPair (CArray l)) eqn:E.
  - destruct (transformToWgs84_pair Math_exp Math_atan (CArray l) E) as (-> & Hp & _).
    destruct (toWgs84Position Math_exp Math_atan (CArray l)) as [| l'] eqn:Q; [discriminate |].
    cbn [traverse]. rewrite E, Hp. unfold collect. cbn [app List.map]. now rewrite Q.
  - rewrite (transformToWgs84_array _ _ l E).
    rewrite traverse_array by now rewrite isNumberPair_map.
    rewrite (traverse_array l E). clear E.
    induction IH as [| c l' Hc _ IHl]; cbn [List.map List.flat_map]; [reflexivity |].
    now rewrite map_app, Hc, IHl.
Qed.

Lemma truthyCoords_transformToWgs84 (Math_exp Math_atan : float -> float) (c : coords) :
  truthyCoords (transformToWgs84 Math_exp Math_atan c) = truthyCoords c.
Proof.
  pose proof (transformToWgs84_number Math_exp Math_atan c) as H.
  destruct (transformToWgs84 _ _ c), c; try contradiction; [now subst | reflexivity].
Qed.

Lemma reprojectFeature_from (Math_exp Math_atan : float -> float) (f : feature) :
  reprojectedFrom Math_exp Math_atan f (reprojectFeature Math_exp Math_atan f).
Proof.
  unfold reprojectedFrom, reprojectFeature, positionsOf.
  destruct (fgeometry f) as [g |] eqn:G; rewrite ?G; cbn [fid fproperties fgeometry option_map gtype].
  - repeat split; try reflexivity.
    + unfold walkCoordinates. cbn [coordinates].
      rewrite truthyCoords_transformToWgs84.
      destruct (truthyCoords (coordinates g)); cbn [negb]; [| reflexivity].
      apply traverse_transformToWgs84.
    + unfold walkCoordinates. cbn [coordinates].
      rewrite truthyCoords_transformToWgs84.
      destruct (truthyCoords (coordinates g)); cbn [negb]; [| constructor].
      rewrite traverse_transformToWgs84. apply Forall_map.
      eapply Forall_impl; [apply traverse_found_pairs |].
      intros p Hp. now apply transformToWgs84_pair.
  - repeat split; try reflexivity. constructor.
Qed.

(** X19. The normalizer hands its input back, or it hands back a collection
    with a feature for each feature of the input, in the same order, with the
    same [id], the same [properties] and the same geometry type, whose
    positions are the positions of that feature, each taken through
    [toWgs84Coordinate] and cut to longitude and latitude; it does the latter
    only when the first position of the input is outside the geographic
    bounds. *)
Theorem reprojection_keeps_features (Math_exp Math_atan : float -> float)
  (fc : featureCollection) :
  let out := reprojectFeatureCollectionIfNeeded Math_exp Math_atan fc in
  out = fc
  \/ exists fs fs' first,
       features fc = Some fs
       /\ firstOfFeatures fs = Some first
       /\ needsReprojection first = true
       /\ features out = Some fs'
       /\ Forall2 (reprojectedFrom Math_exp Math_atan) fs fs'.
Proof.
  intros out. subst out. unfold reprojectFeatureCollectionIfNeeded.
  destruct (features fc) as [[| f fs] |] eqn:F; [now left | | now left].
  rewrite findFirstCoord_first.
  destruct (firstOfFeatures (f :: fs)) as [first |] eqn:E; [| now left].
  destruct (needsReprojection first) eqn:N; cbn [negb]; [| now left].
  right. exists (f :: fs), (List.map (reprojectFeature Math_exp Math_atan) (f :: fs)), first.
  repeat split; try assumption; try reflexivity.
  generalize (f :: fs). intros l. induction l as [| a l IH]; cbn [List.map]; constructor;
    [apply reprojectFeature_from | exact IH].
Qed.
